(** * CodexExecutor: the event translator of codex-a2a

    A shallow embedding of [codex-executor.ts] (class [CodexExecutor]), of
    [config.ts] and of the life cycle of [codex-a2a-server.ts] (class
    [CodexA2AServer]).  The executor turns the event stream of a Codex
    thread into A2A task updates published on an execution event bus; the
    server finds a port, makes the executor and serves it.

    Conventions of the embedding:
    - JavaScript strings are [string]; [length], [slice] and [trim] work on
      the characters of the string.
    - [Map<string, _>] is a [gmap string _], [Set<string>] a [gset string].
    - Opaque payloads ([usage], [changes], [arguments], [result], ...) are
      values of [JsValue].
    - Everything the executor does to the outside (publishing on a bus,
      finishing a bus, starting a thread, running it, logging) is recorded,
      in order, as a list of [Effect]s.  The calls themselves do not throw.
    - [crypto.randomUUID()] and [new Date().toISOString()] read the n-th
      element of a sequence given by the host; the state counts the reads.
    - The stream that [runStreamed] hands out is a finite list of events.
      [execute] is suspended only where it awaits: before each event and
      at the end of the stream; between two such points it runs alone, as
      does [cancelTask], which awaits nothing.  [execute] takes the
      stream as ending after its events; [execute_stream] takes it as
      ending or as throwing there.
    - Of the server, the express app, its routes and the request handler
      of the SDK are known by what they are made from; what [listen] does
      on a port is given by the host, and the calls on the server are
      taken one after the other. *)

From stdpp Require Import base gmap strings list pretty.
From Stdlib Require Import ZArith Ascii.

Local Open Scope string_scope.
Local Open Scope list_scope.

(** ** JavaScript values and strings *)

#[local] Unset Elimination Schemes.
Inductive JsValue : Type :=
| JUndefined
| JNull
| JBool (b : bool)
| JNum (z : Z)
| JStr (s : string)
| JArr (elems : list JsValue)
| JObj (fields : list (string * JsValue)).
#[local] Set Elimination Schemes.

(** [ToBoolean]: what [if (v)] and [v || w] test. *)
Definition truthy (v : JsValue) : bool :=
  match v with
  | JUndefined | JNull => false
  | JBool b => b
  | JNum z => negb (Z.eqb z 0)
  | JStr s => negb (String.eqb s "")
  | JArr _ | JObj _ => true
  end.

(** Truthiness of an optional property. *)
Definition truthy_opt (v : option JsValue) : bool :=
  match v with
  | Some w => truthy w
  | None => false
  end.

(** An optional property read as a value: absent reads as [undefined]. *)
Definition js_of_opt (v : option JsValue) : JsValue :=
  match v with
  | Some w => w
  | None => JUndefined
  end.

(** Truthiness of a string: only the empty string is falsy. *)
Definition nonempty (s : string) : bool :=
  match s with
  | EmptyString => false
  | String _ _ => true
  end.

(** Property read [o.key] on an object whose keys are distinct, as they
    are in every object literal of the executor. *)
Fixpoint js_get (key : string) (fields : list (string * JsValue)) : option JsValue :=
  match fields with
  | [] => None
  | (k, v) :: rest => if String.eqb k key then Some v else js_get key rest
  end.

Definition js_field (key : string) (v : JsValue) : option JsValue :=
  match v with
  | JObj fields => js_get key fields
  | _ => None
  end.

Definition js_has (key : string) (v : JsValue) : bool :=
  match js_field key v with
  | Some _ => true
  | None => false
  end.

(** [s.slice(n)] for [0 <= n]: the string without its first [n] characters,
    empty when [n] is past the end. *)
Fixpoint slice (n : nat) (s : string) : string :=
  match n, s with
  | O, _ => s
  | S m, String _ rest => slice m rest
  | S _, EmptyString => EmptyString
  end.

(** White space and line terminators of [String.prototype.trim] among the
    first 256 code points: TAB, LF, VT, FF, CR, SP and NBSP. *)
Definition is_js_space (a : Ascii.ascii) : bool :=
  let n := Ascii.nat_of_ascii a in
  (Nat.eqb n 9 || Nat.eqb n 10 || Nat.eqb n 11 || Nat.eqb n 12 ||
   Nat.eqb n 13 || Nat.eqb n 32 || Nat.eqb n 160)%bool.

Fixpoint trimStart (s : string) : string :=
  match s with
  | EmptyString => EmptyString
  | String a rest => if is_js_space a then trimStart rest else s
  end.

Fixpoint trimEnd (s : string) : string :=
  match s with
  | EmptyString => EmptyString
  | String a rest =>
      match trimEnd rest with
      | EmptyString => if is_js_space a then EmptyString else String a EmptyString
      | kept => String a kept
      end
  end.

Definition trim (s : string) : string := trimEnd (trimStart s).

(** [parts.join(sep)]. *)
Fixpoint join (sep : string) (l : list string) : string :=
  match l with
  | [] => ""
  | [x] => x
  | x :: rest => x +:+ sep +:+ join sep rest
  end.

(** ** config.ts *)

Inductive CodexSandboxMode := ReadOnly | WorkspaceWrite | DangerFullAccess.
Inductive CodexApprovalPolicy := Untrusted | OnFailure | OnRequest | Never.
Inductive CodexReasoningEffort := Minimal | Low | Medium | High.

Record CodexConfig := {
  model : string;
  maxTokens : Z;
  autoApprove : bool;
  sandboxMode : CodexSandboxMode;
  writableRoots : list string;
  networkAccess : bool;
  approvalPolicy : CodexApprovalPolicy;
  webSearchEnabled : bool;
  reasoningEffort : CodexReasoningEffort;
  workingDirectory : option string
}.

Definition DEFAULT_CODEX_CONFIG : CodexConfig := {|
  model := "gpt-5-codex";
  maxTokens := 4096;
  autoApprove := false;
  sandboxMode := WorkspaceWrite;
  writableRoots := [];
  networkAccess := true;
  approvalPolicy := OnFailure;
  webSearchEnabled := true;
  reasoningEffort := Medium;
  workingDirectory := Some ""
|}.

(** [Partial<CodexConfig>]: [None] is a key that is not there.  The one
    optional field of [CodexConfig] can also be there and undefined. *)
Record PartialCodexConfig := {
  p_model : option string;
  p_maxTokens : option Z;
  p_autoApprove : option bool;
  p_sandboxMode : option CodexSandboxMode;
  p_writableRoots : option (list string);
  p_networkAccess : option bool;
  p_approvalPolicy : option CodexApprovalPolicy;
  p_webSearchEnabled : option bool;
  p_reasoningEffort : option CodexReasoningEffort;
  p_workingDirectory : option (option string)
}.

(** The object [{}], what the default [getConfig] returns. *)
Definition empty_partial : PartialCodexConfig := {|
  p_model := None; p_maxTokens := None; p_autoApprove := None;
  p_sandboxMode := None; p_writableRoots := None; p_networkAccess := None;
  p_approvalPolicy := None; p_webSearchEnabled := None;
  p_reasoningEffort := None; p_workingDirectory := None
|}.

(** The spread [{ ...base, ...over }]. *)
Definition spread (base : CodexConfig) (over : PartialCodexConfig) : CodexConfig := {|
  model := default (model base) (p_model over);
  maxTokens := default (maxTokens base) (p_maxTokens over);
  autoApprove := default (autoApprove base) (p_autoApprove over);
  sandboxMode := default (sandboxMode base) (p_sandboxMode over);
  writableRoots := default (writableRoots base) (p_writableRoots over);
  networkAccess := default (networkAccess base) (p_networkAccess over);
  approvalPolicy := default (approvalPolicy base) (p_approvalPolicy over);
  webSearchEnabled := default (webSearchEnabled base) (p_webSearchEnabled over);
  reasoningEffort := default (reasoningEffort base) (p_reasoningEffort over);
  workingDirectory := default (workingDirectory base) (p_workingDirectory over)
|}.

(** ** Objects of the A2A protocol *)

Inductive Part :=
| TextPart (text : string)
| DataPart (data : JsValue)
| FilePart (file : JsValue).

Inductive Role := RoleUser | RoleAgent.

Record Message := {
  role : Role;
  messageId : string;
  m_taskId : option string;
  m_contextId : option string;
  parts : list Part
}.

Inductive TaskState :=
| Submitted | Working | InputRequired | Completed | Canceled | Failed
| Rejected | AuthRequired | UnknownState.

#[global] Instance TaskState_eq_dec : EqDecision TaskState.
Proof. solve_decision. Defined.

Record TaskStatus := {
  state : TaskState;
  message : option Message;
  timestamp : string
}.

Record Task := {
  t_id : string;
  t_contextId : string;
  t_status : TaskStatus;
  t_history : list Message
}.

(** [metadata] is either [undefined] or [{ codexAgent: { kind } }]; the
    field holds the kind. *)
Record TaskStatusUpdateEvent := {
  su_taskId : string;
  su_contextId : string;
  su_status : TaskStatus;
  su_final : bool;
  su_metadata : option string
}.

Record Artifact := {
  artifactId : string;
  a_parts : list Part
}.

Record TaskArtifactUpdateEvent := {
  au_taskId : string;
  au_contextId : string;
  au_artifact : Artifact;
  au_append : bool;
  au_lastChunk : bool
}.

(** What [eventBus.publish] accepts. *)
Inductive AgentExecutionEvent :=
| EvTask (t : Task)
| EvStatus (u : TaskStatusUpdateEvent)
| EvArtifact (a : TaskArtifactUpdateEvent).

Record RequestContext := {
  rc_taskId : string;
  rc_contextId : string;
  rc_userMessage : Message;
  rc_task : option Task
}.

(** ** Objects of the Codex SDK *)

Inductive ThreadItem :=
| AgentMessageItem (id text : string)
| ReasoningItem (id text : string)
| CommandExecutionItem (id command aggregated_output : string)
    (exit_code : option Z) (status : string)
| FileChangeItem (id : string) (changes : JsValue) (status : string)
| McpToolCallItem (id server tool : string) (arguments : JsValue)
    (result error : option JsValue) (status : string)
| WebSearchItem (id query : string)
| TodoListItem (id : string) (items : JsValue)
| ErrorItem (id message : string)
| OtherItem (id type : string).

Inductive ThreadEvent :=
| ThreadStarted (thread_id : string)
| TurnStarted
| TurnCompleted (usage : JsValue)
| TurnFailed (error_message : string)
| ItemStarted (item : ThreadItem)
| ItemUpdated (item : ThreadItem)
| ItemCompleted (item : ThreadItem)
| StreamError (error_message : string).

Record ThreadOptions := {
  skipGitRepoCheck : bool;
  o_webSearchEnabled : bool;
  networkAccessEnabled : bool;
  webSearchMode : string;
  o_workingDirectory : option string;
  o_sandboxMode : CodexSandboxMode;
  o_approvalPolicy : CodexApprovalPolicy
}.

(** A thread is known by the rank of the [startThread] call that made it. *)
Definition Thread := nat.

(** An event bus is known by a number. *)
Definition Bus := nat.

(** ** Effects, state and the monad of the executor *)

Inductive LogEntry :=
| LogThreadStarted (wd : string) (webSearch network : bool) (sandbox : CodexSandboxMode)
| LogEvent (event : ThreadEvent).

Inductive Effect :=
| Publish (bus : Bus) (event : AgentExecutionEvent)
| Finished (bus : Bus)
| StartThread (options : ThreadOptions) (made : Thread)
| RunStreamed (thread : Thread) (input : string)
| Log (entry : LogEntry).

(** The four private collections of [CodexExecutor], and the number of
    UUIDs drawn, of clock readings and of threads started so far. *)
Record State := {
  threads : gmap string Thread;
  threadWorkingDirs : gmap string string;
  canceledTasks : gset string;
  taskContexts : gmap string string;
  uuids : nat;
  dates : nat;
  started : nat
}.

Definition initial_state : State := {|
  threads := ∅; threadWorkingDirs := ∅; canceledTasks := ∅;
  taskContexts := ∅; uuids := 0; dates := 0; started := 0
|}.

Definition with_threads (f : gmap string Thread → gmap string Thread) (st : State) : State :=
  {| threads := f (threads st); threadWorkingDirs := threadWorkingDirs st;
     canceledTasks := canceledTasks st; taskContexts := taskContexts st;
     uuids := uuids st; dates := dates st; started := started st |}.

Definition with_threadWorkingDirs (f : gmap string string → gmap string string) (st : State) : State :=
  {| threads := threads st; threadWorkingDirs := f (threadWorkingDirs st);
     canceledTasks := canceledTasks st; taskContexts := taskContexts st;
     uuids := uuids st; dates := dates st; started := started st |}.

Definition with_canceledTasks (f : gset string → gset string) (st : State) : State :=
  {| threads := threads st; threadWorkingDirs := threadWorkingDirs st;
     canceledTasks := f (canceledTasks st); taskContexts := taskContexts st;
     uuids := uuids st; dates := dates st; started := started st |}.

Definition with_taskContexts (f : gmap string string → gmap string string) (st : State) : State :=
  {| threads := threads st; threadWorkingDirs := threadWorkingDirs st;
     canceledTasks := canceledTasks st; taskContexts := f (taskContexts st);
     uuids := uuids st; dates := dates st; started := started st |}.

(** One more UUID drawn, one more reading of the clock, one more thread. *)
Definition draw (st : State) : State :=
  {| threads := threads st; threadWorkingDirs := threadWorkingDirs st;
     canceledTasks := canceledTasks st; taskContexts := taskContexts st;
     uuids := S (uuids st); dates := dates st; started := started st |}.

Definition tick (st : State) : State :=
  {| threads := threads st; threadWorkingDirs := threadWorkingDirs st;
     canceledTasks := canceledTasks st; taskContexts := taskContexts st;
     uuids := uuids st; dates := S (dates st); started := started st |}.

Definition spawn (st : State) : State :=
  {| threads := threads st; threadWorkingDirs := threadWorkingDirs st;
     canceledTasks := canceledTasks st; taskContexts := taskContexts st;
     uuids := uuids st; dates := dates st; started := S (started st) |}.

(** What the executor is given from outside: the two callbacks of its
    options as they answer during one call, the current directory of the
    process, and the host functions. *)
Record Env := {
  getConfig : string → PartialCodexConfig;
  getWorkingDirectory : option (string → option string);
  process_cwd : string;
  randomUUID : nat → string;
  toISOString : nat → string;
  JSON_stringify : JsValue → option string;
  String_of : JsValue → string
}.

Definition M (A : Type) : Type := State → A * State * list Effect.

Definition ret {A} (a : A) : M A := λ st, (a, st, []).

Definition bind {A B} (m : M A) (k : A → M B) : M B :=
  λ st, let '(a, st1, out1) := m st in
        let '(b, st2, out2) := k a st1 in
        (b, st2, out1 ++ out2).

Notation "'let*' x ':=' m 'in' k" := (bind m (λ x, k))
  (at level 10, x name, m at level 100, k at level 200, only parsing).
Notation "m '>>' k" := (bind m (λ _, k))
  (at level 90, right associativity, only parsing).

Definition emit (e : Effect) : M unit := λ st, (tt, st, [e]).
Definition gets {A} (f : State → A) : M A := λ st, (f st, st, []).
Definition modify (f : State → State) : M unit := λ st, (tt, f st, []).

Definition effects_of {A} (r : A * State * list Effect) : list Effect := r.2.
Definition state_of {A} (r : A * State * list Effect) : State := r.1.2.
Definition value_of {A} (r : A * State * list Effect) : A := r.1.1.

(** ** codex-executor.ts *)

Definition LF : string := String "010"%char EmptyString.

(** [a || b] where [a] is [string | undefined]. *)
Definition or_else (a : option string) (b : string) : string :=
  match a with
  | Some s => if nonempty s then s else b
  | None => b
  end.

(** [a || b] where both are [string | undefined]. *)
Definition or_opt (a b : option string) : option string :=
  match a with
  | Some s => if nonempty s then Some s else b
  | None => b
  end.

Definition str_truthy (a : option string) : bool :=
  match a with
  | Some s => nonempty s
  | None => false
  end.

(** The state of the loop of [execute]: its two local maps. *)
Record Book := {
  sentTextLengths : gmap string nat;
  sentItemStates : gmap string string
}.

Definition empty_book : Book := {| sentTextLengths := ∅; sentItemStates := ∅ |}.

Definition set_length (key : string) (n : nat) (b : Book) : Book :=
  {| sentTextLengths := <[key := n]> (sentTextLengths b);
     sentItemStates := sentItemStates b |}.

Definition set_state (key value : string) (b : Book) : Book :=
  {| sentTextLengths := sentTextLengths b;
     sentItemStates := <[key := value]> (sentItemStates b) |}.

Section Executor.

Variable env : Env.

Definition newUUID : M string :=
  λ st, (randomUUID env (uuids st), draw st, []).

Definition newDate : M string :=
  λ st, (toISOString env (dates st), tick st, []).

(** [this.codex.startThread(options)]. *)
Definition startThread (options : ThreadOptions) : M Thread :=
  λ st, (started st, spawn st, [StartThread options (started st)]).

Definition resolveConfig (contextId : string) : CodexConfig :=
  spread DEFAULT_CODEX_CONFIG (getConfig env contextId).

Definition normalizeWorkingDirectory (workingDirectory : option string) : option string :=
  if negb (str_truthy workingDirectory) then None
  else
    let trimmed := trim (default "" workingDirectory) in
    if (0 <? String.length trimmed)%nat then Some trimmed else None.

Definition publishStatus (eventBus : Bus) (taskId contextId : string)
    (state : TaskState) (final : bool) (message : option Message)
    (codexAgentKind : option string) : M unit :=
  let* now := newDate in
  emit (Publish eventBus (EvStatus {|
    su_taskId := taskId;
    su_contextId := contextId;
    su_status := {| state := state; message := message; timestamp := now |};
    su_final := final;
    su_metadata := if str_truthy codexAgentKind then codexAgentKind else None
  |})).

Definition publishTextContent (eventBus : Bus) (taskId contextId text : string) : M unit :=
  let* uuid := newUUID in
  let message := {|
    role := RoleAgent; messageId := uuid;
    m_taskId := Some taskId; m_contextId := Some contextId;
    parts := [TextPart text] |} in
  publishStatus eventBus taskId contextId Working false (Some message) (Some "text-content").

Definition publishThought (eventBus : Bus) (taskId contextId text : string) : M unit :=
  let* uuid := newUUID in
  let message := {|
    role := RoleAgent; messageId := uuid;
    m_taskId := Some taskId; m_contextId := Some contextId;
    parts := [DataPart (JObj [("text", JStr text)])] |} in
  publishStatus eventBus taskId contextId Working false (Some message) (Some "thought").

Definition publishToolUpdate (eventBus : Bus) (taskId contextId : string)
    (data : JsValue) : M unit :=
  let* uuid := newUUID in
  let message := {|
    role := RoleAgent; messageId := uuid;
    m_taskId := Some taskId; m_contextId := Some contextId;
    parts := [DataPart data] |} in
  publishStatus eventBus taskId contextId Working false (Some message) (Some "tool-call-update").

Definition publishToolOutput (eventBus : Bus) (taskId contextId callId output : string)
    (append lastChunk : bool) : M unit :=
  emit (Publish eventBus (EvArtifact {|
    au_taskId := taskId;
    au_contextId := contextId;
    au_artifact := {| artifactId := "tool-" +:+ callId +:+ "-output";
                      a_parts := [TextPart output] |};
    au_append := append;
    au_lastChunk := lastChunk
  |})).

(** [JSON.stringify(value, null, 2)] is the host's; [None] is a throw. *)
Definition stringifyToolOutput (value : JsValue) : string :=
  match value with
  | JNull | JUndefined => ""
  | JStr s => s
  | _ => match JSON_stringify env value with
         | Some s => s
         | None => String_of env value
         end
  end.

Definition publishFailure (eventBus : Bus) (taskId contextId errorMessage : string) : M unit :=
  let* uuid := newUUID in
  let message := {|
    role := RoleAgent; messageId := uuid;
    m_taskId := Some taskId; m_contextId := Some contextId;
    parts := [TextPart ("Error: " +:+ errorMessage)] |} in
  publishStatus eventBus taskId contextId Failed true (Some message) (Some "state-change") >>
  emit (Finished eventBus).

Definition publishCanceled (eventBus : Bus) (taskId : string)
    (contextId : option string) : M unit :=
  let* uuid := newUUID in
  let* ctx := match contextId with
              | Some c => ret c
              | None => newUUID
              end in
  let message := {|
    role := RoleAgent; messageId := uuid;
    m_taskId := Some taskId; m_contextId := Some ctx;
    parts := [TextPart "Task canceled."] |} in
  publishStatus eventBus taskId ctx Canceled true (Some message) (Some "state-change") >>
  modify (with_canceledTasks (λ s, s ∖ {[taskId]})) >>
  modify (with_taskContexts (delete taskId)).

Definition cancelTask (taskId : string) (eventBus : Bus) : M unit :=
  modify (with_canceledTasks (λ s, {[taskId]} ∪ s)) >>
  let* contextId := gets (λ st, taskContexts st !! taskId) in
  publishCanceled eventBus taskId contextId >>
  emit (Finished eventBus).

End Executor.

(** What the loop of [execute] keeps from the lines before it. *)
Record LoopCtx := {
  c_eventBus : Bus;
  c_taskId : string;
  c_contextId : string;
  c_thread : Thread;
  c_text : string
}.

(** One turn of the [for await] loop: either the event was dispatched, or
    the cancellation check before it stopped the loop. *)
Inductive Iteration :=
| Dispatched (event : ThreadEvent) (out : list Effect)
| CanceledBefore (event : ThreadEvent) (out : list Effect).

Definition iteration_effects (i : Iteration) : list Effect :=
  match i with
  | Dispatched _ out => out
  | CanceledBefore _ out => out
  end.

Definition flatten (its : list Iteration) : list Effect :=
  concat (map iteration_effects its).

(** How the loop ended: the stream was exhausted, with the local maps as
    they are then, or a [return] left it. *)
Inductive Outcome := Exhausted (book : Book) | Returned.

Definition tool_request (callId name : string) : JsValue :=
  JObj [("callId", JStr callId); ("name", JStr name)].

Definition js_of_exit_code (exit_code : option Z) : JsValue :=
  match exit_code with
  | Some z => JNum z
  | None => JUndefined
  end.

Section Execute.

Variable env : Env.

(** The working directory of lines 71 to 76 of [execute]:
    [workingDirOverride || this.normalizeWorkingDirectory(config.workingDirectory)],
    then [workingDir || process.cwd()], then the key of the thread. *)
Definition workingDir (contextId : string) : option string :=
  let config := resolveConfig env contextId in
  let workingDirOverride :=
    match getWorkingDirectory env with
    | Some f => f contextId
    | None => None
    end in
  or_opt workingDirOverride (normalizeWorkingDirectory (workingDirectory config)).

Definition currentWorkingDir (contextId : string) : string :=
  or_else (workingDir contextId) (process_cwd env).

Definition existingThreadKey (contextId : string) : string :=
  contextId +:+ ":" +:+ currentWorkingDir contextId.

(** The options of lines 85 to 93, passed to [startThread]. *)
Definition threadOptions (contextId : string) : ThreadOptions :=
  let config := resolveConfig env contextId in
  {| skipGitRepoCheck := true;
     o_webSearchEnabled := webSearchEnabled config;
     networkAccessEnabled := networkAccess config;
     webSearchMode := "live";
     o_workingDirectory := or_opt (workingDir contextId) None;
     o_sandboxMode := sandboxMode config;
     o_approvalPolicy := match approvalPolicy config with
                         | Never => Never
                         | other => other
                         end |}.

(** The entry of lines 96 to 101, passed to [logger.log]. *)
Definition threadStartedEntry (contextId : string) : LogEntry :=
  let config := resolveConfig env contextId in
  LogThreadStarted (or_else (workingDir contextId) (process_cwd env))
    (webSearchEnabled config) (networkAccess config) (sandboxMode config).

(** The text of line 59: the text parts of the message joined by LF. *)
Definition text_of (userMessage : Message) : string :=
  join LF (omap (λ part, match part with
                         | TextPart t => Some t
                         | _ => None
                         end) (parts userMessage)).

(** Lines 37 to 104 of [execute]: everything up to and including the
    call of [runStreamed].  [None] is a [return]. *)
Definition execute_begin (requestContext : RequestContext) (eventBus : Bus)
    : M (option LoopCtx) :=
  let taskId := rc_taskId requestContext in
  let contextId := rc_contextId requestContext in
  let userMessage := rc_userMessage requestContext in
  let* timestamp := newDate env in
  modify (with_taskContexts <[taskId := contextId]>) >>
  (match rc_task requestContext with
   | None =>
       emit (Publish eventBus (EvTask {|
         t_id := taskId;
         t_contextId := contextId;
         t_status := {| state := Submitted; message := None; timestamp := timestamp |};
         t_history := [userMessage] |}))
   | Some _ => ret tt
   end) >>
  publishStatus env eventBus taskId contextId Working false None (Some "state-change") >>
  let* canceled := gets (λ st, bool_decide (taskId ∈ canceledTasks st)) in
  if canceled then
    publishCanceled env eventBus taskId (Some contextId) >> ret None
  else
    let text := text_of userMessage in
    if negb (nonempty text) then
      publishFailure env eventBus taskId contextId "No text content" >> ret None
    else
      let* thread := gets (λ st, threads st !! contextId) in
      let* cachedThreadKey := gets (λ st, threadWorkingDirs st !! contextId) in
      let* thread :=
        match thread with
        | Some th =>
            if negb (bool_decide (cachedThreadKey = Some (existingThreadKey contextId))) then
              modify (with_threads (delete contextId)) >> ret None
            else ret (Some th)
        | None => ret None
        end in
      let* thread :=
        match thread with
        | Some th => ret th
        | None =>
            let* th := startThread (threadOptions contextId) in
            modify (with_threads <[contextId := th]>) >>
            modify (with_threadWorkingDirs <[contextId := existingThreadKey contextId]>) >>
            emit (Log (threadStartedEntry contextId)) >>
            ret th
        end in
      emit (RunStreamed thread text) >>
      ret (Some {| c_eventBus := eventBus; c_taskId := taskId;
                   c_contextId := contextId; c_thread := thread; c_text := text |}).

(** The [switch (item.type)] of the loop body. *)
Definition dispatch_item (c : LoopCtx) (isCompleted : bool) (item : ThreadItem)
    (book : Book) : M Book :=
  let eventBus := c_eventBus c in
  let taskId := c_taskId c in
  let contextId := c_contextId c in
  match item with
  | AgentMessageItem id text | ReasoningItem id text =>
      if nonempty text then
        let prevLength := default 0 (sentTextLengths book !! id) in
        let deltaText := slice prevLength text in
        if (0 <? String.length deltaText)%nat then
          let book1 := set_length id (String.length text) book in
          (match item with
           | ReasoningItem _ _ => publishThought env eventBus taskId contextId deltaText
           | _ => publishTextContent env eventBus taskId contextId deltaText
           end) >> ret book1
        else ret book
      else ret book
  | CommandExecutionItem id command aggregated_output exit_code status =>
      let stateKey := id +:+ ":state" in
      let outputKey := id +:+ ":output" in
      let lastState := sentItemStates book !! stateKey in
      let* book1 :=
        if negb (str_truthy lastState) then
          let book1 := set_state stateKey "started" book in
          publishToolUpdate env eventBus taskId contextId (JObj [
            ("request", tool_request id "command_execution");
            ("status", JStr status);
            ("command", JStr command)]) >> ret book1
        else ret book in
      let* book2 :=
        if nonempty aggregated_output then
          let prevLength := default 0 (sentTextLengths book1 !! outputKey) in
          let deltaOutput := slice prevLength aggregated_output in
          if (0 <? String.length deltaOutput)%nat then
            let book2 := set_length outputKey (String.length aggregated_output) book1 in
            publishToolOutput eventBus taskId contextId id deltaOutput true isCompleted >>
            ret book2
          else ret book1
        else ret book1 in
      if isCompleted && negb (bool_decide (lastState = Some "completed")) then
        let book3 := set_state stateKey "completed" book2 in
        publishToolUpdate env eventBus taskId contextId (JObj [
          ("request", tool_request id "command_execution");
          ("status", JStr status);
          ("command", JStr command);
          ("exitCode", js_of_exit_code exit_code)]) >> ret book3
      else ret book2
  | FileChangeItem id changes status =>
      if isCompleted then
        publishToolOutput eventBus taskId contextId id
          (stringifyToolOutput env (JObj [("changes", changes)])) false true >>
        publishToolUpdate env eventBus taskId contextId (JObj [
          ("request", tool_request id "file_change");
          ("status", JStr status);
          ("changes", changes)]) >> ret book
      else ret book
  | McpToolCallItem id server tool arguments result error status =>
      let stateKey := id +:+ ":state" in
      let lastState := sentItemStates book !! stateKey in
      let* book1 :=
        if negb (str_truthy lastState) then
          let book1 := set_state stateKey "started" book in
          publishToolUpdate env eventBus taskId contextId (JObj [
            ("request", tool_request id "mcp_tool_call");
            ("status", JStr status);
            ("server", JStr server);
            ("tool", JStr tool);
            ("arguments", arguments)]) >> ret book1
        else ret book in
      if isCompleted && negb (bool_decide (lastState = Some "completed")) then
        let book2 := set_state stateKey "completed" book1 in
        if truthy_opt error then
          publishToolUpdate env eventBus taskId contextId (JObj [
            ("request", tool_request id "mcp_tool_call");
            ("status", JStr "failed");
            ("error", js_of_opt error)]) >> ret book2
        else if truthy_opt result then
          publishToolOutput eventBus taskId contextId id
            (stringifyToolOutput env (js_of_opt result)) false true >>
          publishToolUpdate env eventBus taskId contextId (JObj [
            ("request", tool_request id "mcp_tool_call");
            ("status", JStr "completed");
            ("result", js_of_opt result);
            ("output", js_of_opt result)]) >> ret book2
        else ret book2
      else ret book1
  | WebSearchItem id query =>
      publishToolUpdate env eventBus taskId contextId (JObj [
        ("request", tool_request id "web_search");
        ("status", JStr "completed");
        ("query", JStr query)]) >> ret book
  | TodoListItem id items =>
      publishToolOutput eventBus taskId contextId id
        (stringifyToolOutput env (JObj [("items", items)])) false true >>
      publishToolUpdate env eventBus taskId contextId (JObj [
        ("request", tool_request id "todo_list");
        ("status", JStr "updated");
        ("items", items)]) >> ret book
  | ErrorItem id message =>
      publishTextContent env eventBus taskId contextId ("Error: " +:+ message) >> ret book
  | OtherItem _ _ => ret book
  end.

(** The loop body after the cancellation check.  [None] is a [return],
    [Some book] goes on to the next event. *)
Definition dispatch (c : LoopCtx) (event : ThreadEvent) (book : Book) : M (option Book) :=
  let eventBus := c_eventBus c in
  let taskId := c_taskId c in
  let contextId := c_contextId c in
  emit (Log (LogEvent event)) >>
  match event with
  | TurnStarted =>
      publishStatus env eventBus taskId contextId Working false None (Some "turn-started") >>
      ret (Some book)
  | TurnCompleted usage =>
      publishToolOutput eventBus taskId contextId "turn-usage"
        (stringifyToolOutput env (JObj [("usage", usage)])) false true >>
      publishStatus env eventBus taskId contextId Working false None (Some "turn-completed") >>
      ret (Some book)
  | TurnFailed error_message =>
      publishFailure env eventBus taskId contextId error_message >> ret None
  | ItemStarted item | ItemUpdated item =>
      let* book1 := dispatch_item c false item book in ret (Some book1)
  | ItemCompleted item =>
      let* book1 := dispatch_item c true item book in ret (Some book1)
  | ThreadStarted _ | StreamError _ => ret (Some book)
  end.

(** [for await (const event of events) { ... }]. *)
Fixpoint for_await (c : LoopCtx) (events : list ThreadEvent) (book : Book)
    (st : State) : Outcome * State * list Iteration :=
  match events with
  | [] => (Exhausted book, st, [])
  | event :: rest =>
      if bool_decide (c_taskId c ∈ canceledTasks st) then
        let '(_, st1, out) :=
          publishCanceled env (c_eventBus c) (c_taskId c) (Some (c_contextId c)) st in
        (Returned, st1, [CanceledBefore event out])
      else
        let '(next, st1, out) := dispatch c event book st in
        match next with
        | None => (Returned, st1, [Dispatched event out])
        | Some book1 =>
            let '(outcome, st2, its) := for_await c rest book1 st1 in
            (outcome, st2, Dispatched event out :: its)
        end
  end.

(** Lines 308 and 309 of [execute]. *)
Definition execute_end (c : LoopCtx) : M unit :=
  publishStatus env (c_eventBus c) (c_taskId c) (c_contextId c)
    Completed true None (Some "state-change") >>
  emit (Finished (c_eventBus c)).

(** The turns of the loop in a call of [execute] that runs without
    interruption on the stream [events]; none when [execute] returns
    before the loop. *)
Definition execute_iterations (requestContext : RequestContext) (eventBus : Bus)
    (events : list ThreadEvent) (st : State) : list Iteration :=
  let '(c, st1, _) := execute_begin requestContext eventBus st in
  match c with
  | None => []
  | Some c => (for_await c events empty_book st1).2
  end.

(** [execute], run without interruption; [events] is the stream that
    [runStreamed] hands out. *)
Definition execute (requestContext : RequestContext) (eventBus : Bus)
    (events : list ThreadEvent) : M unit :=
  λ st,
    let '(c, st1, out1) := execute_begin requestContext eventBus st in
    match c with
    | None => (tt, st1, out1)
    | Some c =>
        let '(outcome, st2, its) := for_await c events empty_book st1 in
        match outcome with
        | Returned => (tt, st2, out1 ++ flatten its)
        | Exhausted _ =>
            let '(_, st3, out3) := execute_end c st2 in
            (tt, st3, out1 ++ flatten its ++ out3)
        end
    end.

(** [execute] with a call of [cancelTask] for its task coming in while it
    is suspended in the loop, after it has dispatched [n] events and
    before it looks at the next one (or at the end of the stream). *)
Definition execute_interrupted (n : nat) (requestContext : RequestContext)
    (eventBus cancelBus : Bus) (events : list ThreadEvent) : M unit :=
  λ st,
    let '(c, st1, out1) := execute_begin requestContext eventBus st in
    match c with
    | None => (tt, st1, out1)
    | Some c =>
        let '(outcome, st2, its) := for_await c (take n events) empty_book st1 in
        match outcome with
        | Returned => (tt, st2, out1 ++ flatten its)
        | Exhausted book =>
            let '(_, st3, out3) := cancelTask env (rc_taskId requestContext) cancelBus st2 in
            let '(outcome', st4, its') := for_await c (drop n events) book st3 in
            match outcome' with
            | Returned => (tt, st4, out1 ++ flatten its ++ out3 ++ flatten its')
            | Exhausted _ =>
                let '(_, st5, out5) := execute_end c st4 in
                (tt, st5, out1 ++ flatten its ++ out3 ++ flatten its' ++ out5)
            end
        end
    end.

End Execute.

(** ** Reading the effects of a call *)

(** The events published on a bus, in order. *)
Definition published (b : Bus) (out : list Effect) : list AgentExecutionEvent :=
  omap (λ e, match e with
             | Publish b' ev => if Nat.eqb b' b then Some ev else None
             | _ => None
             end) out.

(** Whether [finished()] was called on a bus. *)
Definition finished_on (b : Bus) (out : list Effect) : bool :=
  existsb (λ e, match e with
                | Finished b' => Nat.eqb b' b
                | _ => false
                end) out.

(** The number of calls of [codex.startThread]. *)
Definition is_start_thread (e : Effect) : bool :=
  match e with
  | StartThread _ _ => true
  | _ => false
  end.

Definition factory_calls (out : list Effect) : nat :=
  length (List.filter is_start_thread out).

(** The calls made on a bus, [publish] and [finished], in order. *)
Inductive BusCall :=
| Pub (event : AgentExecutionEvent)
| Fin.

Definition bus_calls (b : Bus) (out : list Effect) : list BusCall :=
  omap (λ e, match e with
             | Publish b' ev => if Nat.eqb b' b then Some (Pub ev) else None
             | Finished b' => if Nat.eqb b' b then Some Fin else None
             | _ => None
             end) out.

(** The message an agent publishes with one part. *)
Definition agent_message (uuid taskId contextId : string) (part : Part) : Message :=
  {| role := RoleAgent; messageId := uuid; m_taskId := Some taskId;
     m_contextId := Some contextId; parts := [part] |}.

Definition status_update (taskId contextId : string) (s : TaskState) (final : bool)
    (msg : option Message) (kind now : string) : AgentExecutionEvent :=
  EvStatus {| su_taskId := taskId; su_contextId := contextId;
              su_status := {| state := s; message := msg; timestamp := now |};
              su_final := final; su_metadata := Some kind |}.

(** The terminal updates. *)
Definition canceled_update (taskId contextId uuid now : string) : AgentExecutionEvent :=
  status_update taskId contextId Canceled true
    (Some (agent_message uuid taskId contextId (TextPart "Task canceled.")))
    "state-change" now.

Definition failed_update (taskId contextId uuid text now : string) : AgentExecutionEvent :=
  status_update taskId contextId Failed true
    (Some (agent_message uuid taskId contextId (TextPart text)))
    "state-change" now.

Definition completed_update (taskId contextId now : string) : AgentExecutionEvent :=
  status_update taskId contextId Completed true None "state-change" now.

Definition working_update (taskId contextId kind now : string) : AgentExecutionEvent :=
  status_update taskId contextId Working false None kind now.

(** The task [execute] publishes first when the request has none. *)
Definition initial_task (rc : RequestContext) (now : string) : AgentExecutionEvent :=
  EvTask {| t_id := rc_taskId rc; t_contextId := rc_contextId rc;
            t_status := {| state := Submitted; message := None; timestamp := now |};
            t_history := [rc_userMessage rc] |}.

(** What [execute] publishes before it looks at cancellation or input. *)
Definition opening (rc : RequestContext) (b : Bus) (env : Env) (st : State) : list Effect :=
  match rc_task rc with
  | None => [Publish b (initial_task rc (toISOString env (dates st)))]
  | Some _ => []
  end ++
  [Publish b (working_update (rc_taskId rc) (rc_contextId rc) "state-change"
                (toISOString env (S (dates st))))].

(** Whether an effect is a terminal status update of a given state. *)
Definition is_terminal (s : TaskState) (e : Effect) : bool :=
  match e with
  | Publish _ (EvStatus u) =>
      su_final u && bool_decide (state (su_status u) = s)
  | _ => false
  end.

(** The text of the message of a status update with one text part. *)
Definition message_text (e : Effect) : option string :=
  match e with
  | Publish _ (EvStatus u) =>
      match message (su_status u) with
      | Some m => match parts m with
                  | [TextPart t] => Some t
                  | _ => None
                  end
      | None => None
      end
  | _ => None
  end.

(** The threads run, with their input, in order. *)
Definition ran (out : list Effect) : list (Thread * string) :=
  omap (λ e, match e with
             | RunStreamed th input => Some (th, input)
             | _ => None
             end) out.

(** The calls of [codex.startThread], in order. *)
Definition factory_log (out : list Effect) : list Effect :=
  List.filter is_start_thread out.

(** A step that leaves the thread registry alone and marks no task. *)
Definition steady (st st' : State) : Prop :=
  threads st' = threads st ∧ threadWorkingDirs st' = threadWorkingDirs st ∧
  started st' = started st ∧ canceledTasks st' ⊆ canceledTasks st.

(** A computation that is steady, starts no thread and runs none. *)
Definition tame {A} (m : M A) : Prop :=
  ∀ st, steady st (state_of (m st)) ∧
        factory_calls (effects_of (m st)) = 0 ∧ ran (effects_of (m st)) = [].

(** The context of the loop for a request run on thread [th]. *)
Definition loop_ctx (rc : RequestContext) (b : Bus) (th : Thread) : LoopCtx :=
  {| c_eventBus := b; c_taskId := rc_taskId rc; c_contextId := rc_contextId rc;
     c_thread := th; c_text := text_of (rc_userMessage rc) |}.

(** The state after lines 37 to 52 of [execute]: the context id of the
    task is recorded and the clock was read twice. *)
Definition entered (rc : RequestContext) (st : State) : State :=
  {| threads := threads st; threadWorkingDirs := threadWorkingDirs st;
     canceledTasks := canceledTasks st;
     taskContexts := <[rc_taskId rc := rc_contextId rc]> (taskContexts st);
     uuids := uuids st; dates := S (S (dates st)); started := started st |}.

(** The registry holds thread [th] for context [c] under the key that [c]
    has now: the condition under which line 79 keeps the cached thread. *)
Definition cache_hit (env : Env) (c : string) (st : State) (th : Thread) : Prop :=
  threads st !! c = Some th ∧ threadWorkingDirs st !! c = Some (existingThreadKey env c).

Definition first_char (s : string) : option Ascii.ascii :=
  match s with
  | String a _ => Some a
  | EmptyString => None
  end.

Fixpoint last_char (s : string) : option Ascii.ascii :=
  match s with
  | EmptyString => None
  | String a EmptyString => Some a
  | String _ rest => last_char rest
  end.

Fixpoint all_space (s : string) : bool :=
  match s with
  | EmptyString => true
  | String a rest => is_js_space a && all_space rest
  end.

(** *** Reading the turns of the loop *)

Definition first_is_dispatched (its : list Iteration) : bool :=
  match its with
  | Dispatched _ _ :: _ => true
  | _ => false
  end.

(** The item of an item event, with whether the event is [item.completed]. *)
Definition event_item (e : ThreadEvent) : option (bool * ThreadItem) :=
  match e with
  | ItemStarted item | ItemUpdated item => Some (false, item)
  | ItemCompleted item => Some (true, item)
  | _ => None
  end.

(** For an event on an agent message or a reasoning item: the id of the
    item, whether it is reasoning, and its text. *)
Definition text_item (e : ThreadEvent) : option (string * bool * string) :=
  match event_item e with
  | Some (_, AgentMessageItem id text) => Some (id, false, text)
  | Some (_, ReasoningItem id text) => Some (id, true, text)
  | _ => None
  end.

(** The text observed for item id [i] in a turn of the loop: that of the
    event, when it was dispatched and is on that item. *)
Definition observed_text (i : string) (it : Iteration) : option string :=
  match it with
  | Dispatched e _ =>
      match text_item e with
      | Some (id, _, text) => if String.eqb id i then Some text else None
      | None => None
      end
  | CanceledBefore _ _ => None
  end.

(** The texts observed for item id [i], in order. *)
Definition observed_texts (i : string) (its : list Iteration) : list string :=
  omap (observed_text i) its.

(** The delta that an effect carries when it is the publication of a
    non-final Working status update, tagged "thought" with one data part
    [{ text }] for a reasoning item, tagged "text-content" with one text
    part otherwise. *)
Definition delta_of (reasoning : bool) (e : Effect) : option string :=
  match e with
  | Publish _ (EvStatus u) =>
      match su_final u, state (su_status u), su_metadata u, message (su_status u) with
      | false, Working, Some kind, Some m =>
          match parts m with
          | [TextPart t] =>
              if negb reasoning && String.eqb kind "text-content" then Some t else None
          | [DataPart d] =>
              if reasoning && String.eqb kind "thought" then
                match js_field "text" d with
                | Some (JStr t) => Some t
                | _ => None
                end
              else None
          | _ => None
          end
      | _, _, _, _ => None
      end
  | _ => None
  end.

Definition is_publish (e : Effect) : bool :=
  match e with
  | Publish _ _ => true
  | _ => false
  end.

(** The deltas published for item id [i] in a turn of the loop: those
    published while an event on that item was dispatched. *)
Definition deltas_in (i : string) (it : Iteration) : list string :=
  match it with
  | Dispatched e out =>
      match text_item e with
      | Some (id, reasoning, _) =>
          if String.eqb id i then omap (delta_of reasoning) out else []
      | None => []
      end
  | CanceledBefore _ _ => []
  end.

(** The deltas published for item id [i], in order of publication. *)
Definition published_deltas (i : string) (its : list Iteration) : list string :=
  flat_map (deltas_in i) its.

(** Every publication made while an event on item id [i] was dispatched
    is a delta in the form of [delta_of]. *)
Definition only_deltas_in (i : string) (it : Iteration) : Prop :=
  match it with
  | Dispatched e out =>
      match text_item e with
      | Some (id, reasoning, _) =>
          id = i →
          length (omap (delta_of reasoning) out) = length (List.filter is_publish out)
      | None => True
      end
  | CanceledBefore _ _ => True
  end.

Definition only_deltas (i : string) (its : list Iteration) : Prop :=
  Forall (only_deltas_in i) its.

(** Each text extends the one before it, the first one extends [prev]. *)
Fixpoint grows (prev : string) (texts : list string) : Prop :=
  match texts with
  | [] => True
  | t :: rest => (∃ suffix, t = prev +:+ suffix) ∧ grows t rest
  end.

(** No command execution item of the stream has the key [i] for its
    output in the map of sent lengths. *)
Definition output_key_free (i : string) (events : list ThreadEvent) : Prop :=
  ∀ e completed id command output code status,
    e ∈ events →
    event_item e = Some (completed, CommandExecutionItem id command output code status) →
    id +:+ ":output" ≠ i.

(** For a command execution or an mcp tool call: the id of the item and
    whether the item has something to report on completion (a command
    always has, an mcp tool call when it has an error or a result). *)
Definition tool_item (item : ThreadItem) : option (string * bool) :=
  match item with
  | CommandExecutionItem id _ _ _ _ => Some (id, true)
  | McpToolCallItem id _ _ _ result error _ =>
      Some (id, truthy_opt error || truthy_opt result)
  | _ => None
  end.

(** For an event on such an item: the id, whether the event is
    [item.completed], and whether the item has something to report. *)
Definition tool_event (e : ThreadEvent) : option (string * bool * bool) :=
  match event_item e with
  | Some (completed, item) =>
      match tool_item item with
      | Some (id, reports) => Some (id, completed, reports)
      | None => None
      end
  | None => None
  end.

(** The event on tool item [i] in a turn of the loop, when it was
    dispatched: whether it is [item.completed], and whether the item has
    something to report. *)
Definition tool_event_in (i : string) (it : Iteration) : option (bool * bool) :=
  match it with
  | Dispatched e _ =>
      match tool_event e with
      | Some (id, completed, reports) =>
          if String.eqb id i then Some (completed, reports) else None
      | None => None
      end
  | CanceledBefore _ _ => None
  end.

(** The events on tool item [i] that were dispatched, in order. *)
Definition tool_events (i : string) (its : list Iteration) : list (bool * bool) :=
  omap (tool_event_in i) its.

(** The first [item.completed] among them. *)
Definition first_completed (l : list (bool * bool)) : option (bool * bool) :=
  List.find fst l.

(** The data of a published tool update: a Working status update tagged
    "tool-call-update" whose message has one data part. *)
Definition tool_update_data (e : Effect) : option JsValue :=
  match e with
  | Publish _ (EvStatus u) =>
      match su_metadata u, message (su_status u) with
      | Some kind, Some m =>
          match parts m with
          | [DataPart d] => if String.eqb kind "tool-call-update" then Some d else None
          | _ => None
          end
      | _, _ => None
      end
  | _ => None
  end.

(** Whether the data is about call [i] of a tool of the given name. *)
Definition about (i name : string) (d : JsValue) : bool :=
  match js_field "request" d with
  | Some r =>
      match js_field "callId" r, js_field "name" r with
      | Some (JStr callId), Some (JStr n) => String.eqb callId i && String.eqb n name
      | _, _ => false
      end
  | None => false
  end.

(** A "started" tool update for item id [i]: the one with the command,
    and no exit code, of a command execution; the one with server, tool
    and arguments of an mcp tool call. *)
Definition is_started_update (i : string) (e : Effect) : bool :=
  match tool_update_data e with
  | Some d =>
      (about i "command_execution" d && js_has "command" d && negb (js_has "exitCode" d))
      || (about i "mcp_tool_call" d && js_has "server" d)
  | None => false
  end.

(** A terminal tool update for item id [i]: the one with the exit code of
    a command execution; the one with the error, or with the result, of
    an mcp tool call. *)
Definition is_terminal_update (i : string) (e : Effect) : bool :=
  match tool_update_data e with
  | Some d =>
      (about i "command_execution" d && js_has "exitCode" d)
      || (about i "mcp_tool_call" d && (js_has "error" d || js_has "result" d))
  | None => false
  end.

Definition count (f : Effect → bool) (out : list Effect) : nat :=
  length (List.filter f out).

(** The keys that dispatching an item can write in the two maps. *)
Definition length_key (item : ThreadItem) : option string :=
  match item with
  | AgentMessageItem id _ | ReasoningItem id _ => Some id
  | CommandExecutionItem id _ _ _ _ => Some (id +:+ ":output")
  | _ => None
  end.

Definition state_key (item : ThreadItem) : option string :=
  match item with
  | CommandExecutionItem id _ _ _ _ | McpToolCallItem id _ _ _ _ _ _ =>
      Some (id +:+ ":state")
  | _ => None
  end.

(** The value of a computation has property [P], whatever the state. *)
Definition yields {A} (P : A → Prop) (m : M A) : Prop := ∀ st, P (value_of (m st)).

(** The values that the loop stores in its map of item states. *)
Definition valid_state (s : option string) : Prop :=
  s = None ∨ s = Some "started" ∨ s = Some "completed".

(** The item state after an event on the item was dispatched. *)
Definition next_state (completed : bool) (s : option string) : option string :=
  if completed then Some "completed"
  else match s with
       | None => Some "started"
       | Some _ => s
       end.

Definition is_completed_state (s : option string) : bool :=
  bool_decide (s = Some "completed").

(** The number of started updates, and of terminal updates, that the
    loop is to publish for a tool item whose state in the map is [s] and
    on which the events [seen] are dispatched. *)
Definition started_expected (s : option string) (seen : list (bool * bool)) : nat :=
  if str_truthy s then 0 else match seen with [] => 0 | _ :: _ => 1 end.

Definition terminal_expected (s : option string) (seen : list (bool * bool)) : nat :=
  if is_completed_state s then 0
  else match first_completed seen with
       | Some (_, true) => 1
       | _ => 0
       end.

(** [cancelTask] called again in the state that a first call left. *)
Definition second_cancel (env : Env) (taskId : string) (b1 b2 : Bus) : M unit :=
  λ st, cancelTask env taskId b2 (state_of (cancelTask env taskId b1 st)).

(** ** Further observations *)

(** Only the counters of draws and of clock readings may differ. *)
Definition counters_only (st st' : State) : Prop :=
  threads st' = threads st ∧ threadWorkingDirs st' = threadWorkingDirs st ∧
  canceledTasks st' = canceledTasks st ∧ taskContexts st' = taskContexts st ∧
  started st' = started st ∧ (uuids st ≤ uuids st')%nat ∧ (dates st ≤ dates st')%nat.

(** The step of a computation is in [R] and all its effects have [P]. *)
Definition obeys (R : State → State → Prop) (P : Effect → Prop) {A} (m : M A) : Prop :=
  ∀ st, R st (state_of (m st)) ∧ Forall P (effects_of (m st)).

(** A message of the agent for task [t] in context [c]. *)
Definition message_for (t c : string) (m : option Message) : Prop :=
  match m with
  | Some m => role m = RoleAgent ∧ m_taskId m = Some t ∧ m_contextId m = Some c
  | None => True
  end.

(** What [execute] may do before its terminal update: publish, on its
    bus and with its ids, a non-final Working status update or an artifact
    update; and log. *)
Definition in_loop (b : Bus) (t c : string) (e : Effect) : Prop :=
  match e with
  | Publish b' (EvStatus u) =>
      b' = b ∧ su_taskId u = t ∧ su_contextId u = c ∧ su_final u = false ∧
      state (su_status u) = Working ∧ message_for t c (message (su_status u))
  | Publish b' (EvArtifact a) => b' = b ∧ au_taskId a = t ∧ au_contextId a = c
  | Log _ => True
  | _ => False
  end.

(** Whether the event is [turn.failed]. *)
Definition is_turn_failed (e : ThreadEvent) : bool :=
  match e with
  | TurnFailed _ => true
  | _ => false
  end.

(** The message of the first [turn.failed] of a stream. *)
Fixpoint first_failure (events : list ThreadEvent) : option string :=
  match events with
  | [] => None
  | TurnFailed m :: _ => Some m
  | _ :: rest => first_failure rest
  end.

(** What [execute] may do before its terminal update: publish the new
    task, Submitted, with its ids; what it may do in the loop; start a
    thread and run one.  It may not call [finished]. *)
Definition before_terminal (b : Bus) (t c : string) (e : Effect) : Prop :=
  match e with
  | Publish b' (EvTask k) =>
      b' = b ∧ t_id k = t ∧ t_contextId k = c ∧ state (t_status k) = Submitted
  | Publish _ _ => in_loop b t c e
  | Finished _ => False
  | StartThread _ _ | RunStreamed _ _ | Log _ => True
  end.

(** A final status update for task [t] in context [c]; its message,
    when it has one, is the agent's and for them too. *)
Definition terminal_of (t c : string) (u : TaskStatusUpdateEvent) : Prop :=
  su_final u = true ∧ su_taskId u = t ∧ su_contextId u = c ∧
  message_for t c (message (su_status u)).

(** Only the registry entry of context [c] and the records of task [t]
    may differ between the two states. *)
Definition touches_only (c t : string) (st st' : State) : Prop :=
  (∀ c', c' ≠ c →
     threads st' !! c' = threads st !! c' ∧
     threadWorkingDirs st' !! c' = threadWorkingDirs st !! c') ∧
  (∀ t', t' ≠ t →
     taskContexts st' !! t' = taskContexts st !! t' ∧
     (t' ∈ canceledTasks st' ↔ t' ∈ canceledTasks st)).

(** One block of code that runs without being suspended: the lines of
    [execute] up to the call of [runStreamed]; one turn of its loop; its
    lines after the loop; [cancelTask]. *)
Inductive step : State → State → Prop :=
| step_begin env rc b st : step st (state_of (execute_begin env rc b st))
| step_turn env c e book st : step st (for_await env c [e] book st).1.2
| step_end env c st : step st (state_of (execute_end env c st))
| step_cancel env t b st : step st (state_of (cancelTask env t b st)).

(** The states of an executor: those that such blocks, of whatever
    executions and cancellations and in whatever order, lead to from the
    state of a new executor. *)
Definition reachable (st : State) : Prop := rtc step initial_state st.

(** The aggregated output of an event on the command execution [i]. *)
Definition command_output (i : string) (e : ThreadEvent) : option string :=
  match event_item e with
  | Some (_, CommandExecutionItem id _ output _ _) =>
      if String.eqb id i then Some output else None
  | _ => None
  end.

(** The aggregated output observed for command [i] in a turn of the
    loop. *)
Definition observed_output (i : string) (it : Iteration) : option string :=
  match it with
  | Dispatched e _ => command_output i e
  | CanceledBefore _ _ => None
  end.

(** The aggregated outputs observed for command [i], in order. *)
Definition observed_outputs (i : string) (its : list Iteration) : list string :=
  omap (observed_output i) its.

(** The text of an effect that is the publication of a chunk appended to
    the artifact [tool-i-output]. *)
Definition chunk_of (i : string) (e : Effect) : option string :=
  match e with
  | Publish _ (EvArtifact a) =>
      if au_append a && String.eqb (artifactId (au_artifact a)) ("tool-" +:+ i +:+ "-output")
      then match a_parts (au_artifact a) with
           | [TextPart t] => Some t
           | _ => None
           end
      else None
  | _ => None
  end.

(** The chunks appended to the artifact [tool-i-output], in order. *)
Definition output_chunks (i : string) (out : list Effect) : list string :=
  omap (chunk_of i) out.

(** No agent message or reasoning item of the stream has the id
    [i:output], the key under which the loop keeps the length sent for
    command [i]. *)
Definition text_key_free (i : string) (events : list ThreadEvent) : Prop :=
  ∀ e id reasoning text,
    e ∈ events → text_item e = Some (id, reasoning, text) → id ≠ i +:+ ":output".

(** No condition on a step. *)
Definition any_step (st st' : State) : Prop := True.

(** For an event on which the loop reports a web search, a todo list or
    a file change: the id of the item and the name of its kind.  A web
    search and a todo list are reported on every event, a file change on
    [item.completed]. *)
Definition plain_event (e : ThreadEvent) : option (string * string) :=
  match event_item e with
  | Some (_, WebSearchItem id _) => Some (id, "web_search")
  | Some (_, TodoListItem id _) => Some (id, "todo_list")
  | Some (true, FileChangeItem id _ _) => Some (id, "file_change")
  | _ => None
  end.

(** Whether a turn of the loop dispatched such an event for item [i] of
    kind [name]. *)
Definition reported (i name : string) (it : Iteration) : bool :=
  match it with
  | Dispatched e _ =>
      match plain_event e with
      | Some (id, n) => String.eqb id i && String.eqb n name
      | None => false
      end
  | CanceledBefore _ _ => false
  end.

(** A tool update about call [i] of a tool of kind [name]. *)
Definition is_update_about (i name : string) (e : Effect) : bool :=
  match tool_update_data e with
  | Some d => about i name d
  | None => false
  end.

(** The kinds of items that the loop reports without keeping a state. *)
Definition plain_kind (name : string) : Prop :=
  name = "web_search" ∨ name = "todo_list" ∨ name = "file_change".

(** What the executor does between two executions on context [c]: an
    execution on another context, or a cancellation of any task. *)
Inductive elsewhere (c : string) : State → State → Prop :=
| elsewhere_execute env rc b events st :
    rc_contextId rc ≠ c → elsewhere c st (state_of (execute env rc b events st))
| elsewhere_cancel env t b st :
    elsewhere c st (state_of (cancelTask env t b st)).

(** The kinds of the items that get tool updates. *)
Definition tool_kind (name : string) : Prop :=
  name = "command_execution" ∨ name = "file_change" ∨ name = "mcp_tool_call" ∨
  name = "web_search" ∨ name = "todo_list".

(** The forms of what the executor publishes for task [t] in context
    [c]: the new task; a Working update without message, tagged
    "state-change", "turn-started" or "turn-completed"; a Working update
    with a text, tagged "text-content"; one with a thought, tagged
    "thought"; one with the data of a tool call, tagged
    "tool-call-update", the data starting with the request and the
    status; a chunk of the artifact of a call, appended or the last one;
    and the three final updates. *)
Inductive published_form (t c : string) : AgentExecutionEvent → Prop :=
| form_task now history :
    published_form t c (EvTask {|
      t_id := t; t_contextId := c;
      t_status := {| state := Submitted; message := None; timestamp := now |};
      t_history := history |})
| form_working kind now :
    kind = "state-change" ∨ kind = "turn-started" ∨ kind = "turn-completed" →
    published_form t c (working_update t c kind now)
| form_text uuid text now :
    published_form t c
      (status_update t c Working false (Some (agent_message uuid t c (TextPart text)))
         "text-content" now)
| form_thought uuid text now :
    published_form t c
      (status_update t c Working false
         (Some (agent_message uuid t c (DataPart (JObj [("text", JStr text)]))))
         "thought" now)
| form_tool uuid callId name status rest now :
    tool_kind name →
    published_form t c
      (status_update t c Working false
         (Some (agent_message uuid t c
                  (DataPart (JObj (("request", tool_request callId name) ::
                                   ("status", JStr status) :: rest)))))
         "tool-call-update" now)
| form_artifact callId text append lastChunk :
    append = true ∨ lastChunk = true →
    published_form t c (EvArtifact {|
      au_taskId := t; au_contextId := c;
      au_artifact := {| artifactId := "tool-" +:+ callId +:+ "-output";
                        a_parts := [TextPart text] |};
      au_append := append; au_lastChunk := lastChunk |})
| form_completed now :
    published_form t c (completed_update t c now)
| form_failed uuid text now :
    published_form t c (failed_update t c uuid ("Error: " +:+ text) now)
| form_canceled uuid now :
    published_form t c (canceled_update t c uuid now).

(** A publication is on bus [b] and in one of the forms; [finished] is
    called on bus [b]. *)
Definition in_form (b : Bus) (t c : string) (e : Effect) : Prop :=
  match e with
  | Publish b' ev => b' = b ∧ published_form t c ev
  | Finished b' => b' = b
  | _ => True
  end.

(** ** Streams that throw *)

(** How the stream that [runStreamed] hands out ends after its events:
    it is exhausted; or asking it for the next event throws, as the
    generator of the SDK does when the Codex process fails. *)
Inductive StreamEnd := StreamEnds | StreamThrows.

(** How the promise of [execute] is settled. *)
Inductive Promise := Resolves | Rejects.

(** [execute], run without interruption on a stream that hands out
    [events] and then ends as [ending] says.  Nothing catches what the
    stream throws: [execute] is left where it awaits the next event, and
    its promise is rejected. *)
Definition execute_stream (env : Env) (requestContext : RequestContext) (eventBus : Bus)
    (events : list ThreadEvent) (ending : StreamEnd) : M Promise :=
  λ st,
    let '(c, st1, out1) := execute_begin env requestContext eventBus st in
    match c with
    | None => (Resolves, st1, out1)
    | Some c =>
        let '(outcome, st2, its) := for_await env c events empty_book st1 in
        match outcome, ending with
        | Returned, _ => (Resolves, st2, out1 ++ flatten its)
        | Exhausted _, StreamEnds =>
            let '(_, st3, out3) := execute_end env c st2 in
            (Resolves, st3, out1 ++ flatten its ++ out3)
        | Exhausted _, StreamThrows => (Rejects, st2, out1 ++ flatten its)
        end
    end.

(** The same with a call of [cancelTask] for the task coming in while
    [execute] is suspended in the loop, after it has dispatched [n]
    events. *)
Definition execute_interrupted_stream (env : Env) (n : nat) (requestContext : RequestContext)
    (eventBus cancelBus : Bus) (events : list ThreadEvent) (ending : StreamEnd) : M Promise :=
  λ st,
    let '(c, st1, out1) := execute_begin env requestContext eventBus st in
    match c with
    | None => (Resolves, st1, out1)
    | Some c =>
        let '(outcome, st2, its) := for_await env c (take n events) empty_book st1 in
        match outcome with
        | Returned => (Resolves, st2, out1 ++ flatten its)
        | Exhausted book =>
            let '(_, st3, out3) := cancelTask env (rc_taskId requestContext) cancelBus st2 in
            let '(outcome', st4, its') := for_await env c (drop n events) book st3 in
            match outcome', ending with
            | Returned, _ => (Resolves, st4, out1 ++ flatten its ++ out3 ++ flatten its')
            | Exhausted _, StreamEnds =>
                let '(_, st5, out5) := execute_end env c st4 in
                (Resolves, st5, out1 ++ flatten its ++ out3 ++ flatten its' ++ out5)
            | Exhausted _, StreamThrows =>
                (Rejects, st4, out1 ++ flatten its ++ out3 ++ flatten its')
            end
        end
    end.

(** The events given to [logger.log] by the loop, in order: those that
    were dispatched. *)
Definition logged (out : list Effect) : list ThreadEvent :=
  omap (λ e, match e with
             | Log (LogEvent event) => Some event
             | _ => None
             end) out.

(** The events of a stream up to and with its first [turn.failed]. *)
Fixpoint until_failure (events : list ThreadEvent) : list ThreadEvent :=
  match events with
  | [] => []
  | TurnFailed m :: _ => [TurnFailed m]
  | e :: rest => e :: until_failure rest
  end.

(** How an execution ends that got into the loop, by the first
    [turn.failed] of the events it has yet to see and the end of the
    stream: with Failed and [finished]; with Completed and [finished];
    or with nothing, when the stream throws. *)
Definition ending_of (b : Bus) (t c : string) (failure : option string) (ending : StreamEnd)
    (uuid now : string) : list Effect :=
  match failure, ending with
  | Some m, _ => [Publish b (failed_update t c uuid ("Error: " +:+ m) now); Finished b]
  | None, StreamEnds => [Publish b (completed_update t c now); Finished b]
  | None, StreamThrows => []
  end.

(** How its promise is settled then. *)
Definition promise_of (failure : option string) (ending : StreamEnd) : Promise :=
  match failure, ending with
  | None, StreamThrows => Rejects
  | _, _ => Resolves
  end.

(** ** The constructor of [CodexExecutor] *)

(** The value of a property of the options object that the constructor
    is given: a callback by context id that gives a partial
    configuration, a directory or some other object; an object of the
    host (the Codex client, the logger); or nothing. *)
Inductive OptionValue :=
| ConfigCallback (f : string → PartialCodexConfig)
| DirectoryCallback (f : string → option string)
| ObjectCallback (f : string → JsValue)
| HostObject
| Undefined.

(** [options.key]: [undefined] when the object has no such key. *)
Fixpoint property (key : string) (options : list (string * OptionValue)) : OptionValue :=
  match options with
  | [] => Undefined
  | (k, v) :: rest => if String.eqb k key then v else property key rest
  end.

(** Lines 29 to 34: the constructor destructures [getConfig] and
    [getWorkingDirectory] from its argument and defaults the first to
    [() => ({})].  The functions of the host are those of [host]. *)
Definition CodexExecutor_new (host : Env) (options : list (string * OptionValue)) : Env := {|
  getConfig := match property "getConfig" options with
               | ConfigCallback f => f
               | _ => λ _, empty_partial
               end;
  getWorkingDirectory := match property "getWorkingDirectory" options with
                         | DirectoryCallback f => Some f
                         | _ => None
                         end;
  process_cwd := process_cwd host;
  randomUUID := randomUUID host;
  toISOString := toISOString host;
  JSON_stringify := JSON_stringify host;
  String_of := String_of host
|}.

(** ** codex-a2a-server.ts *)

Module CodexA2AServer.

(** How a promise is settled. *)
Inductive Settled (A : Type) :=
| Resolved (a : A)
| Rejected.
Arguments Resolved {A} a.
Arguments Rejected {A}.

(** What [listen(port)] of an http server does: the server listens; or it
    emits 'error'; or the call throws. *)
Inductive Listen := Listening | PortError | Throws.

Definition DEFAULT_PORT : N := 50002.

(** [findAvailablePort]: [probe] is what [listen] does on each port, for
    the server made to try it.  [None] is a promise still pending after
    [fuel] tries. *)
Fixpoint findAvailablePort (probe : N → Listen) (fuel : nat) (startPort : N)
    : option (Settled N) :=
  match fuel with
  | O => None
  | S fuel' =>
      match probe startPort with
      | Listening => Some (Resolved startPort)
      | PortError => findAvailablePort probe fuel' (startPort + 1)%N
      | Throws => Some Rejected
      end
  end.

Section Server.

(** The agent card and its overrides are those of the SDK; the card is
    built by [buildAgentCard] from the port and the overrides. *)
Variable AgentCard : Type.
Variable CardOverrides : Type.
Variable buildAgentCard : N → option CardOverrides → AgentCard.

(** The Codex client is the host's. *)
Variable Codex : Type.

Record CodexA2AServerOptions := {
  port : option N;
  agentCard : option CardOverrides;
  codex : option Codex;
  (** what a call of the factory gives, when there is a factory *)
  codexFactory : option (Settled Codex);
  getThreadOptions : option (string → JsValue);
  getTurnOptions : option (string → JsValue);
  o_getWorkingDirectory : option (string → option string);
  (** whether the callback returns, when there is one *)
  configureApp : option bool
}.

(** [new DefaultRequestHandler(agentCard, new InMemoryTaskStore(), executor)],
    with the executor known by the options it was made from. *)
Record RequestHandler := {
  h_agentCard : AgentCard;
  h_executor : list (string * OptionValue)
}.

(** [http.createServer(app)], with the app known by the request handler
    that its routes lead to. *)
Record HttpServer := { sv_app : RequestHandler }.

Record ServerState := {
  server : option HttpServer;
  serverUrl : option string;
  requestHandler : option RequestHandler;
  running : bool
}.

(** The fields of a new [CodexA2AServer]. *)
Definition new_server : ServerState :=
  {| server := None; serverUrl := None; requestHandler := None; running := false |}.

Inductive Status :=
| Connected (serverUrl : string)
| StatusError
| Disconnected.

Inductive ServerEffect :=
| ListenOn (s : HttpServer) (port : N)
| Close (s : HttpServer)
| LoggerLog (serverUrl : string)
| LoggerError
| Emit (status : Status)
| HandlerCancelTask (h : RequestHandler) (taskId : string).

(** What the host does during one call of [start]. *)
Record StartWorld := {
  w_sdk : Settled Codex;
  w_probe : N → Listen;
  w_fuel : nat;
  w_listen : Listen
}.

Definition getUrl (st : ServerState) : option string := serverUrl st.

Definition isRunning (st : ServerState) : bool := running st.

Definition resolveCodex (options : CodexA2AServerOptions) (w : StartWorld) : Settled Codex :=
  match codex options with
  | Some c => Resolved c
  | None =>
      match codexFactory options with
      | Some made => made
      | None => w_sdk w
      end
  end.

Definition of_callback {A} (wrap : A → OptionValue) (f : option A) : OptionValue :=
  match f with
  | Some f => wrap f
  | None => Undefined
  end.

(** The object literal that [start] gives to [new CodexExecutor]. *)
Definition executor_options (options : CodexA2AServerOptions) : list (string * OptionValue) :=
  [("codex", HostObject);
   ("getThreadOptions", of_callback ObjectCallback (getThreadOptions options));
   ("getTurnOptions", of_callback ObjectCallback (getTurnOptions options));
   ("getWorkingDirectory", of_callback DirectoryCallback (o_getWorkingDirectory options));
   ("logger", HostObject)].

Definition url_of (port : N) : string := "http://localhost:" +:+ pretty port.

(** [start].  The result is how its promise is settled, [None] when it
    is still pending. *)
Definition start (options : CodexA2AServerOptions) (w : StartWorld) (st : ServerState)
    : option (Settled unit) * ServerState * list ServerEffect :=
  if running st then (Some (Resolved tt), st, [])
  else
    match resolveCodex options w with
    | Rejected => (Some Rejected, st, [])
    | Resolved _ =>
        match findAvailablePort (w_probe w) (w_fuel w) (default DEFAULT_PORT (port options)) with
        | None => (None, st, [])
        | Some Rejected => (Some Rejected, st, [])
        | Some (Resolved port) =>
            let agentCard := buildAgentCard port (agentCard options) in
            let handler := {| h_agentCard := agentCard;
                              h_executor := executor_options options |} in
            let st1 := {| server := server st; serverUrl := serverUrl st;
                          requestHandler := Some handler; running := running st |} in
            if negb (default true (configureApp options)) then (Some Rejected, st1, [])
            else
              let s := {| sv_app := handler |} in
              let st2 := {| server := Some s; serverUrl := serverUrl st1;
                            requestHandler := requestHandler st1; running := running st1 |} in
              match w_listen w with
              | Listening =>
                  (Some (Resolved tt),
                   {| server := server st2; serverUrl := Some (url_of port);
                      requestHandler := requestHandler st2; running := true |},
                   [ListenOn s port; LoggerLog (url_of port); Emit (Connected (url_of port))])
              | PortError =>
                  (Some Rejected,
                   {| server := server st2; serverUrl := serverUrl st2;
                      requestHandler := requestHandler st2; running := false |},
                   [ListenOn s port; LoggerError; Emit StatusError])
              | Throws => (Some Rejected, st2, [ListenOn s port])
              end
        end
    end.

(** The handler of 'error' that [start] puts on a server, when the
    server emits 'error' after [start] has returned. *)
Definition on_error (st : ServerState) : ServerState * list ServerEffect :=
  ({| server := server st; serverUrl := serverUrl st;
      requestHandler := requestHandler st; running := false |},
   [LoggerError; Emit StatusError]).

Definition stop (st : ServerState) : ServerState * list ServerEffect :=
  match server st with
  | None => (st, [])
  | Some s => (new_server, [Close s; Emit Disconnected])
  end.

Definition cancelTask (taskId : string) (st : ServerState) : ServerState * list ServerEffect :=
  match requestHandler st with
  | None => (st, [])
  | Some h => (st, [HandlerCancelTask h taskId])
  end.

(** A call on the server, or an 'error' of one of its http servers; each
    is over before the next begins. *)
Inductive Call :=
| CallStart (w : StartWorld)
| CallStop
| CallCancelTask (taskId : string)
| ErrorEvent.

Definition call (options : CodexA2AServerOptions) (c : Call) (st : ServerState)
    : ServerState * list ServerEffect :=
  match c with
  | CallStart w => let '(_, st1, out) := start options w st in (st1, out)
  | CallStop => stop st
  | CallCancelTask taskId => cancelTask taskId st
  | ErrorEvent => on_error st
  end.

Fixpoint calls (options : CodexA2AServerOptions) (cs : list Call) (st : ServerState)
    : ServerState * list ServerEffect :=
  match cs with
  | [] => (st, [])
  | c :: rest =>
      let '(st1, out1) := call options c st in
      let '(st2, out2) := calls options rest st1 in
      (st2, out1 ++ out2)
  end.

(** While the server runs, its URL, its handler and its http server
    belong together. *)
Definition consistent (options : CodexA2AServerOptions) (st : ServerState) : Prop :=
  (running st = true →
     ∃ port h,
       serverUrl st = Some (url_of port) ∧
       requestHandler st = Some h ∧
       server st = Some {| sv_app := h |} ∧
       h_agentCard h = buildAgentCard port (agentCard options) ∧
       h_executor h = executor_options options) ∧
  (server st = None → serverUrl st = None ∧ running st = false).

End Server.

Arguments port {_ _} _.
Arguments agentCard {_ _} _.
Arguments codex {_ _} _.
Arguments codexFactory {_ _} _.
Arguments getThreadOptions {_ _} _.
Arguments getTurnOptions {_ _} _.
Arguments o_getWorkingDirectory {_ _} _.
Arguments configureApp {_ _} _.
Arguments executor_options {_ _} _.
Arguments resolveCodex {_ _} _ _.
Arguments new_server {_}.
Arguments start {_ _} _ {_} _ _ _.
Arguments stop {_} _.
Arguments cancelTask {_} _ _.
Arguments on_error {_} _.
Arguments call {_ _} _ {_} _ _ _.
Arguments calls {_ _} _ {_} _ _ _.
Arguments consistent {_ _} _ {_} _ _.
Arguments server {_} _.
Arguments serverUrl {_} _.
Arguments requestHandler {_} _.
Arguments running {_} _.
Arguments w_sdk {_} _.
Arguments w_probe {_} _.
Arguments w_fuel {_} _.
Arguments w_listen {_} _.
Arguments h_agentCard {_} _.
Arguments h_executor {_} _.
Arguments sv_app {_} _.
Arguments CallStart {_} w.
Arguments CallStop {_}.
Arguments CallCancelTask {_} taskId.
Arguments ErrorEvent {_}.
Arguments getUrl {_} _.
Arguments isRunning {_} _.

End CodexA2AServer.

(** ** Sample values *)

Definition env0 : Env := {|
  getConfig := λ _, empty_partial;
  getWorkingDirectory := None;
  process_cwd := "/srv/app";
  randomUUID := λ n, "uuid-" +:+ pretty n;
  toISOString := λ n, "2026-01-01T00:00:0" +:+ pretty n +:+ "Z";
  JSON_stringify := λ _, Some "{json}";
  String_of := λ _, "[object Object]"
|}.

Definition user_message (t : string) : Message := {|
  role := RoleUser; messageId := "msg-1";
  m_taskId := Some "task-1"; m_contextId := Some "ctx-1";
  parts := [TextPart t]
|}.

Definition rc_hi : RequestContext := {|
  rc_taskId := "task-1"; rc_contextId := "ctx-1";
  rc_userMessage := user_message "Hi"; rc_task := None
|}.

Definition rc_empty : RequestContext := {|
  rc_taskId := "task-1"; rc_contextId := "ctx-1";
  rc_userMessage := user_message ""; rc_task := None
|}.

(** The host gives "/tmp/project" as working directory of every context. *)
Definition env_tmp : Env := {|
  getConfig := getConfig env0;
  getWorkingDirectory := Some (λ _, Some "/tmp/project");
  process_cwd := process_cwd env0;
  randomUUID := randomUUID env0;
  toISOString := toISOString env0;
  JSON_stringify := JSON_stringify env0;
  String_of := String_of env0
|}.

(** The same with white space around the directory. *)
Definition env_padded : Env := {|
  getConfig := getConfig env0;
  getWorkingDirectory := Some (λ _, Some "  /tmp/project  ");
  process_cwd := process_cwd env0;
  randomUUID := randomUUID env0;
  toISOString := toISOString env0;
  JSON_stringify := JSON_stringify env0;
  String_of := String_of env0
|}.

(** The host gives three spaces as working directory. *)
Definition env_blank : Env := {|
  getConfig := getConfig env0;
  getWorkingDirectory := Some (λ _, Some "   ");
  process_cwd := process_cwd env0;
  randomUUID := randomUUID env0;
  toISOString := toISOString env0;
  JSON_stringify := JSON_stringify env0;
  String_of := String_of env0
|}.

(** The configuration gives a padded working directory. *)
Definition env_config : Env := {|
  getConfig := λ _, {|
    p_model := None; p_maxTokens := None; p_autoApprove := None;
    p_sandboxMode := Some ReadOnly; p_writableRoots := None;
    p_networkAccess := Some false; p_approvalPolicy := Some Never;
    p_webSearchEnabled := Some false; p_reasoningEffort := None;
    p_workingDirectory := Some (Some "  /work/repo ") |};
  getWorkingDirectory := None;
  process_cwd := process_cwd env0;
  randomUUID := randomUUID env0;
  toISOString := toISOString env0;
  JSON_stringify := JSON_stringify env0;
  String_of := String_of env0
|}.

(** The stream of the first test of the repository. *)
Definition stream_hello : list ThreadEvent :=
  [TurnStarted;
   ItemCompleted (AgentMessageItem "item-1" "Hello world");
   TurnCompleted (JObj [("input_tokens", JNum 3); ("output_tokens", JNum 7)])].

(** An agent message growing over three events, with a reasoning item
    in between. *)
Definition stream_growing : list ThreadEvent :=
  [TurnStarted;
   ItemStarted (AgentMessageItem "item-2" "Stream");
   ItemUpdated (ReasoningItem "think-1" "hm");
   ItemUpdated (AgentMessageItem "item-2" "Streaming");
   ItemCompleted (AgentMessageItem "item-2" "Streaming done")].

(** A command execution with id "a" and an agent message with id
    "a:output". *)
Definition stream_clash : list ThreadEvent :=
  [ItemUpdated (CommandExecutionItem "a" "ls" "xyz" None "in_progress");
   ItemCompleted (AgentMessageItem "a:output" "hello")].

(** A command execution seen four times. *)
Definition stream_command : list ThreadEvent :=
  [ItemStarted (CommandExecutionItem "cmd-1" "make" "" None "in_progress");
   ItemUpdated (CommandExecutionItem "cmd-1" "make" "cc a.c" None "in_progress");
   ItemUpdated (CommandExecutionItem "cmd-1" "make" "cc a.c; cc b.c" None "in_progress");
   ItemCompleted (CommandExecutionItem "cmd-1" "make" "cc a.c; cc b.c" (Some 0%Z) "completed")].

(** An mcp tool call that completes with neither error nor result. *)
Definition stream_mcp_silent : list ThreadEvent :=
  [ItemStarted (McpToolCallItem "mcp-1" "files" "read" (JObj []) None None "in_progress");
   ItemCompleted (McpToolCallItem "mcp-1" "files" "read" (JObj []) None None "completed")].

(** A state in which "task-1" is marked canceled. *)
Definition st_marked : State := with_canceledTasks (λ _, {["task-1"]}) initial_state.

(** A command execution whose output grows, with other events in
    between. *)
Definition stream_output : list ThreadEvent :=
  [ItemStarted (CommandExecutionItem "cmd-1" "ls" "" None "in_progress");
   TurnStarted;
   ItemUpdated (CommandExecutionItem "cmd-1" "ls" "a.txt" None "in_progress");
   ItemUpdated (AgentMessageItem "item-2" "Listing");
   ItemUpdated (CommandExecutionItem "cmd-1" "ls" "a.txt" None "in_progress");
   ItemCompleted (CommandExecutionItem "cmd-1" "ls" ("a.txt" +:+ LF +:+ "b.txt") (Some 0%Z) "completed")].

(** Two web searches, the first one seen three times. *)
Definition stream_search : list ThreadEvent :=
  [ItemStarted (WebSearchItem "ws-1" "rocq");
   ItemUpdated (WebSearchItem "ws-1" "rocq stdpp");
   ItemCompleted (WebSearchItem "ws-1" "rocq stdpp");
   ItemCompleted (WebSearchItem "ws-2" "gmap")].

(** A turn that fails, with an event after the failure. *)
Definition stream_failing : list ThreadEvent :=
  [TurnStarted; TurnFailed "boom"; TurnStarted].

(** A request of another task in another context. *)
Definition rc_other : RequestContext := {|
  rc_taskId := "task-2"; rc_contextId := "ctx-2";
  rc_userMessage := user_message "Hello"; rc_task := None
|}.

(** Port 50002 is taken, port 50003 is free. *)
Definition probe_taken (port : N) : CodexA2AServer.Listen :=
  if (port =? 50002)%N then CodexA2AServer.PortError
  else if (port =? 50003)%N then CodexA2AServer.Listening
  else CodexA2AServer.Throws.

(** Server options with thread options and no port; the agent card is
    known by its port. *)
Definition server_options : CodexA2AServer.CodexA2AServerOptions unit unit := {|
  CodexA2AServer.port := None;
  CodexA2AServer.agentCard := None;
  CodexA2AServer.codex := Some tt;
  CodexA2AServer.codexFactory := None;
  CodexA2AServer.getThreadOptions := Some (λ _, JObj [("sandboxMode", JStr "read-only")]);
  CodexA2AServer.getTurnOptions := None;
  CodexA2AServer.o_getWorkingDirectory := None;
  CodexA2AServer.configureApp := None
|}.

Definition world_taken : CodexA2AServer.StartWorld unit := {|
  CodexA2AServer.w_sdk := CodexA2AServer.Rejected;
  CodexA2AServer.w_probe := probe_taken;
  CodexA2AServer.w_fuel := 5;
  CodexA2AServer.w_listen := CodexA2AServer.Listening
|}.

(** The double quote and the backslash. *)
Definition DQ : string := String "034"%char EmptyString.

Definition BS : string := String "092"%char EmptyString.

Definition hex_digit (n : N) : ascii :=
  ascii_of_N (if (n <? 10)%N then 48 + n else 87 + n)%N.

(** A character inside a JSON string. *)
Definition json_escape_char (a : ascii) : string :=
  let n := N_of_ascii a in
  if (n =? 34)%N then BS +:+ DQ
  else if (n =? 92)%N then BS +:+ BS
  else if (n =? 8)%N then BS +:+ "b"
  else if (n =? 9)%N then BS +:+ "t"
  else if (n =? 10)%N then BS +:+ "n"
  else if (n =? 12)%N then BS +:+ "f"
  else if (n =? 13)%N then BS +:+ "r"
  else if (n <? 32)%N then
    BS +:+ "u00" +:+ String (hex_digit (n / 16)) (String (hex_digit (n mod 16)) EmptyString)
  else String a EmptyString.

Fixpoint json_escape (s : string) : string :=
  match s with
  | EmptyString => EmptyString
  | String a rest => json_escape_char a +:+ json_escape rest
  end.

Definition json_quote (s : string) : string := DQ +:+ json_escape s +:+ DQ.

(** [JSON.stringify(v, null, 2)] at the indentation [gap], on values
    other than [undefined] and on strings of ASCII characters: an
    [undefined] field of an object is left out, an [undefined] element
    of an array is [null]. *)
Fixpoint json_text (gap : string) (v : JsValue) : string :=
  let inner := gap +:+ "  " in
  match v with
  | JUndefined | JNull => "null"
  | JBool b => if b then "true" else "false"
  | JNum z => pretty z
  | JStr s => json_quote s
  | JArr elems =>
      let lines :=
        (fix elems_text (es : list JsValue) : list string :=
           match es with
           | [] => []
           | e :: rest => (inner +:+ json_text inner e) :: elems_text rest
           end) elems in
      match lines with
      | [] => "[]"
      | _ => "[" +:+ LF +:+ join ("," +:+ LF) lines +:+ LF +:+ gap +:+ "]"
      end
  | JObj fields =>
      let lines :=
        (fix fields_text (fs : list (string * JsValue)) : list string :=
           match fs with
           | [] => []
           | (_, JUndefined) :: rest => fields_text rest
           | (k, w) :: rest =>
               (inner +:+ json_quote k +:+ ": " +:+ json_text inner w) :: fields_text rest
           end) fields in
      match lines with
      | [] => "{}"
      | _ => "{" +:+ LF +:+ join ("," +:+ LF) lines +:+ LF +:+ gap +:+ "}"
      end
  end.

(** A host whose [JSON.stringify] is [json_text]. *)
Definition env_json : Env := {|
  getConfig := getConfig env0;
  getWorkingDirectory := getWorkingDirectory env0;
  process_cwd := process_cwd env0;
  randomUUID := randomUUID env0;
  toISOString := toISOString env0;
  JSON_stringify := λ v, Some (json_text "" v);
  String_of := String_of env0
|}.

(** ** Tactics *)

(** Runs the monadic code on a state whose fields are in view. *)
Ltac run :=
  cbv beta iota zeta delta
    [cancelTask publishCanceled publishFailure publishStatus publishTextContent
     publishThought publishToolUpdate publishToolOutput execute_end
     bind ret emit gets modify newUUID newDate startThread draw tick spawn
     effects_of state_of value_of with_canceledTasks with_taskContexts
     with_threads with_threadWorkingDirs];
  cbn [fst snd threads threadWorkingDirs canceledTasks taskContexts uuids dates started
       app str_truthy nonempty negb].

(** ** [cancelTask] and [publishCanceled] *)

(** [cancelTask] in closed form. *)
Lemma cancelTask_run env t b st :
  cancelTask env t b st =
    let ctx := default (randomUUID env (S (uuids st))) (taskContexts st !! t) in
    (tt,
     {| threads := threads st; threadWorkingDirs := threadWorkingDirs st;
        canceledTasks := ({[t]} ∪ canceledTasks st) ∖ {[t]};
        taskContexts := delete t (taskContexts st);
        uuids := match taskContexts st !! t with
                 | Some _ => S (uuids st)
                 | None => S (S (uuids st))
                 end;
        dates := S (dates st); started := started st |},
     [Publish b (canceled_update t ctx (randomUUID env (uuids st))
                   (toISOString env (dates st)));
      Finished b]).
Proof.
  destruct st as [th twd ct tc u d n]. run.
  destruct (tc !! t) as [c|]; reflexivity.
Qed.

(** The mark that [cancelTask] sets is gone when it returns. *)
Lemma cancelTask_leaves_no_mark env t b st :
  t ∉ canceledTasks (state_of (cancelTask env t b st)).
Proof.
  rewrite cancelTask_run. cbn. intros [_ H]%elem_of_difference.
  apply H. by apply elem_of_singleton.
Qed.

(** With a recorded context id, the update carries it. *)
Lemma cancelTask_recorded_context env t b st c :
  taskContexts st !! t = Some c →
  published b (effects_of (cancelTask env t b st)) =
    [canceled_update t c (randomUUID env (uuids st)) (toISOString env (dates st))].
Proof.
  intros H. rewrite cancelTask_run, H. cbn. by rewrite Nat.eqb_refl.
Qed.

(** C10: when no context id is recorded for the task id, the Canceled
    terminal status update that [cancelTask] publishes carries as its
    context id a UUID drawn during the call (the second draw; the first
    is the message id), both in the update and in its message. *)
Theorem C10_cancel_unrecorded_context_is_fresh_uuid env t b st :
  taskContexts st !! t = None →
  published b (effects_of (cancelTask env t b st)) =
    [canceled_update t (randomUUID env (S (uuids st)))
       (randomUUID env (uuids st)) (toISOString env (dates st))]
  ∧ uuids (state_of (cancelTask env t b st)) = S (S (uuids st)).
Proof.
  intros H. rewrite cancelTask_run, H. cbn. by rewrite Nat.eqb_refl.
Qed.

Lemma C10_witness :
  taskContexts initial_state !! "task-9" = None ∧
  published 7 (effects_of (cancelTask env0 "task-9" 7 initial_state)) =
    [canceled_update "task-9" "uuid-1" "uuid-0" "2026-01-01T00:00:00Z"].
Proof.
  split; [reflexivity|].
  exact (proj1 (C10_cancel_unrecorded_context_is_fresh_uuid
                  env0 "task-9" 7 initial_state eq_refl)).
Defined.

(** C6, as stated, fails: after a first [cancelTask] has published
    Canceled and cleared the task id, a second call publishes again and
    calls [finished] again. *)
Lemma C6_second_cancel_not_noop :
  ("task-1" ∉ canceledTasks (state_of (cancelTask env0 "task-1" 7 initial_state))) ∧
  (bus_calls 7 (effects_of (second_cancel env0 "task-1" 7 7 initial_state)) =
    [Pub (canceled_update "task-1" "uuid-3" "uuid-2" "2026-01-01T00:00:01Z"); Fin]) ∧
  ¬ (published 7 (effects_of (second_cancel env0 "task-1" 7 7 initial_state)) = [] ∧
     finished_on 7 (effects_of (second_cancel env0 "task-1" 7 7 initial_state)) = false).
Proof.
  split; [apply cancelTask_leaves_no_mark|].
  split; [reflexivity|].
  intros [_ H]. vm_compute in H. discriminate H.
Qed.

(** C6, amended: [cancelTask] for a task id that is neither marked nor
    recorded leaves the four collections of the executor as they were,
    and yet publishes one Canceled terminal status update, with a drawn
    UUID as context id, and calls [finished] on the bus. *)
Theorem C6_cancel_after_clearing env t b st :
  t ∉ canceledTasks st →
  taskContexts st !! t = None →
  let r := cancelTask env t b st in
  bus_calls b (effects_of r) =
    [Pub (canceled_update t (randomUUID env (S (uuids st)))
            (randomUUID env (uuids st)) (toISOString env (dates st)));
     Fin]
  ∧ canceledTasks (state_of r) = canceledTasks st
  ∧ taskContexts (state_of r) = taskContexts st
  ∧ threads (state_of r) = threads st
  ∧ threadWorkingDirs (state_of r) = threadWorkingDirs st.
Proof.
  intros Hc Ht r. subst r. rewrite cancelTask_run, Ht. cbn.
  rewrite Nat.eqb_refl. repeat split.
  - apply set_eq. intros x.
    rewrite elem_of_difference, elem_of_union, elem_of_singleton.
    split; [by intros [[->|?] ?]|]. intros Hx. split; [by right|]. by intros ->.
  - by apply delete_id.
Qed.

Lemma C6_witness :
  bus_calls 7 (effects_of (second_cancel env0 "task-1" 7 7 initial_state)) =
    [Pub (canceled_update "task-1" "uuid-3" "uuid-2" "2026-01-01T00:00:01Z"); Fin].
Proof.
  refine (proj1 (C6_cancel_after_clearing env0 "task-1" 7
                   (state_of (cancelTask env0 "task-1" 7 initial_state)) _ _)).
  - apply cancelTask_leaves_no_mark.
  - vm_compute. reflexivity.
Defined.

(** ** The early returns of [execute] *)

(** C5, as stated, fails twice.  The text of the Failed update is
    ["Error: No text content"], not ["No text content"]; and when the
    task id is marked canceled, the cancellation check comes first and no
    Failed update is published at all. *)
Lemma C5_failure_text_differs :
  text_of (rc_userMessage rc_empty) = "" ∧
  map message_text
    (List.filter (is_terminal Failed)
       (effects_of (execute env0 rc_empty 7 [] initial_state))) =
    [Some "Error: No text content"] ∧
  List.filter (is_terminal Failed)
    (effects_of (execute env0 rc_empty 7 [] st_marked)) = [].
Proof. repeat split; vm_compute; reflexivity. Qed.

(** C5, amended: when the task id is not marked canceled and the text
    extracted from the input message is empty, [execute] publishes its
    opening updates, then a Failed terminal status update whose message
    text is ["Error: No text content"], calls [finished] on the bus and
    returns: [startThread] is not called and the thread registry is left
    as it was. *)
Theorem C5_empty_input_fails env rc b events st :
  rc_taskId rc ∉ canceledTasks st →
  text_of (rc_userMessage rc) = "" →
  let r := execute env rc b events st in
  effects_of r =
    opening rc b env st ++
    [Publish b (failed_update (rc_taskId rc) (rc_contextId rc)
                  (randomUUID env (uuids st)) "Error: No text content"
                  (toISOString env (S (S (dates st)))));
     Finished b]
  ∧ finished_on b (effects_of r) = true
  ∧ factory_calls (effects_of r) = 0
  ∧ threads (state_of r) = threads st
  ∧ threadWorkingDirs (state_of r) = threadWorkingDirs st.
Proof.
  intros Hin Htext r. subst r.
  destruct st as [th twd ct tc u d n]; cbn in Hin.
  destruct rc as [t c m [task|]]; cbn in Hin, Htext |- *;
  unfold execute, execute_begin, opening; run; cbn;
  rewrite (bool_decide_eq_false_2 _ Hin), Htext; run; cbn;
  rewrite ?Nat.eqb_refl, ?orb_true_r; repeat split; done.
Qed.

Lemma C5_witness :
  bus_calls 7 (effects_of (execute env0 rc_empty 7 [TurnStarted] initial_state)) =
    [Pub (initial_task rc_empty "2026-01-01T00:00:00Z");
     Pub (working_update "task-1" "ctx-1" "state-change" "2026-01-01T00:00:01Z");
     Pub (failed_update "task-1" "ctx-1" "uuid-0" "Error: No text content"
            "2026-01-01T00:00:02Z");
     Fin].
Proof.
  assert (H : "task-1" ∉ canceledTasks initial_state) by (cbn; apply not_elem_of_empty).
  rewrite (proj1 (C5_empty_input_fails env0 rc_empty 7 [TurnStarted] initial_state
                    H eq_refl)).
  reflexivity.
Defined.

(** ** What the publishing functions and the loop leave alone *)

Lemma steady_refl st : steady st st.
Proof. by repeat split. Qed.

Lemma steady_trans st1 st2 st3 : steady st1 st2 → steady st2 st3 → steady st1 st3.
Proof.
  intros (? & ? & ? & ?) (? & ? & ? & ?). repeat split; try congruence.
  by etrans.
Qed.

Lemma factory_calls_app out1 out2 :
  factory_calls (out1 ++ out2) = factory_calls out1 + factory_calls out2.
Proof. unfold factory_calls. by rewrite List.filter_app, length_app. Qed.

Lemma ran_app out1 out2 : ran (out1 ++ out2) = ran out1 ++ ran out2.
Proof. unfold ran. apply omap_app. Qed.

Lemma tame_ret {A} (a : A) : tame (ret a).
Proof. intros st. split; [apply steady_refl|done]. Qed.

Lemma tame_bind {A B} (m : M A) (k : A → M B) :
  tame m → (∀ a, tame (k a)) → tame (bind m k).
Proof.
  intros Hm Hk st. unfold bind, state_of, effects_of.
  specialize (Hm st). unfold state_of, effects_of in Hm.
  destruct (m st) as [[a st1] out1]. cbn [fst snd] in Hm.
  specialize (Hk a st1). unfold state_of, effects_of in Hk.
  destruct (k a st1) as [[b st2] out2]. cbn [fst snd] in Hk |- *.
  destruct Hm as (Hs1 & Hf1 & Hr1), Hk as (Hs2 & Hf2 & Hr2).
  split; [by eapply steady_trans|].
  by rewrite factory_calls_app, ran_app, Hf1, Hf2, Hr1, Hr2.
Qed.

Lemma tame_publish b ev : tame (emit (Publish b ev)).
Proof. intros st. split; [apply steady_refl|done]. Qed.

Lemma tame_finished b : tame (emit (Finished b)).
Proof. intros st. split; [apply steady_refl|done]. Qed.

Lemma tame_log l : tame (emit (Log l)).
Proof. intros st. split; [apply steady_refl|done]. Qed.

Lemma tame_newUUID env : tame (newUUID env).
Proof. intros st. split; [by repeat split|done]. Qed.

Lemma tame_newDate env : tame (newDate env).
Proof. intros st. split; [by repeat split|done]. Qed.

Lemma tame_unmark t : tame (modify (with_canceledTasks (λ s, s ∖ {[t]}))).
Proof.
  intros st. split; [|done]. repeat split; cbn. apply subseteq_difference_l.
  reflexivity.
Qed.

Lemma tame_forget t : tame (modify (with_taskContexts (delete t))).
Proof. intros st. split; [|done]. by repeat split. Qed.

Create HintDb tame.
#[local] Hint Resolve tame_ret tame_publish tame_finished tame_log tame_newUUID
  tame_newDate tame_unmark tame_forget : tame.
#[local] Hint Extern 2 (tame (bind _ _)) => apply tame_bind; [|intros ?] : tame.
#[local] Hint Extern 1 (tame (match ?x with _ => _ end)) => destruct x : tame.

Lemma tame_publishStatus env b t c s f m k : tame (publishStatus env b t c s f m k).
Proof. unfold publishStatus. auto with tame. Qed.
#[local] Hint Resolve tame_publishStatus : tame.

Lemma tame_publishTextContent env b t c x : tame (publishTextContent env b t c x).
Proof. unfold publishTextContent. auto with tame. Qed.

Lemma tame_publishThought env b t c x : tame (publishThought env b t c x).
Proof. unfold publishThought. auto with tame. Qed.

Lemma tame_publishToolUpdate env b t c x : tame (publishToolUpdate env b t c x).
Proof. unfold publishToolUpdate. auto with tame. Qed.

Lemma tame_publishToolOutput b t c i x a l : tame (publishToolOutput b t c i x a l).
Proof. unfold publishToolOutput. auto with tame. Qed.

Lemma tame_publishFailure env b t c x : tame (publishFailure env b t c x).
Proof. unfold publishFailure. auto with tame. Qed.

Lemma tame_publishCanceled env b t c : tame (publishCanceled env b t c).
Proof. unfold publishCanceled. auto 10 with tame. Qed.
#[local] Hint Resolve tame_publishTextContent tame_publishThought tame_publishToolUpdate
  tame_publishToolOutput tame_publishFailure tame_publishCanceled : tame.

Lemma tame_execute_end env c : tame (execute_end env c).
Proof. unfold execute_end. auto with tame. Qed.

Lemma tame_dispatch_item env c completed item book :
  tame (dispatch_item env c completed item book).
Proof. unfold dispatch_item. destruct item; auto 12 with tame. Qed.
#[local] Hint Resolve tame_dispatch_item : tame.

Lemma tame_dispatch env c event book : tame (dispatch env c event book).
Proof. unfold dispatch. destruct event; auto 10 with tame. Qed.

(** The loop leaves the registry alone, starts no thread and runs none. *)
Lemma for_await_tame env c events : ∀ book st,
  steady st (for_await env c events book st).1.2 ∧
  factory_calls (flatten (for_await env c events book st).2) = 0 ∧
  ran (flatten (for_await env c events book st).2) = [].
Proof.
  induction events as [|event rest IH]; intros book st; cbn [for_await].
  - split; [apply steady_refl|done].
  - case_bool_decide as Hc.
    + pose proof (tame_publishCanceled env (c_eventBus c) (c_taskId c)
                    (Some (c_contextId c)) st) as Ht.
      unfold state_of, effects_of in Ht.
      destruct (publishCanceled _ _ _ _ st) as [[u st1] out]. cbn [fst snd] in *.
      unfold flatten. cbn. by rewrite app_nil_r.
    + pose proof (tame_dispatch env c event book st) as Ht.
      unfold state_of, effects_of in Ht.
      destruct (dispatch env c event book st) as [[next st1] out]. cbn [fst snd] in *.
      destruct next as [book1|].
      * specialize (IH book1 st1).
        destruct (for_await env c rest book1 st1) as [[outcome st2] its].
        cbn [fst snd] in *. unfold flatten in *. cbn [map concat iteration_effects].
        destruct Ht as (Hs & Hf & Hr), IH as (Hs' & Hf' & Hr').
        split; [by eapply steady_trans|].
        by rewrite factory_calls_app, ran_app, Hf, Hf', Hr, Hr'.
      * unfold flatten. cbn. by rewrite app_nil_r.
Qed.

(** ** Entering the loop: the thread registry *)

Lemma nonempty_true s : s ≠ "" → nonempty s = true.
Proof. by destruct s. Qed.

Lemma execute_begin_hit env rc b st th :
  rc_taskId rc ∉ canceledTasks st →
  text_of (rc_userMessage rc) ≠ "" →
  cache_hit env (rc_contextId rc) st th →
  execute_begin env rc b st =
    (Some (loop_ctx rc b th), entered rc st,
     opening rc b env st ++ [RunStreamed th (text_of (rc_userMessage rc))]).
Proof.
  intros Hc Ht [Hth Hkey].
  destruct st as [ths twd ct tc u d n]; cbn in Hc, Hth, Hkey.
  destruct rc as [t c m [task|]]; cbn in Hc, Ht, Hth, Hkey |- *;
  unfold execute_begin, opening, loop_ctx, entered; run; cbn;
  rewrite (bool_decide_eq_false_2 _ Hc), (nonempty_true _ Ht); run; cbn;
  rewrite Hth, Hkey, bool_decide_eq_true_2 by done; run; cbn; reflexivity.
Qed.

Lemma execute_begin_miss env rc b st :
  rc_taskId rc ∉ canceledTasks st →
  text_of (rc_userMessage rc) ≠ "" →
  (∀ th, ¬ cache_hit env (rc_contextId rc) st th) →
  execute_begin env rc b st =
    (Some (loop_ctx rc b (started st)),
     with_threadWorkingDirs <[rc_contextId rc := existingThreadKey env (rc_contextId rc)]>
       (with_threads <[rc_contextId rc := started st]>
          {| threads := threads st; threadWorkingDirs := threadWorkingDirs st;
             canceledTasks := canceledTasks st;
             taskContexts := <[rc_taskId rc := rc_contextId rc]> (taskContexts st);
             uuids := uuids st; dates := S (S (dates st)); started := S (started st) |}),
     opening rc b env st ++
     [StartThread (threadOptions env (rc_contextId rc)) (started st);
      Log (threadStartedEntry env (rc_contextId rc));
      RunStreamed (started st) (text_of (rc_userMessage rc))]).
Proof.
  intros Hc Ht Hmiss.
  destruct st as [ths twd ct tc u d n]; cbn in Hc, Hmiss.
  destruct rc as [t c m [task|]]; cbn in Hc, Ht, Hmiss |- *;
  unfold cache_hit in Hmiss; cbn in Hmiss;
  unfold execute_begin, opening, loop_ctx; run; cbn;
  rewrite (bool_decide_eq_false_2 _ Hc), (nonempty_true _ Ht); run; cbn;
  (destruct (ths !! c) as [th|] eqn:Hth;
   [ rewrite bool_decide_eq_false_2 by (intros Hk; by apply (Hmiss th)); run; cbn;
     rewrite insert_delete_eq; reflexivity
   | run; cbn; reflexivity ]).
Qed.

Lemma cache_hit_dec env c st :
  (∃ th, cache_hit env c st th) ∨ (∀ th, ¬ cache_hit env c st th).
Proof.
  unfold cache_hit. destruct (threads st !! c) as [th|]; [|right; by intros ? [? _]].
  destruct (decide (threadWorkingDirs st !! c = Some (existingThreadKey env c))) as [Hk|Hk].
  - left. by exists th.
  - right. by intros ? [_ ?].
Qed.

Lemma execute_begin_enters env rc b st :
  rc_taskId rc ∉ canceledTasks st →
  text_of (rc_userMessage rc) ≠ "" →
  ∃ th st1 out1,
    execute_begin env rc b st = (Some (loop_ctx rc b th), st1, out1) ∧
    cache_hit env (rc_contextId rc) st1 th ∧
    canceledTasks st1 = canceledTasks st.
Proof.
  intros Hc Ht. destruct (cache_hit_dec env (rc_contextId rc) st) as [[th Hh]|Hm].
  - eexists _, _, _. split; [by apply execute_begin_hit|]. by split.
  - eexists _, _, _. split; [by apply execute_begin_miss|].
    split; [|done]. split; cbn; apply lookup_insert_eq.
Qed.

Lemma execute_after_begin env rc b events st c st1 out1 :
  execute_begin env rc b st = (Some c, st1, out1) →
  ∃ tail, effects_of (execute env rc b events st) = out1 ++ tail ∧
          factory_calls tail = 0 ∧ ran tail = [] ∧
          steady st1 (state_of (execute env rc b events st)).
Proof.
  intros Hb. unfold execute. rewrite Hb.
  pose proof (for_await_tame env c events empty_book st1) as (Hs & Hf & Hr).
  destruct (for_await env c events empty_book st1) as [[outcome st2] its].
  cbn [fst snd] in *. destruct outcome.
  - pose proof (tame_execute_end env c st2) as (Hs' & Hf' & Hr').
    unfold state_of, effects_of in *.
    destruct (execute_end env c st2) as [[u st3] out3]. cbn [fst snd] in *.
    exists (flatten its ++ out3). split; [done|].
    rewrite factory_calls_app, ran_app, Hf, Hf', Hr, Hr'.
    split_and!; try done. by eapply steady_trans.
  - exists (flatten its). by split_and!.
Qed.

Lemma key_inj env1 env2 c :
  existingThreadKey env2 c = existingThreadKey env1 c ↔
  currentWorkingDir env2 c = currentWorkingDir env1 c.
Proof.
  unfold existingThreadKey. split; [|by intros ->].
  intros H. by do 2 apply String.app_inj in H.
Qed.

Lemma factory_log_nil out : factory_calls out = 0 → factory_log out = [].
Proof. unfold factory_calls, factory_log. apply nil_length_inv. Qed.

Lemma factory_log_app out1 out2 : factory_log (out1 ++ out2) = factory_log out1 ++ factory_log out2.
Proof. apply List.filter_app. Qed.

Lemma opening_quiet rc b env st :
  factory_log (opening rc b env st) = [] ∧ ran (opening rc b env st) = [].
Proof. unfold opening. by destruct (rc_task rc). Qed.

(** C7: two executions on the same context id, one after the other, both
    getting past the cancellation and input checks.  When the effective
    working directory of the second differs from that of the first, the
    second calls [startThread] once and runs the thread that this call
    made, not the cached one; when it is the same, the second calls
    [startThread] not at all and runs the thread the first left in the
    registry. *)
Theorem C7_working_directory_decides_reuse env1 env2 rc1 rc2 b1 b2 events1 events2 st :
  rc_contextId rc2 = rc_contextId rc1 →
  rc_taskId rc1 ∉ canceledTasks st →
  rc_taskId rc2 ∉ canceledTasks st →
  text_of (rc_userMessage rc1) ≠ "" →
  text_of (rc_userMessage rc2) ≠ "" →
  let c := rc_contextId rc1 in
  let st1 := state_of (execute env1 rc1 b1 events1 st) in
  let out2 := effects_of (execute env2 rc2 b2 events2 st1) in
  ∃ th1, threads st1 !! c = Some th1 ∧
    (currentWorkingDir env2 c ≠ currentWorkingDir env1 c →
       factory_log out2 = [StartThread (threadOptions env2 c) (started st1)] ∧
       ran out2 = [(started st1, text_of (rc_userMessage rc2))]) ∧
    (currentWorkingDir env2 c = currentWorkingDir env1 c →
       factory_log out2 = [] ∧
       ran out2 = [(th1, text_of (rc_userMessage rc2))]).
Proof.
  intros Hctx Hc1 Hc2 Ht1 Ht2 c st1 out2.
  destruct (execute_begin_enters env1 rc1 b1 st Hc1 Ht1)
    as (th1 & sta & outa & Hbegin1 & [Hth Hkey] & Hcan).
  destruct (execute_after_begin _ _ _ events1 _ _ _ _ Hbegin1)
    as (tail1 & _ & _ & _ & (Hs1 & Hs2 & Hs3 & Hs4)).
  fold st1 in Hs1, Hs2, Hs3, Hs4. fold c in Hth, Hkey.
  assert (Hc2' : rc_taskId rc2 ∉ canceledTasks st1).
  { intros Hin. apply Hc2. rewrite <- Hcan. by apply Hs4. }
  exists th1. split; [by rewrite Hs1|]. split.
  - intros Hne.
    assert (Hmiss : ∀ th, ¬ cache_hit env2 (rc_contextId rc2) st1 th).
    { intros th [_ Hk]. rewrite Hctx, Hs2 in Hk. fold c in Hk. rewrite Hkey in Hk.
      apply Hne. apply key_inj. congruence. }
    pose proof (execute_begin_miss env2 rc2 b2 st1 Hc2' Ht2 Hmiss) as Hbegin2.
    destruct (execute_after_begin _ _ _ events2 _ _ _ _ Hbegin2)
      as (tail2 & Heff & Hf & Hr & _).
    subst out2. rewrite Heff.
    rewrite !factory_log_app, !ran_app, (factory_log_nil _ Hf), Hr.
    destruct (opening_quiet rc2 b2 env2 st1) as [-> ->]. by rewrite Hctx.
  - intros Heq.
    assert (Hhit : cache_hit env2 (rc_contextId rc2) st1 th1).
    { split; rewrite Hctx; fold c; [by rewrite Hs1|].
      rewrite Hs2, Hkey. f_equal. symmetry. by apply key_inj. }
    pose proof (execute_begin_hit env2 rc2 b2 st1 th1 Hc2' Ht2 Hhit) as Hbegin2.
    destruct (execute_after_begin _ _ _ events2 _ _ _ _ Hbegin2)
      as (tail2 & Heff & Hf & Hr & _).
    subst out2. rewrite Heff.
    rewrite !factory_log_app, !ran_app, (factory_log_nil _ Hf), Hr.
    by destruct (opening_quiet rc2 b2 env2 st1) as [-> ->].
Qed.

Lemma bus_calls_app b out1 out2 : bus_calls b (out1 ++ out2) = bus_calls b out1 ++ bus_calls b out2.
Proof. apply omap_app. Qed.

Lemma bus_calls_publish b ev out :
  bus_calls b (Publish b ev :: out) = Pub ev :: bus_calls b out.
Proof. unfold bus_calls. cbn. by rewrite Nat.eqb_refl. Qed.

Lemma bus_calls_finished b out : bus_calls b (Finished b :: out) = Fin :: bus_calls b out.
Proof. unfold bus_calls. cbn. by rewrite Nat.eqb_refl. Qed.

Lemma bus_calls_log b l out : bus_calls b (Log l :: out) = bus_calls b out.
Proof. reflexivity. Qed.

Lemma bus_calls_start b o th out : bus_calls b (StartThread o th :: out) = bus_calls b out.
Proof. reflexivity. Qed.

Lemma bus_calls_run b th x out : bus_calls b (RunStreamed th x :: out) = bus_calls b out.
Proof. reflexivity. Qed.

Lemma bus_calls_nil b : bus_calls b [] = [].
Proof. reflexivity. Qed.

Ltac bus_simpl :=
  rewrite ?bus_calls_app;
  repeat first [ rewrite bus_calls_publish | rewrite bus_calls_finished
               | rewrite bus_calls_log | rewrite bus_calls_start
               | rewrite bus_calls_run | rewrite bus_calls_nil ];
  rewrite ?app_nil_r.

(** *** The loop, step by step *)

Lemma for_await_cons env c event rest book st :
  c_taskId c ∉ canceledTasks st →
  for_await env c (event :: rest) book st =
    match dispatch env c event book st with
    | (None, st1, out) => (Returned, st1, [Dispatched event out])
    | (Some book1, st1, out) =>
        let '(outcome, st2, its) := for_await env c rest book1 st1 in
        (outcome, st2, Dispatched event out :: its)
    end.
Proof.
  intros Hc. cbn [for_await]. rewrite (bool_decide_eq_false_2 _ Hc).
  by destruct (dispatch env c event book st) as [[[book1|] st1] out].
Qed.

Lemma dispatch_TurnStarted env c book st :
  dispatch env c TurnStarted book st =
    (Some book, tick st,
     [Log (LogEvent TurnStarted);
      Publish (c_eventBus c)
        (working_update (c_taskId c) (c_contextId c) "turn-started"
           (toISOString env (dates st)))]).
Proof. reflexivity. Qed.

Lemma dispatch_TurnCompleted env c usage book st :
  dispatch env c (TurnCompleted usage) book st =
    (Some book, tick st,
     [Log (LogEvent (TurnCompleted usage));
      Publish (c_eventBus c) (EvArtifact {|
        au_taskId := c_taskId c; au_contextId := c_contextId c;
        au_artifact := {|
          artifactId := "tool-turn-usage-output";
          a_parts := [TextPart (stringifyToolOutput env (JObj [("usage", usage)]))] |};
        au_append := false; au_lastChunk := true |});
      Publish (c_eventBus c)
        (working_update (c_taskId c) (c_contextId c) "turn-completed"
           (toISOString env (dates st)))]).
Proof. reflexivity. Qed.

(** The first non-empty text of an agent message is published whole. *)
Lemma dispatch_first_text env c completed id text book st :
  sentTextLengths book !! id = None →
  text ≠ "" →
  let event := if completed : bool then ItemCompleted (AgentMessageItem id text)
               else ItemUpdated (AgentMessageItem id text) in
  dispatch env c event book st =
    (Some (set_length id (String.length text) book), tick (draw st),
     [Log (LogEvent event);
      Publish (c_eventBus c)
        (status_update (c_taskId c) (c_contextId c) Working false
           (Some (agent_message (randomUUID env (uuids st)) (c_taskId c) (c_contextId c)
                    (TextPart text)))
           "text-content" (toISOString env (dates st)))]).
Proof.
  intros Hnone Htext event. subst event.
  destruct text as [|a text]; [done|].
  destruct completed; unfold dispatch, dispatch_item; rewrite Hnone; reflexivity.
Qed.

Lemma execute_end_run env c st :
  execute_end env c st =
    (tt, tick st,
     [Publish (c_eventBus c)
        (completed_update (c_taskId c) (c_contextId c) (toISOString env (dates st)));
      Finished (c_eventBus c)]).
Proof. reflexivity. Qed.

(** C9: with the task id not marked canceled and a non-empty input text,
    on the stream [turn.started, item.completed(agent_message, "Hi"),
    turn.completed(usage)] the calls that [execute] makes on the bus after
    its opening updates are, in order: Working tagged "turn-started"; a
    Working message tagged "text-content" whose text is "Hi"; a final,
    non-appending artifact chunk with id "tool-turn-usage-output" whose
    text is the serialized usage, that is what [JSON.stringify] of the
    host gives for [{ usage }] (what [String] gives for it, should
    [JSON.stringify] throw); Working tagged "turn-completed"; the final
    Completed update; and [finished]. *)
Theorem C9_simple_turn_publish_order env rc b id usage st :
  rc_taskId rc ∉ canceledTasks st →
  text_of (rc_userMessage rc) ≠ "" →
  let t := rc_taskId rc in
  let c := rc_contextId rc in
  let d := dates st in
  bus_calls b (effects_of (execute env rc b
     [TurnStarted; ItemCompleted (AgentMessageItem id "Hi"); TurnCompleted usage] st)) =
    bus_calls b (opening rc b env st) ++
    [Pub (working_update t c "turn-started" (toISOString env (2 + d)));
     Pub (status_update t c Working false
            (Some (agent_message (randomUUID env (uuids st)) t c (TextPart "Hi")))
            "text-content" (toISOString env (3 + d)));
     Pub (EvArtifact {|
            au_taskId := t; au_contextId := c;
            au_artifact := {|
              artifactId := "tool-turn-usage-output";
              a_parts := [TextPart
                (match JSON_stringify env (JObj [("usage", usage)]) with
                 | Some serialized => serialized
                 | None => String_of env (JObj [("usage", usage)])
                 end)] |};
            au_append := false; au_lastChunk := true |});
     Pub (working_update t c "turn-completed" (toISOString env (4 + d)));
     Pub (completed_update t c (toISOString env (5 + d)));
     Fin].
Proof.
  intros Hc Ht t c d. subst t c d. unfold execute.
  assert (Hloop : ∀ th st1,
    rc_taskId rc ∉ canceledTasks st1 →
    for_await env (loop_ctx rc b th)
      [TurnStarted; ItemCompleted (AgentMessageItem id "Hi"); TurnCompleted usage]
      empty_book st1 =
    (Exhausted (set_length id 2 empty_book), tick (tick (draw (tick st1))),
     [Dispatched TurnStarted
        [Log (LogEvent TurnStarted);
         Publish b (working_update (rc_taskId rc) (rc_contextId rc) "turn-started"
                      (toISOString env (dates st1)))];
      Dispatched (ItemCompleted (AgentMessageItem id "Hi"))
        [Log (LogEvent (ItemCompleted (AgentMessageItem id "Hi")));
         Publish b (status_update (rc_taskId rc) (rc_contextId rc) Working false
                      (Some (agent_message (randomUUID env (uuids st1)) (rc_taskId rc)
                               (rc_contextId rc) (TextPart "Hi")))
                      "text-content" (toISOString env (S (dates st1))))];
      Dispatched (TurnCompleted usage)
        [Log (LogEvent (TurnCompleted usage));
         Publish b (EvArtifact {|
           au_taskId := rc_taskId rc; au_contextId := rc_contextId rc;
           au_artifact := {|
             artifactId := "tool-turn-usage-output";
             a_parts := [TextPart (stringifyToolOutput env (JObj [("usage", usage)]))] |};
           au_append := false; au_lastChunk := true |});
         Publish b (working_update (rc_taskId rc) (rc_contextId rc) "turn-completed"
                      (toISOString env (S (S (dates st1)))))]])).
  { intros th st1 Hc1.
    rewrite for_await_cons, dispatch_TurnStarted by exact Hc1.
    rewrite for_await_cons by exact Hc1.
    rewrite (dispatch_first_text env _ true id "Hi") by (done || apply lookup_empty).
    rewrite for_await_cons, dispatch_TurnCompleted by exact Hc1.
    reflexivity. }
  assert (Hjson : stringifyToolOutput env (JObj [("usage", usage)]) =
                  match JSON_stringify env (JObj [("usage", usage)]) with
                  | Some serialized => serialized
                  | None => String_of env (JObj [("usage", usage)])
                  end) by reflexivity.
  destruct (cache_hit_dec env (rc_contextId rc) st) as [[th Hh]|Hm].
  - rewrite (execute_begin_hit env rc b st th Hc Ht Hh).
    rewrite Hloop by exact Hc. rewrite execute_end_run, Hjson.
    unfold effects_of, flatten.
    cbn [snd map concat iteration_effects app c_eventBus c_taskId c_contextId loop_ctx].
    bus_simpl. reflexivity.
  - rewrite (execute_begin_miss env rc b st Hc Ht Hm).
    rewrite Hloop by exact Hc. rewrite execute_end_run, Hjson.
    unfold effects_of, flatten.
    cbn [snd map concat iteration_effects app c_eventBus c_taskId c_contextId loop_ctx].
    bus_simpl. reflexivity.
Qed.

Lemma trimStart_spec s :
  (∃ pre, s = pre +:+ trimStart s ∧ all_space pre = true) ∧
  (∀ a, first_char (trimStart s) = Some a → is_js_space a = false).
Proof.
  induction s as [|a s [(pre & Hpre & Hsp) Hfirst]]; cbn.
  - split; [by exists ""|done].
  - destruct (is_js_space a) eqn:Ha.
    + split; [|done]. exists (String a pre). cbn. rewrite Ha, Hsp. split; [|done].
      unfold String.app. cbn. f_equal. exact Hpre.
    + split; [by exists ""|]. cbn. intros ? [= <-]. done.
Qed.

Lemma trimEnd_spec s :
  (∃ post, s = trimEnd s +:+ post ∧ all_space post = true) ∧
  (∀ a, last_char (trimEnd s) = Some a → is_js_space a = false) ∧
  (∀ a, is_js_space a = false → first_char s = Some a → first_char (trimEnd s) = Some a).
Proof.
  induction s as [|a s [(post & Hpost & Hsp) [Hlast Hfirst]]]; cbn.
  - split; [by exists ""|done].
  - destruct (trimEnd s) as [|k kept] eqn:Hk.
    + destruct (is_js_space a) eqn:Ha.
      * split; [|split; [done|]].
        -- exists (String a post). cbn. rewrite Ha, Hsp. split; [|done].
           unfold String.app in *. cbn in *. by f_equal.
        -- intros ? Hn [= <-]. congruence.
      * split; [|split].
        -- exists post. split; [|done]. unfold String.app in *. cbn in *. by f_equal.
        -- cbn. by intros ? [= <-].
        -- by intros ? _ [= <-].
    + split; [|split].
      * exists post. split; [|done]. unfold String.app in *. cbn in *. by f_equal.
      * exact Hlast.
      * by intros ? _ [= <-].
Qed.

Lemma trim_spec s :
  (∃ pre post, s = pre +:+ trim s +:+ post ∧ all_space pre = true ∧ all_space post = true) ∧
  (∀ a, first_char (trim s) = Some a → is_js_space a = false) ∧
  (∀ a, last_char (trim s) = Some a → is_js_space a = false).
Proof.
  unfold trim.
  destruct (trimStart_spec s) as [(pre & Hpre & Hsp) Hfirst].
  destruct (trimEnd_spec (trimStart s)) as [(post & Hpost & Hsp') [Hlast Hkeep]].
  split; [|split].
  - exists pre, post. split; [|done]. by rewrite <- Hpost.
  - intros a Ha. destruct (trimStart s) as [|a0 r] eqn:Hts; [done|].
    specialize (Hfirst a0 eq_refl). specialize (Hkeep a0 Hfirst eq_refl).
    congruence.
  - exact Hlast.
Qed.

Lemma normalizeWorkingDirectory_trim w :
  normalizeWorkingDirectory (Some w) =
    if nonempty (trim w) then Some (trim w) else None.
Proof.
  unfold normalizeWorkingDirectory. destruct w as [|a w]; [done|].
  cbn [str_truthy nonempty negb default from_option id]. destruct (trim (String a w)); reflexivity.
Qed.

(** C8, amended: the effective working directory is the per-context
    override, as it is (not trimmed, and kept even when it is only white
    space), when the override is a non-empty string; otherwise the
    resolved configuration value trimmed, when something is left after
    trimming; otherwise the current directory of the process.  An
    execution that gets past the cancellation and input checks leaves the
    registry with the key [contextId:directory] for its context. *)
Theorem C8_effective_working_directory env :
  (∀ c,
     currentWorkingDir env c =
       let from_config :=
         match workingDirectory (resolveConfig env c) with
         | Some w => if nonempty (trim w) then trim w else process_cwd env
         | None => process_cwd env
         end in
       match getWorkingDirectory env with
       | Some f => match f c with
                   | Some o => if nonempty o then o else from_config
                   | None => from_config
                   end
       | None => from_config
       end) ∧
  (∀ rc b events st,
     rc_taskId rc ∉ canceledTasks st →
     text_of (rc_userMessage rc) ≠ "" →
     threadWorkingDirs (state_of (execute env rc b events st)) !! rc_contextId rc =
       Some (rc_contextId rc +:+ ":" +:+ currentWorkingDir env (rc_contextId rc))).
Proof.
  split.
  - intros c. unfold currentWorkingDir, workingDir, or_else, or_opt.
    assert (Hn : ∀ o, or_else
              (match o with
               | Some w => if nonempty (trim w) then Some (trim w) else None
               | None => None
               end) (process_cwd env) =
            match o with
            | Some w => if nonempty (trim w) then trim w else process_cwd env
            | None => process_cwd env
            end).
    { intros [w|]; [|done]. cbn. by destruct (nonempty (trim w)) eqn:E; cbn; rewrite ?E. }
    assert (Hnorm : ∀ o, normalizeWorkingDirectory o =
              match o with
              | Some w => if nonempty (trim w) then Some (trim w) else None
              | None => None
              end).
    { intros [w|]; [apply normalizeWorkingDirectory_trim|done]. }
    rewrite Hnorm. unfold or_else in Hn.
    destruct (getWorkingDirectory env) as [f|]; [destruct (f c) as [o|]|]; cbn zeta;
      [destruct (nonempty o) eqn:Ho; [by rewrite Ho|]|..]; apply Hn.
  - intros rc b events st Hc Ht.
    destruct (execute_begin_enters env rc b st Hc Ht)
      as (th & st1 & out1 & Hbegin & [_ Hkey] & _).
    destruct (execute_after_begin _ _ _ events _ _ _ _ Hbegin)
      as (tail & _ & _ & _ & (_ & Hs & _)).
    by rewrite Hs.
Qed.

(** [trim] on some inputs. *)
Example trim_padded : trim "  /work/repo " = "/work/repo".
Proof. reflexivity. Qed.

Example trim_blank : trim "   " = "".
Proof. reflexivity. Qed.

Lemma C7_witness :
  factory_log (effects_of (execute env_tmp rc_hi 8 [TurnStarted]
                 (state_of (execute env0 rc_hi 7 [TurnStarted] initial_state)))) =
    [StartThread (threadOptions env_tmp "ctx-1") 1] ∧
  factory_log (effects_of (execute env0 rc_hi 8 [TurnStarted]
                 (state_of (execute env0 rc_hi 7 [TurnStarted] initial_state)))) = [].
Proof.
  assert (Hc : "task-1" ∉ canceledTasks initial_state) by (cbn; apply not_elem_of_empty).
  assert (Ht : text_of (rc_userMessage rc_hi) ≠ "") by (intros H; discriminate H).
  split.
  - destruct (C7_working_directory_decides_reuse env0 env_tmp rc_hi rc_hi 7 8
                [TurnStarted] [TurnStarted] initial_state eq_refl Hc Hc Ht Ht)
      as (th1 & _ & Hdiff & _).
    apply Hdiff. intros H. discriminate H.
  - destruct (C7_working_directory_decides_reuse env0 env0 rc_hi rc_hi 7 8
                [TurnStarted] [TurnStarted] initial_state eq_refl Hc Hc Ht Ht)
      as (th1 & _ & _ & Hsame).
    apply Hsame. reflexivity.
Defined.

(** C8, as stated, fails: an override with white space around it is the
    key as it is, not trimmed, and an override of white space only is
    used, not treated as absent. *)
Lemma C8_override_not_normalized :
  currentWorkingDir env_padded "ctx-1" = "  /tmp/project  " ∧
  currentWorkingDir env_padded "ctx-1" ≠ trim (currentWorkingDir env_padded "ctx-1") ∧
  threadWorkingDirs (state_of (execute env_padded rc_hi 7 [] initial_state)) !! "ctx-1" =
    Some "ctx-1:  /tmp/project  " ∧
  currentWorkingDir env_blank "ctx-1" = "   ".
Proof.
  split; [reflexivity|]. split; [intros H; discriminate H|].
  split; [vm_compute; reflexivity|reflexivity].
Qed.

Lemma C8_witness :
  currentWorkingDir env_config "ctx-1" = "/work/repo" ∧
  threadWorkingDirs (state_of (execute env_config rc_hi 7 [] initial_state)) !! "ctx-1" =
    Some "ctx-1:/work/repo".
Proof.
  split.
  - rewrite (proj1 (C8_effective_working_directory env_config) "ctx-1"). reflexivity.
  - refine (proj2 (C8_effective_working_directory env_config) rc_hi 7 [] initial_state _ _).
    + cbn. apply not_elem_of_empty.
    + intros H. discriminate H.
Defined.

Lemma C9_witness :
  bus_calls 7 (effects_of (execute env_json rc_hi 7
     [TurnStarted; ItemCompleted (AgentMessageItem "item-1" "Hi");
      TurnCompleted (JObj [("input_tokens", JNum 3); ("output_tokens", JNum 7)])]
     initial_state)) =
    [Pub (initial_task rc_hi "2026-01-01T00:00:00Z");
     Pub (working_update "task-1" "ctx-1" "state-change" "2026-01-01T00:00:01Z");
     Pub (working_update "task-1" "ctx-1" "turn-started" "2026-01-01T00:00:02Z");
     Pub (status_update "task-1" "ctx-1" Working false
            (Some (agent_message "uuid-0" "task-1" "ctx-1" (TextPart "Hi")))
            "text-content" "2026-01-01T00:00:03Z");
     Pub (EvArtifact {|
            au_taskId := "task-1"; au_contextId := "ctx-1";
            au_artifact := {|
              artifactId := "tool-turn-usage-output";
              a_parts := [TextPart
                ("{" +:+ LF +:+
                 "  " +:+ DQ +:+ "usage" +:+ DQ +:+ ": {" +:+ LF +:+
                 "    " +:+ DQ +:+ "input_tokens" +:+ DQ +:+ ": 3," +:+ LF +:+
                 "    " +:+ DQ +:+ "output_tokens" +:+ DQ +:+ ": 7" +:+ LF +:+
                 "  }" +:+ LF +:+
                 "}")] |};
            au_append := false; au_lastChunk := true |});
     Pub (working_update "task-1" "ctx-1" "turn-completed" "2026-01-01T00:00:04Z");
     Pub (completed_update "task-1" "ctx-1" "2026-01-01T00:00:05Z");
     Fin].
Proof.
  rewrite (C9_simple_turn_publish_order env_json rc_hi 7 "item-1"
             (JObj [("input_tokens", JNum 3); ("output_tokens", JNum 7)]) initial_state).
  - reflexivity.
  - cbn. apply not_elem_of_empty.
  - intros H. discriminate H.
Defined.

(** ** Strings *)

Lemma app_empty_r (s : string) : s +:+ "" = s.
Proof. induction s as [|a s IH]; [done|]. unfold String.app in *. cbn. by rewrite IH. Qed.

Lemma app_cons a (s t : string) : String a s +:+ t = String a (s +:+ t).
Proof. reflexivity. Qed.

Lemma app_assoc' (a b c : string) : (a +:+ b) +:+ c = a +:+ b +:+ c.
Proof. induction a as [|x a IH]; [done|]. by rewrite !app_cons, IH. Qed.

Lemma length_app' (s t : string) : String.length (s +:+ t) = String.length s + String.length t.
Proof. induction s as [|a s IH]; [done|]. rewrite app_cons. cbn. by rewrite IH. Qed.

Lemma slice_app (p s : string) : slice (String.length p) (p +:+ s) = s.
Proof. induction p as [|a p IH]; [by destruct s|]. by rewrite app_cons. Qed.

Lemma nonempty_length s : (0 <? String.length s)%nat = nonempty s.
Proof. by destruct s. Qed.

Lemma app_nonempty (p s : string) : nonempty (p +:+ s) = nonempty p || nonempty s.
Proof. destruct p; [done|]. by rewrite app_cons. Qed.

Lemma join_cons (x : string) l : join "" (x :: l) = x +:+ join "" l.
Proof. destruct l; [by rewrite app_empty_r|done]. Qed.

Lemma join_app l1 l2 : join "" (l1 ++ l2) = join "" l1 +:+ join "" l2.
Proof.
  induction l1 as [|x l1 IH]; [done|].
  rewrite <- app_comm_cons, !join_cons, IH. by rewrite app_assoc'.
Qed.

(** ** Text deltas *)

(** What dispatching a text item does, when its text extends the text
    whose length is recorded for its id. *)
Lemma dispatch_item_text env c completed id reasoning prev suffix book st :
  default 0 (sentTextLengths book !! id) = String.length prev →
  let item := if reasoning : bool then ReasoningItem id (prev +:+ suffix)
              else AgentMessageItem id (prev +:+ suffix) in
  let r := dispatch_item env c completed item book st in
  omap (delta_of reasoning) (effects_of r) = (if nonempty suffix then [suffix] else []) ∧
  length (List.filter is_publish (effects_of r)) = (if nonempty suffix then 1 else 0) ∧
  default 0 (sentTextLengths (value_of r) !! id) = String.length (prev +:+ suffix) ∧
  (∀ j, j ≠ id → sentTextLengths (value_of r) !! j = sentTextLengths book !! j).
Proof.
  intros Hlen item r. subst item r.
  assert (Hgo : ∀ item, item = ReasoningItem id (prev +:+ suffix) ∨
                        item = AgentMessageItem id (prev +:+ suffix) →
    dispatch_item env c completed item book st =
      (if nonempty suffix then
         ((match item with
           | ReasoningItem _ _ => publishThought env (c_eventBus c) (c_taskId c) (c_contextId c) suffix
           | _ => publishTextContent env (c_eventBus c) (c_taskId c) (c_contextId c) suffix
           end) >> ret (set_length id (String.length (prev +:+ suffix)) book)) st
       else ret book st)).
  { intros item [-> | ->]; unfold dispatch_item;
      rewrite Hlen, slice_app, nonempty_length, app_nonempty;
      destruct (nonempty suffix) eqn:Hs; rewrite ?orb_true_r; try done;
      rewrite orb_false_r; destruct (nonempty prev) eqn:Hp; try done;
      destruct suffix; done. }
  destruct st as [ths twd ct tc u d n].
  destruct reasoning; (rewrite Hgo by auto);
    destruct (nonempty suffix) eqn:Hs; run; cbn; 
    rewrite ?lookup_insert_eq, ?Hlen; repeat split; try done;
    try (intros j Hj; by rewrite lookup_insert_ne); 
    try (destruct suffix; [|done]; by rewrite app_empty_r).
Qed.


Lemma yields_ret {A} (P : A → Prop) a : P a → yields P (ret a).
Proof. by intros H st. Qed.

Lemma yields_bind {A B} (Q : A → Prop) (P : B → Prop) (m : M A) (k : A → M B) :
  yields Q m → (∀ a, Q a → yields P (k a)) → yields P (bind m k).
Proof.
  intros Hm Hk st. specialize (Hm st). unfold bind, value_of in *.
  destruct (m st) as [[a st1] out1]. cbn in Hm. specialize (Hk a Hm st1).
  by destruct (k a st1) as [[b' st2] out2].
Qed.

Lemma yields_seq {A B} (P : B → Prop) (m : M A) (k : M B) :
  yields P k → yields P (bind m (λ _, k)).
Proof. intros Hk. apply (yields_bind (λ _, True)); [done|]. by intros _ _. Qed.

Lemma dispatch_item_invariant (P : Book → Prop) env c completed item book :
  P book →
  (∀ b n key, P b → length_key item = Some key → P (set_length key n b)) →
  (∀ b v key, P b → state_key item = Some key → P (set_state key v b)) →
  yields P (dispatch_item env c completed item book).
Proof.
  intros Hbook Hlen Hstate.
  destruct item; unfold dispatch_item; cbn in Hlen, Hstate;
    repeat first
      [ apply yields_ret
      | apply yields_seq
      | apply (yields_bind P); [|intros ? ?]
      | match goal with |- yields _ (if ?b then _ else _) => destruct b end
      | match goal with |- yields _ (match ?b with _ => _ end) => destruct b end ];
    eauto.
Qed.

Lemma dispatch_item_event env c e completed item book st :
  event_item e = Some (completed, item) →
  dispatch env c e book st =
    let '(book1, st1, out) := dispatch_item env c completed item book st in
    (Some book1, st1, Log (LogEvent e) :: out).
Proof.
  intros He. destruct e; try discriminate He; injection He as <- <-;
    unfold dispatch, bind, emit, ret;
    destruct (dispatch_item _ _ _ _ _ _) as [[book1 st1] out]; cbn;
    by rewrite app_nil_r.
Qed.

(** An event that is not on an item leaves the maps of the loop alone. *)
Lemma dispatch_no_item env c e book st book1 :
  event_item e = None →
  value_of (dispatch env c e book st) = Some book1 → book1 = book.
Proof.
  intros He. destruct e; try discriminate He; cbn; congruence.
Qed.

Lemma last_cons {A} (x d : A) l : List.last (x :: l) d = List.last l x.
Proof.
  revert x d. induction l as [|y l IH]; intros x d; [done|].
  change (List.last (y :: l) d = List.last (y :: l) x).
  by rewrite (IH y d), (IH y x).
Qed.


Lemma text_item_event e id reasoning text :
  text_item e = Some (id, reasoning, text) →
  ∃ completed,
    event_item e = Some (completed, if reasoning then ReasoningItem id text
                                    else AgentMessageItem id text).
Proof.
  unfold text_item. destruct (event_item e) as [[completed item]|]; [|done].
  destruct item; try done; intros [= <- <- <-]; by exists completed.
Qed.

Lemma dispatch_delta_step env c i e book st prev :
  default 0 (sentTextLengths book !! i) = String.length prev →
  (∀ completed id command output code status,
     event_item e = Some (completed, CommandExecutionItem id command output code status) →
     id +:+ ":output" ≠ i) →
  let r := dispatch env c e book st in
  let it := Dispatched e (effects_of r) in
  match observed_text i it with
  | Some text =>
      ∀ suffix, text = prev +:+ suffix →
        deltas_in i it = (if nonempty suffix then [suffix] else []) ∧
        only_deltas_in i it ∧
        ∃ book1, value_of r = Some book1 ∧
                 default 0 (sentTextLengths book1 !! i) = String.length text
  | None =>
      deltas_in i it = [] ∧ only_deltas_in i it ∧
      ∀ book1, value_of r = Some book1 →
               sentTextLengths book1 !! i = sentTextLengths book !! i
  end.
Proof.
  intros Hlen Hfree r it. subst r it. unfold observed_text, deltas_in, only_deltas_in.
  destruct (text_item e) as [[[id reasoning] text]|] eqn:Htext.
  - destruct (text_item_event _ _ _ _ Htext) as [completed He].
    rewrite (dispatch_item_event _ _ _ _ _ _ _ He).
    destruct (String.eqb_spec id i) as [->|Hne].
    + intros suffix ->.
      pose proof (dispatch_item_text env c completed i reasoning prev suffix book st Hlen)
        as (Hd & Hp & Hl & _).
      unfold effects_of, value_of in *.
      destruct (dispatch_item _ _ _ _ _ _) as [[book1 st1] out]. cbn [fst snd] in *.
      change (omap (delta_of reasoning) (Log (LogEvent e) :: out))
        with (omap (delta_of reasoning) out).
      change (List.filter is_publish (Log (LogEvent e) :: out))
        with (List.filter is_publish out).
      rewrite Hd, Hp. split; [done|]. split; [by destruct (nonempty suffix)|].
      by exists book1.
    + split; [done|]. split; [done|]. intros book1.
      pose proof (dispatch_item_invariant
                    (λ b, sentTextLengths b !! i = sentTextLengths book !! i) env c completed
                    (if reasoning then ReasoningItem id text else AgentMessageItem id text)
                    book eq_refl) as Hinv.
      unfold yields, value_of in *. specialize (λ H1 H2, Hinv H1 H2 st).
      destruct (dispatch_item _ _ _ _ _ _) as [[book2 st1] out]. cbn [fst snd] in *.
      intros [= <-]. apply Hinv.
      * intros b n key Hb Hk. cbn. rewrite lookup_insert_ne; [done|].
        destruct reasoning; cbn in Hk; congruence.
      * by intros b v key Hb Hk.
  - split; [done|]. split; [done|]. intros book1.
    destruct (event_item e) as [[completed item]|] eqn:He.
    + rewrite (dispatch_item_event _ _ _ _ _ _ _ He).
      pose proof (dispatch_item_invariant
                    (λ b, sentTextLengths b !! i = sentTextLengths book !! i) env c completed
                    item book eq_refl) as Hinv.
      unfold yields, value_of in *. specialize (λ H1 H2, Hinv H1 H2 st).
      destruct (dispatch_item _ _ _ _ _ _) as [[book2 st1] out]. cbn [fst snd] in *.
      intros [= <-]. apply Hinv.
      * intros b n key Hb Hk. cbn. rewrite lookup_insert_ne; [done|].
        unfold text_item in Htext. rewrite He in Htext.
        destruct item; try done. cbn in Hk. injection Hk as <-.
        by eapply Hfree.
      * by intros b v key Hb Hk.
    + intros Hv. by rewrite (dispatch_no_item env c e book st book1 He Hv).
Qed.

Lemma observed_texts_cons i it its :
  observed_texts i (it :: its) =
    match observed_text i it with
    | Some t => t :: observed_texts i its
    | None => observed_texts i its
    end.
Proof. reflexivity. Qed.

Lemma published_deltas_cons i it its :
  published_deltas i (it :: its) = deltas_in i it ++ published_deltas i its.
Proof. reflexivity. Qed.

Lemma for_await_deltas env c i : ∀ events book st prev,
  default 0 (sentTextLengths book !! i) = String.length prev →
  grows prev (observed_texts i (for_await env c events book st).2) →
  output_key_free i events →
  prev +:+ join "" (published_deltas i (for_await env c events book st).2) =
    List.last (observed_texts i (for_await env c events book st).2) prev
  ∧ Forall (λ d, d ≠ "") (published_deltas i (for_await env c events book st).2)
  ∧ only_deltas i (for_await env c events book st).2.
Proof.
  induction events as [|e rest IH]; intros book st prev Hlen Hgrow Hfree.
  { cbn. rewrite app_empty_r. repeat split; constructor. }
  assert (Hfree' : output_key_free i rest).
  { intros e' ? ? ? ? ? ? Hin. apply Hfree. by right. }
  assert (Hfree0 : ∀ completed id command output code status,
     event_item e = Some (completed, CommandExecutionItem id command output code status) →
     id +:+ ":output" ≠ i).
  { intros. eapply Hfree; [by left|done]. }
  cbn [for_await] in *. case_bool_decide as Hc.
  { destruct (publishCanceled _ _ _ _ _) as [[u st1] out]. cbn.
    rewrite app_empty_r. repeat split; repeat constructor. }
  pose proof (dispatch_delta_step env c i e book st prev Hlen Hfree0) as Hstep.
  cbv zeta in Hstep. unfold effects_of, value_of in Hstep.
  destruct (dispatch env c e book st) as [[next st1] out]. cbn [fst snd] in Hstep.
  destruct next as [book1|].
  - specialize (IH book1 st1).
    destruct (for_await env c rest book1 st1) as [[outcome st2] its].
    cbn [snd] in *. rewrite observed_texts_cons, published_deltas_cons in *.
    destruct (observed_text i (Dispatched e out)) as [text|].
    + cbn [grows] in Hgrow. destruct Hgrow as [[suffix ->] Hgrow].
      destruct (Hstep suffix eq_refl) as (Hd & Ho & book2 & [= <-] & Hl).
      destruct (IH _ Hl Hgrow Hfree') as (H1 & H2 & H3).
      rewrite Hd, join_app, last_cons, <- H1.
      split; [|split].
      * destruct (nonempty suffix) eqn:Hs.
        -- cbn [join]. by rewrite app_assoc'.
        -- destruct suffix; [|done]. cbn [join]. by rewrite !app_empty_r.
      * apply Forall_app. split; [|done].
        destruct suffix; cbn; repeat constructor. done.
      * by constructor.
    + destruct Hstep as (Hd & Ho & Hb).
      assert (Hl : default 0 (sentTextLengths book1 !! i) = String.length prev).
      { by rewrite (Hb book1 eq_refl). }
      destruct (IH _ Hl Hgrow Hfree') as (H1 & H2 & H3).
      rewrite Hd. cbn [app]. split; [done|]. split; [done|]. by constructor.
  - cbn [snd] in *. rewrite observed_texts_cons, published_deltas_cons in *.
    destruct (observed_text i (Dispatched e out)) as [text|].
    + cbn [grows] in Hgrow. destruct Hgrow as [[suffix ->] _].
      by destruct (Hstep suffix eq_refl) as (Hd & Ho & book2 & [=] & _).
    + destruct Hstep as (Hd & Ho & _). rewrite Hd. cbn. rewrite app_empty_r.
      repeat split; repeat constructor. done.
Qed.

(** The effects of [execute] are those of its first lines, then those of
    the turns of the loop, then those of its last lines when the stream
    was exhausted. *)
Lemma execute_effects env rc b events st :
  ∃ tail,
    effects_of (execute env rc b events st) =
      effects_of (execute_begin env rc b st) ++
      flatten (execute_iterations env rc b events st) ++ tail.
Proof.
  unfold execute, execute_iterations, effects_of.
  destruct (execute_begin env rc b st) as [[[c|] st1] out1]; cbn [snd].
  - destruct (for_await env c events empty_book st1) as [[[book|] st2] its]; cbn [snd].
    + destruct (execute_end env c st2) as [[u st3] out3]. by exists out3.
    + exists []. by rewrite app_nil_r.
  - exists []. by rewrite app_nil_r.
Qed.

(** C3, as stated, fails: the lengths sent for a command execution with
    id "a" are kept under the key "a:output", where an agent message with
    that id finds them; its one observed text is "hello", and of it only
    "lo" is published. *)
Lemma C3_output_key_clash :
  grows "" (observed_texts "a:output"
              (execute_iterations env0 rc_hi 7 stream_clash initial_state)) ∧
  List.last (observed_texts "a:output"
               (execute_iterations env0 rc_hi 7 stream_clash initial_state)) "" = "hello" ∧
  join "" (published_deltas "a:output"
             (execute_iterations env0 rc_hi 7 stream_clash initial_state)) = "lo" ∧
  join "" (published_deltas "a:output"
             (execute_iterations env0 rc_hi 7 stream_clash initial_state)) ≠
  List.last (observed_texts "a:output"
               (execute_iterations env0 rc_hi 7 stream_clash initial_state)) "".
Proof.
  split; [split; [by exists "hello"|exact I]|].
  split; [reflexivity|]. split; [reflexivity|].
  intros H. discriminate H.
Qed.

(** C3, amended: for an item id [i] whose observed texts grow, each an
    extension of the one before, and which is not the output key
    [c:output] of a command execution item [c] of the stream: the deltas
    published for [i], joined in order of publication, are the last text
    observed for [i]; no published delta is empty; and every publication
    made while an event on [i] is dispatched is such a delta, a non-final
    Working update tagged "thought" with a data part for a reasoning
    item, tagged "text-content" with a text part for an agent message. *)
Theorem C3_deltas_join_to_final_text env rc b events st i :
  grows "" (observed_texts i (execute_iterations env rc b events st)) →
  output_key_free i events →
  join "" (published_deltas i (execute_iterations env rc b events st)) =
    List.last (observed_texts i (execute_iterations env rc b events st)) ""
  ∧ Forall (λ d, d ≠ "") (published_deltas i (execute_iterations env rc b events st))
  ∧ only_deltas i (execute_iterations env rc b events st).
Proof.
  unfold execute_iterations.
  destruct (execute_begin env rc b st) as [[[c|] st1] out1].
  - intros Hgrow Hfree.
    by apply (for_await_deltas env c i events empty_book st1 "").
  - intros _ _. repeat split; constructor.
Qed.

Lemma C3_witness :
  join "" (published_deltas "item-2"
             (execute_iterations env0 rc_hi 7 stream_growing initial_state)) =
    "Streaming done".
Proof.
  refine (proj1 (C3_deltas_join_to_final_text env0 rc_hi 7 stream_growing
                   initial_state "item-2" _ _)).
  - split; [by exists "Stream"|]. split; [by exists "ing"|].
    split; [by exists " done"|exact I].
  - intros e completed id command output code status Hin He.
    unfold stream_growing in Hin.
    repeat (apply elem_of_cons in Hin as [->|Hin]; [discriminate He|]).
    by apply elem_of_nil in Hin.
Defined.

(** ** Tool updates *)

Ltac split_ifs :=
  repeat match goal with
         | |- context [if ?b then _ else _] => destruct b eqn:?
         end.

Ltac step_ifs :=
  repeat (progress (split_ifs; run;
                    cbn [sentTextLengths sentItemStates set_state set_length]));
  run.

Lemma dispatch_item_tool_hit env c completed item book st i reports :
  tool_item item = Some (i, reports) →
  let s := sentItemStates book !! (i +:+ ":state") in
  valid_state s →
  let r := dispatch_item env c completed item book st in
  count (is_started_update i) (effects_of r) = (if str_truthy s then 0 else 1) ∧
  count (is_terminal_update i) (effects_of r) =
    (if completed && negb (is_completed_state s) && reports then 1 else 0) ∧
  sentItemStates (value_of r) !! (i +:+ ":state") = next_state completed s.
Proof.
  intros Hev s Hs r. subst r s. destruct st as [ths twd ct tc u d n].
  destruct item; try discriminate Hev; injection Hev as -> <-.
  - unfold dispatch_item, is_completed_state.
    destruct Hs as [Hs|[Hs|Hs]]; rewrite Hs; destruct completed;
      cbv zeta; cbn [str_truthy nonempty negb andb bool_decide decide_rel];
      step_ifs; unfold count; cbn;
      rewrite ?String.eqb_refl, ?lookup_insert_eq; cbn; try done.
  - unfold dispatch_item, is_completed_state.
    destruct Hs as [Hs|[Hs|Hs]]; rewrite Hs; destruct completed;
      cbv zeta; cbn [str_truthy nonempty negb andb bool_decide decide_rel];
      step_ifs; unfold count; cbn;
      rewrite ?String.eqb_refl, ?lookup_insert_eq; cbn; try done.
Qed.

(** Dispatching an item that is not tool item [i] publishes no started
    and no terminal update for [i]. *)
Lemma dispatch_item_tool_miss env c completed item book st i :
  (∀ reports, tool_item item ≠ Some (i, reports)) →
  let r := dispatch_item env c completed item book st in
  count (is_started_update i) (effects_of r) = 0 ∧
  count (is_terminal_update i) (effects_of r) = 0.
Proof.
  intros Hev r. subst r. destruct st as [ths twd ct tc u d n].
  destruct item; unfold dispatch_item; cbv zeta; cbn in Hev;
    try (assert (Hne : String.eqb id i = false)
           by (apply String.eqb_neq; intros ->; by eapply Hev));
    step_ifs; unfold count; cbn; rewrite ?Hne; cbn; try done;
    by destruct (String.eqb id i).
Qed.

Lemma app_inj_r (a b s : string) : a +:+ s = b +:+ s → a = b.
Proof.
  revert b. induction a as [|x a IH]; intros [|y b] H.
  - done.
  - apply (f_equal String.length) in H. rewrite !length_app' in H. cbn in H. lia.
  - apply (f_equal String.length) in H. rewrite !length_app' in H. cbn in H. lia.
  - change (String x (a +:+ s) = String y (b +:+ s)) in H.
    injection H as -> H. f_equal. by apply IH.
Qed.

Lemma dispatch_item_state_miss env c completed item book st i :
  (∀ reports, tool_item item ≠ Some (i, reports)) →
  sentItemStates (value_of (dispatch_item env c completed item book st)) !! (i +:+ ":state") =
  sentItemStates book !! (i +:+ ":state").
Proof.
  intros Hev.
  apply (dispatch_item_invariant
           (λ b, sentItemStates b !! (i +:+ ":state") = sentItemStates book !! (i +:+ ":state")));
    [done|by intros|].
  intros b v key Hb Hk. cbn. rewrite lookup_insert_ne; [done|].
  intros ->. destruct item; try discriminate Hk; injection Hk as Hk;
    apply app_inj_r in Hk; subst; by eapply Hev.
Qed.

Lemma count_app f out1 out2 : count f (out1 ++ out2) = count f out1 + count f out2.
Proof. unfold count. by rewrite List.filter_app, length_app. Qed.

Lemma count_log f e out :
  f (Log e) = false → count f (Log e :: out) = count f out.
Proof. intros H. unfold count. cbn. by rewrite H. Qed.

Lemma tool_events_cons i it its :
  tool_events i (it :: its) =
    match tool_event_in i it with
    | Some x => x :: tool_events i its
    | None => tool_events i its
    end.
Proof. reflexivity. Qed.

Lemma flatten_cons it its : flatten (it :: its) = iteration_effects it ++ flatten its.
Proof. reflexivity. Qed.

Lemma valid_next completed s : valid_state s → valid_state (next_state completed s).
Proof.
  unfold valid_state, next_state.
  intros [-> | [-> | ->]]; destruct completed; auto.
Qed.

(** One turn of the loop, seen from tool item [i]. *)
Lemma dispatch_tool_step env c i e book st :
  let s := sentItemStates book !! (i +:+ ":state") in
  valid_state s →
  let r := dispatch env c e book st in
  match tool_event_in i (Dispatched e (effects_of r)) with
  | Some (completed, reports) =>
      count (is_started_update i) (effects_of r) = (if str_truthy s then 0 else 1) ∧
      count (is_terminal_update i) (effects_of r) =
        (if completed && negb (is_completed_state s) && reports then 1 else 0) ∧
      ∃ book1, value_of r = Some book1 ∧
               sentItemStates book1 !! (i +:+ ":state") = next_state completed s
  | None =>
      count (is_started_update i) (effects_of r) = 0 ∧
      count (is_terminal_update i) (effects_of r) = 0 ∧
      ∀ book1, value_of r = Some book1 →
               sentItemStates book1 !! (i +:+ ":state") = s
  end.
Proof.
  intros s Hs r. subst r s. unfold tool_event_in, tool_event.
  destruct (event_item e) as [[completed item]|] eqn:He.
  - rewrite (dispatch_item_event _ _ _ _ _ _ _ He).
    pose proof (dispatch_item_tool_hit env c completed item book st i) as Hhit.
    pose proof (dispatch_item_tool_miss env c completed item book st i) as Hmiss.
    pose proof (dispatch_item_state_miss env c completed item book st i) as Hkeep.
    cbv zeta in Hhit, Hmiss. unfold effects_of, value_of in *.
    destruct (dispatch_item _ _ _ _ _ _) as [[book1 st1] out]. cbn [fst snd] in *.
    rewrite !count_log by done.
    destruct (tool_item item) as [[id reports]|] eqn:Hitem.
    + destruct (String.eqb_spec id i) as [->|Hne].
      * destruct (Hhit reports eq_refl Hs) as (H1 & H2 & H3).
        split; [done|]. split; [done|]. by exists book1.
      * assert (Hno : ∀ reports' : bool, Some (id, reports) ≠ Some (i, reports'))
          by (intros ? [= ? ?]; done).
        destruct (Hmiss Hno) as [H1 H2]. split; [done|]. split; [done|].
        intros ? [= <-]. by apply Hkeep.
    + assert (Hno : ∀ reports' : bool, @None (string * bool) ≠ Some (i, reports')) by done.
      destruct (Hmiss Hno) as [H1 H2]. split; [done|]. split; [done|].
      intros ? [= <-]. by apply Hkeep.
  - destruct st as [ths twd ct tc u d n].
    destruct e; try discriminate He; cbn; repeat split; try done; by intros ? [= <-].
Qed.

Lemma publishCanceled_no_tool_update env b t c st i :
  count (is_started_update i) (effects_of (publishCanceled env b t c st)) = 0 ∧
  count (is_terminal_update i) (effects_of (publishCanceled env b t c st)) = 0.
Proof. destruct st, c; by cbn. Qed.

Lemma for_await_tool_updates env c i : ∀ events book st,
  valid_state (sentItemStates book !! (i +:+ ":state")) →
  count (is_started_update i) (flatten (for_await env c events book st).2) =
    started_expected (sentItemStates book !! (i +:+ ":state"))
      (tool_events i (for_await env c events book st).2)
  ∧ count (is_terminal_update i) (flatten (for_await env c events book st).2) =
    terminal_expected (sentItemStates book !! (i +:+ ":state"))
      (tool_events i (for_await env c events book st).2).
Proof.
  induction events as [|e rest IH]; intros book st Hs.
  { unfold started_expected, terminal_expected. cbn.
    by destruct (str_truthy _), (is_completed_state _). }
  cbn [for_await]. case_bool_decide as Hc.
  { pose proof (publishCanceled_no_tool_update env (c_eventBus c) (c_taskId c)
                  (Some (c_contextId c)) st i) as [H1 H2].
    unfold effects_of in *.
    destruct (publishCanceled _ _ _ _ _) as [[u st1] out]. cbn [snd] in *.
    rewrite flatten_cons, !count_app, tool_events_cons. cbn [iteration_effects tool_event_in].
    rewrite H1, H2. unfold started_expected, terminal_expected. cbn.
    by destruct (str_truthy _), (is_completed_state _). }
  pose proof (dispatch_tool_step env c i e book st Hs) as Hstep.
  cbv zeta in Hstep. unfold effects_of, value_of in Hstep.
  destruct (dispatch env c e book st) as [[next st1] out]. cbn [fst snd] in Hstep.
  destruct next as [book1|].
  - specialize (IH book1 st1).
    destruct (for_await env c rest book1 st1) as [[outcome st2] its].
    cbn [snd] in *. rewrite flatten_cons, !count_app, tool_events_cons.
    cbn [iteration_effects].
    destruct (tool_event_in i (Dispatched e out)) as [[completed reports]|].
    + destruct Hstep as (H1 & H2 & book2 & [= <-] & H3).
      rewrite H3 in IH. destruct (IH (valid_next completed _ Hs)) as [IH1 IH2].
      rewrite H1, H2, IH1, IH2. unfold started_expected, terminal_expected, first_completed.
      cbn [List.find fst].
      destruct Hs as [-> | [-> | ->]]; destruct completed, reports; by cbn.
    + destruct Hstep as (H1 & H2 & H3).
      rewrite (H3 book1 eq_refl) in IH. destruct (IH Hs) as [IH1 IH2].
      by rewrite H1, H2, IH1, IH2.
  - cbn [snd]. rewrite flatten_cons, !count_app, tool_events_cons. cbn [iteration_effects].
    destruct (tool_event_in i (Dispatched e out)) as [[completed reports]|].
    + by destruct Hstep as (_ & _ & book2 & [=] & _).
    + destruct Hstep as (H1 & H2 & _). rewrite H1, H2.
      unfold started_expected, terminal_expected. cbn.
      by destruct (str_truthy _), (is_completed_state _).
Qed.

(** The number of started and of terminal updates published for a tool
    item id in a call of [execute]. *)
Lemma tool_update_counts env rc b events st i :
  count (is_started_update i) (flatten (execute_iterations env rc b events st)) =
    match tool_events i (execute_iterations env rc b events st) with
    | [] => 0
    | _ :: _ => 1
    end
  ∧ count (is_terminal_update i) (flatten (execute_iterations env rc b events st)) =
    match first_completed (tool_events i (execute_iterations env rc b events st)) with
    | Some (_, true) => 1
    | _ => 0
    end.
Proof.
  unfold execute_iterations.
  destruct (execute_begin env rc b st) as [[[c|] st1] out1]; [|done].
  apply (for_await_tool_updates env c i events empty_book st1). by left.
Qed.

(** C4, amended: for a tool item id [i] (command execution or mcp tool
    call) whose first dispatched [item.completed] event is on a command
    execution, or on an mcp tool call that has an error or a result:
    however many events on [i] are dispatched before and after it,
    [execute] publishes exactly one started update for [i] (the one with
    the command and no exit code, or with server, tool and arguments)
    and exactly one terminal update for [i] (the one with the exit code,
    or with the error, or with the result).  Without that condition
    there is still at most one of each. *)
Theorem C4_tool_updates_exactly_once env rc b events st i :
  (first_completed (tool_events i (execute_iterations env rc b events st)) =
     Some (true, true) →
   count (is_started_update i) (flatten (execute_iterations env rc b events st)) = 1 ∧
   count (is_terminal_update i) (flatten (execute_iterations env rc b events st)) = 1) ∧
  (count (is_started_update i) (flatten (execute_iterations env rc b events st)) ≤ 1)%nat ∧
  (count (is_terminal_update i) (flatten (execute_iterations env rc b events st)) ≤ 1)%nat.
Proof.
  destruct (tool_update_counts env rc b events st i) as [-> ->].
  split; [|split].
  - intros Hfirst. rewrite Hfirst. split; [|done].
    destruct (tool_events i _); [discriminate Hfirst|done].
  - destruct (tool_events i _); lia.
  - destruct (first_completed _) as [[? []]|]; lia.
Qed.

Lemma C4_witness :
  count (is_started_update "cmd-1")
    (flatten (execute_iterations env0 rc_hi 7 stream_command initial_state)) = 1 ∧
  count (is_terminal_update "cmd-1")
    (flatten (execute_iterations env0 rc_hi 7 stream_command initial_state)) = 1.
Proof.
  apply (proj1 (C4_tool_updates_exactly_once env0 rc_hi 7 stream_command
                  initial_state "cmd-1")).
  reflexivity.
Defined.

(** C4, as stated, fails: an mcp tool call that completes with neither
    error nor result gets its started update and no terminal update. *)
Lemma C4_silent_mcp_completion :
  tool_events "mcp-1" (execute_iterations env0 rc_hi 7 stream_mcp_silent initial_state) =
    [(false, false); (true, false)] ∧
  count (is_started_update "mcp-1")
    (flatten (execute_iterations env0 rc_hi 7 stream_mcp_silent initial_state)) = 1 ∧
  count (is_terminal_update "mcp-1")
    (flatten (execute_iterations env0 rc_hi 7 stream_mcp_silent initial_state)) ≠ 1.
Proof. repeat split; [reflexivity..|]. intros H. discriminate H. Qed.

(** ** Cancellation while the loop runs *)

(** Whatever the state, once [cancelTask] has returned, the check before
    the next event finds no mark: the event is dispatched. *)
Lemma cancel_is_never_observed env c b event rest book st :
  first_is_dispatched
    (for_await env c (event :: rest) book
       (state_of (cancelTask env (c_taskId c) b st))).2 = true.
Proof.
  cbn [for_await].
  rewrite bool_decide_eq_false_2 by apply cancelTask_leaves_no_mark.
  destruct (dispatch _ _ _ _ _) as [[[book1|] st1] out]; [|done].
  by destruct (for_await _ _ _ _ _) as [[o s] i].
Qed.

(** C1, on the code, where it does not hold: [cancelTask] is called for
    "task-1" after the first of three events was dispatched.  The
    Canceled update is published by [cancelTask] itself, which also
    clears the mark; [execute] goes on, dispatches the two remaining
    events, publishes Completed and calls [finished] once more. *)
Theorem C1_cancel_midstream_goes_unnoticed :
  bus_calls 7 (effects_of (execute_interrupted env0 1 rc_hi 7 7 stream_hello initial_state)) =
    [Pub (initial_task rc_hi "2026-01-01T00:00:00Z");
     Pub (working_update "task-1" "ctx-1" "state-change" "2026-01-01T00:00:01Z");
     Pub (working_update "task-1" "ctx-1" "turn-started" "2026-01-01T00:00:02Z");
     Pub (canceled_update "task-1" "ctx-1" "uuid-0" "2026-01-01T00:00:03Z");
     Fin;
     Pub (status_update "task-1" "ctx-1" Working false
            (Some (agent_message "uuid-1" "task-1" "ctx-1" (TextPart "Hello world")))
            "text-content" "2026-01-01T00:00:04Z");
     Pub (EvArtifact {|
            au_taskId := "task-1"; au_contextId := "ctx-1";
            au_artifact := {| artifactId := "tool-turn-usage-output";
                              a_parts := [TextPart "{json}"] |};
            au_append := false; au_lastChunk := true |});
     Pub (working_update "task-1" "ctx-1" "turn-completed" "2026-01-01T00:00:05Z");
     Pub (completed_update "task-1" "ctx-1" "2026-01-01T00:00:06Z");
     Fin].
Proof. vm_compute. reflexivity. Qed.

(** ** Cancellation before [execute] starts *)

(** C2, on the code, where it does not hold.  The one way to have a task
    marked canceled before [execute] starts is a call of [cancelTask]
    for it; here it is made for "task-1" on a new executor, before
    [execute] is called for that task.  [cancelTask] publishes Canceled
    (for a context id that it draws, none being on record) and calls
    [finished] on its bus, and clears the mark before it returns.
    [execute] then finds no mark: it starts a thread, runs it on the
    input, dispatches the three events of the stream, publishes
    Completed and calls [finished]; it publishes no Canceled update. *)
Theorem C2_precancel_is_forgotten :
  let st := state_of (cancelTask env0 "task-1" 9 initial_state) in
  let r := execute env0 rc_hi 7 stream_hello st in
  reachable st ∧
  bus_calls 9 (effects_of (cancelTask env0 "task-1" 9 initial_state)) =
    [Pub (canceled_update "task-1" "uuid-1" "uuid-0" "2026-01-01T00:00:00Z"); Fin] ∧
  ("task-1" ∉ canceledTasks st) ∧
  factory_calls (effects_of r) = 1 ∧
  ran (effects_of r) = [(0, "Hi")] ∧
  bus_calls 7 (effects_of r) =
    [Pub (initial_task rc_hi "2026-01-01T00:00:01Z");
     Pub (working_update "task-1" "ctx-1" "state-change" "2026-01-01T00:00:02Z");
     Pub (working_update "task-1" "ctx-1" "turn-started" "2026-01-01T00:00:03Z");
     Pub (status_update "task-1" "ctx-1" Working false
            (Some (agent_message "uuid-2" "task-1" "ctx-1" (TextPart "Hello world")))
            "text-content" "2026-01-01T00:00:04Z");
     Pub (EvArtifact {|
            au_taskId := "task-1"; au_contextId := "ctx-1";
            au_artifact := {| artifactId := "tool-turn-usage-output";
                              a_parts := [TextPart "{json}"] |};
            au_append := false; au_lastChunk := true |});
     Pub (working_update "task-1" "ctx-1" "turn-completed" "2026-01-01T00:00:05Z");
     Pub (completed_update "task-1" "ctx-1" "2026-01-01T00:00:06Z");
     Fin].
Proof.
  intros st r. subst st r.
  split; [apply rtc_once, step_cancel|].
  split; [vm_compute; reflexivity|].
  split; [apply cancelTask_leaves_no_mark|].
  vm_compute. by repeat split.
Qed.

(** ** What one execution publishes *)

Lemma counters_only_refl st : counters_only st st.
Proof. by repeat split. Qed.

Lemma counters_only_trans st1 st2 st3 :
  counters_only st1 st2 → counters_only st2 st3 → counters_only st1 st3.
Proof.
  intros (? & ? & ? & ? & ? & ? & ?) (? & ? & ? & ? & ? & ? & ?).
  repeat split; try congruence; lia.
Qed.

Section Obeys.

Variable R : State → State → Prop.

Variable P : Effect → Prop.

Hypothesis R_refl : ∀ st, R st st.

Hypothesis R_trans : ∀ st1 st2 st3, R st1 st2 → R st2 st3 → R st1 st3.

Hypothesis R_draw : ∀ st, R st (draw st).

Hypothesis R_tick : ∀ st, R st (tick st).

Lemma obeys_ret {A} (a : A) : obeys R P (ret a).
Proof. intros st. split; [apply R_refl|constructor]. Qed.

Lemma obeys_bind {A B} (m : M A) (k : A → M B) :
  obeys R P m → (∀ a, obeys R P (k a)) → obeys R P (bind m k).
Proof.
  intros Hm Hk st. unfold bind, state_of, effects_of.
  specialize (Hm st). unfold state_of, effects_of in Hm.
  destruct (m st) as [[a st1] out1]. cbn [fst snd] in Hm.
  specialize (Hk a st1). unfold state_of, effects_of in Hk.
  destruct (k a st1) as [[b st2] out2]. cbn [fst snd] in Hk |- *.
  destruct Hm as [Hs1 Hp1], Hk as [Hs2 Hp2].
  split; [by eapply R_trans|]. by apply Forall_app.
Qed.

Lemma obeys_emit e : P e → obeys R P (emit e).
Proof. intros He st. split; [apply R_refl|]. by repeat constructor. Qed.

Lemma obeys_newUUID env : obeys R P (newUUID env).
Proof. intros st. split; [apply R_draw|constructor]. Qed.

Lemma obeys_newDate env : obeys R P (newDate env).
Proof. intros st. split; [apply R_tick|constructor]. Qed.

End Obeys.

Lemma counters_only_draw st : counters_only st (draw st).
Proof. repeat split; cbn; lia. Qed.

Lemma counters_only_tick st : counters_only st (tick st).
Proof. repeat split; cbn; lia. Qed.

Ltac obeys_loop :=
  repeat first
    [ apply obeys_ret; [apply counters_only_refl]
    | apply obeys_newUUID; [apply counters_only_draw]
    | apply obeys_newDate; [apply counters_only_tick]
    | apply obeys_emit; [apply counters_only_refl | cbn; by repeat split]
    | apply obeys_bind; [apply counters_only_trans | | intros ?]
    | match goal with |- obeys _ _ (match ?x with _ => _ end) => destruct x end ].

Lemma publishStatus_in_loop env b t c m k :
  message_for t c m →
  obeys counters_only (in_loop b t c) (publishStatus env b t c Working false m k).
Proof.
  intros Hm. unfold publishStatus.
  apply obeys_bind; [apply counters_only_trans|apply obeys_newDate; apply counters_only_tick|].
  intros now. apply obeys_emit; [apply counters_only_refl|]. by cbn.
Qed.

Lemma dispatch_item_in_loop env c completed item book :
  obeys counters_only (in_loop (c_eventBus c) (c_taskId c) (c_contextId c))
    (dispatch_item env c completed item book).
Proof.
  unfold dispatch_item, publishTextContent, publishThought, publishToolUpdate,
    publishToolOutput.
  destruct item;
    repeat first
      [ apply publishStatus_in_loop; by cbn
      | apply obeys_ret; [apply counters_only_refl]
      | apply obeys_newUUID; [apply counters_only_draw]
      | apply obeys_emit; [apply counters_only_refl | cbn; by repeat split]
      | apply obeys_bind; [apply counters_only_trans | | intros ?]
      | match goal with |- obeys _ _ (if ?x then _ else _) => destruct x end
      | match goal with |- obeys _ _ (match ?x with _ => _ end) => destruct x end ].
Qed.

Lemma dispatch_in_loop env c e book :
  is_turn_failed e = false →
  obeys counters_only (in_loop (c_eventBus c) (c_taskId c) (c_contextId c))
    (dispatch env c e book).
Proof.
  intros He. unfold dispatch, publishToolOutput.
  destruct e; try discriminate He;
    repeat first
      [ apply dispatch_item_in_loop
      | apply publishStatus_in_loop; by cbn
      | apply obeys_ret; [apply counters_only_refl]
      | apply obeys_emit; [apply counters_only_refl | cbn; by repeat split]
      | apply obeys_bind; [apply counters_only_trans | | intros ?] ].
Qed.

Lemma dispatch_continues env c e book st :
  is_turn_failed e = false → ∃ book1, value_of (dispatch env c e book st) = Some book1.
Proof.
  intros He. destruct (event_item e) as [[completed item]|] eqn:Hi.
  - rewrite (dispatch_item_event _ _ _ _ _ _ _ Hi).
    destruct (dispatch_item _ _ _ _ _ _) as [[book1 st1] out]. by exists book1.
  - destruct e; try discriminate He; try discriminate Hi; by exists book.
Qed.

Lemma dispatch_TurnFailed env c m book st :
  dispatch env c (TurnFailed m) book st =
    (None, tick (draw st),
     [Log (LogEvent (TurnFailed m));
      Publish (c_eventBus c)
        (failed_update (c_taskId c) (c_contextId c) (randomUUID env (uuids st))
           ("Error: " +:+ m) (toISOString env (dates st)));
      Finished (c_eventBus c)]).
Proof. reflexivity. Qed.

(** The loop when the task is not marked canceled. *)
Lemma for_await_unmarked env c events : ∀ book st,
  c_taskId c ∉ canceledTasks st →
  counters_only st (for_await env c events book st).1.2 ∧
  match first_failure events with
  | None =>
      (∃ book1, (for_await env c events book st).1.1 = Exhausted book1) ∧
      Forall (in_loop (c_eventBus c) (c_taskId c) (c_contextId c))
        (flatten (for_await env c events book st).2)
  | Some m =>
      (for_await env c events book st).1.1 = Returned ∧
      ∃ pre uuid now,
        flatten (for_await env c events book st).2 =
          pre ++ [Publish (c_eventBus c)
                    (failed_update (c_taskId c) (c_contextId c) uuid ("Error: " +:+ m) now);
                  Finished (c_eventBus c)] ∧
        Forall (in_loop (c_eventBus c) (c_taskId c) (c_contextId c)) pre
  end.
Proof.
  induction events as [|e rest IH]; intros book st Hc.
  { cbn. split; [apply counters_only_refl|]. split; [by exists book|constructor]. }
  rewrite for_await_cons by done.
  destruct (is_turn_failed e) eqn:He.
  - destruct e; try discriminate He. rewrite dispatch_TurnFailed. cbn.
    split; [apply (counters_only_trans _ (draw st)); [apply counters_only_draw|apply counters_only_tick]|].
    split; [done|].
    exists [Log (LogEvent (TurnFailed error_message))], (randomUUID env (uuids st)),
      (toISOString env (dates st)).
    split; [done|]. by repeat constructor.
  - destruct (dispatch_continues env c e book st He) as [book1 Hv].
    pose proof (dispatch_in_loop env c e book He st) as [Hs Hp].
    unfold value_of, state_of, effects_of in *.
    destruct (dispatch env c e book st) as [[next st1] out]. cbn [fst snd] in *. subst next.
    assert (Hc1 : c_taskId c ∉ canceledTasks st1).
    { destruct Hs as (_ & _ & -> & _). done. }
    specialize (IH book1 st1 Hc1).
    destruct (for_await env c rest book1 st1) as [[outcome st2] its].
    cbn [fst snd] in *. rewrite flatten_cons. cbn [iteration_effects].
    destruct IH as [Hs2 IH].
    split; [by eapply counters_only_trans|].
    assert (Hff : first_failure (e :: rest) = first_failure rest) by (by destruct e).
    rewrite Hff. destruct (first_failure rest) as [m|].
    + destruct IH as (Ho & pre & uuid & now & Hf & Hpre). split; [done|].
      exists (out ++ pre), uuid, now. rewrite Hf, app_assoc. split; [done|].
      by apply Forall_app.
    + destruct IH as [Ho Hall]. split; [done|]. by apply Forall_app.
Qed.

Lemma in_loop_before b t c e : in_loop b t c e → before_terminal b t c e.
Proof. destruct e as [b' [k|u|a]| | | |]; cbn; tauto. Qed.

Lemma opening_before rc b env st :
  Forall (before_terminal b (rc_taskId rc) (rc_contextId rc)) (opening rc b env st).
Proof. unfold opening. destruct (rc_task rc); repeat constructor. Qed.

Lemma execute_begin_canceled env rc b st :
  rc_taskId rc ∈ canceledTasks st →
  execute_begin env rc b st =
    (None,
     with_taskContexts (delete (rc_taskId rc))
       (with_canceledTasks (λ s, s ∖ {[rc_taskId rc]}) (tick (draw (entered rc st)))),
     opening rc b env st ++
     [Publish b (canceled_update (rc_taskId rc) (rc_contextId rc)
                  (randomUUID env (uuids st)) (toISOString env (S (S (dates st)))))]).
Proof.
  intros Hin. destruct st as [th twd ct tc u d n]; cbn in Hin.
  destruct rc as [t c m [task|]]; cbn in Hin |- *;
    unfold execute_begin, opening, entered; run; cbn;
    rewrite (bool_decide_eq_true_2 _ Hin); run; reflexivity.
Qed.

Lemma execute_begin_empty env rc b st :
  rc_taskId rc ∉ canceledTasks st →
  text_of (rc_userMessage rc) = "" →
  execute_begin env rc b st =
    (None, tick (draw (entered rc st)),
     opening rc b env st ++
     [Publish b (failed_update (rc_taskId rc) (rc_contextId rc)
                  (randomUUID env (uuids st)) "Error: No text content"
                  (toISOString env (S (S (dates st)))));
      Finished b]).
Proof.
  intros Hin Htext. destruct st as [th twd ct tc u d n]; cbn in Hin.
  destruct rc as [t c m [task|]]; cbn in Hin, Htext |- *;
    unfold execute_begin, opening, entered; run; cbn;
    rewrite (bool_decide_eq_false_2 _ Hin), Htext; run; reflexivity.
Qed.

(** The effects of the first lines of an execution that enters the loop. *)
Lemma execute_begin_enters_before env rc b st :
  rc_taskId rc ∉ canceledTasks st →
  text_of (rc_userMessage rc) ≠ "" →
  ∃ th st1 out1,
    execute_begin env rc b st = (Some (loop_ctx rc b th), st1, out1) ∧
    Forall (before_terminal b (rc_taskId rc) (rc_contextId rc)) out1 ∧
    canceledTasks st1 = canceledTasks st ∧
    taskContexts st1 = <[rc_taskId rc := rc_contextId rc]> (taskContexts st) ∧
    dates st1 = S (S (dates st)) ∧ uuids st1 = uuids st.
Proof.
  intros Hc Ht. destruct (cache_hit_dec env (rc_contextId rc) st) as [[th Hh]|Hm].
  - eexists _, _, _. split; [by apply execute_begin_hit|].
    split; [|done]. apply Forall_app. split; [apply opening_before|by repeat constructor].
  - eexists _, _, _. split; [by apply execute_begin_miss|].
    split; [|done]. apply Forall_app. split; [apply opening_before|by repeat constructor].
Qed.

Lemma execute_outcome env rc b events st :
  rc_taskId rc ∉ canceledTasks st →
  text_of (rc_userMessage rc) ≠ "" →
  ∃ pre uuid now,
    effects_of (execute env rc b events st) =
      pre ++ [Publish b
                (match first_failure events with
                 | Some m => failed_update (rc_taskId rc) (rc_contextId rc) uuid
                               ("Error: " +:+ m) now
                 | None => completed_update (rc_taskId rc) (rc_contextId rc) now
                 end);
              Finished b] ∧
    Forall (before_terminal b (rc_taskId rc) (rc_contextId rc)) pre.
Proof.
  intros Hc Ht. unfold execute.
  destruct (execute_begin_enters_before env rc b st Hc Ht)
    as (th & st1 & out1 & -> & Hout1 & Hcan & _).
  assert (Hc1 : c_taskId (loop_ctx rc b th) ∉ canceledTasks st1) by (by rewrite Hcan).
  pose proof (for_await_unmarked env (loop_ctx rc b th) events empty_book st1 Hc1) as [_ Hloop].
  destruct (for_await env (loop_ctx rc b th) events empty_book st1) as [[outcome st2] its].
  cbn [fst snd] in Hloop. destruct (first_failure events) as [m|].
  - destruct Hloop as (-> & pre & uuid & now & -> & Hpre).
    exists (out1 ++ pre), uuid, now. rewrite <- app_assoc. split; [reflexivity|].
    apply Forall_app; split; [done|]. eapply Forall_impl; [exact Hpre|].
    apply in_loop_before.
  - destruct Hloop as ([book1 ->] & Hall). rewrite execute_end_run.
    exists (out1 ++ flatten its), "", (toISOString env (dates st2)).
    rewrite <- app_assoc. split; [reflexivity|].
    apply Forall_app; split; [done|]. eapply Forall_impl; [exact Hall|].
    apply in_loop_before.
Qed.

(** On a stream that ends, [execute_stream] is [execute]. *)

Lemma execute_stream_ends env rc b events st :
  effects_of (execute_stream env rc b events StreamEnds st) =
    effects_of (execute env rc b events st) ∧
  state_of (execute_stream env rc b events StreamEnds st) =
    state_of (execute env rc b events st).
Proof.
  unfold execute_stream, execute.
  destruct (execute_begin env rc b st) as [[[c|] st1] out1]; [|done].
  destruct (for_await env c events empty_book st1) as [[[book|] st2] its]; [|done].
  by destruct (execute_end env c st2) as [[u st3] out3].
Qed.

(** An execution that gets into the loop, in closed form. *)
Lemma execute_stream_entered env rc b events ending st :
  rc_taskId rc ∉ canceledTasks st →
  text_of (rc_userMessage rc) ≠ "" →
  ∃ pre uuid now,
    effects_of (execute_stream env rc b events ending st) =
      pre ++ ending_of b (rc_taskId rc) (rc_contextId rc) (first_failure events) ending
               uuid now ∧
    Forall (before_terminal b (rc_taskId rc) (rc_contextId rc)) pre ∧
    value_of (execute_stream env rc b events ending st) =
      promise_of (first_failure events) ending.
Proof.
  intros Hc Ht. unfold execute_stream.
  destruct (execute_begin_enters_before env rc b st Hc Ht)
    as (th & st1 & out1 & -> & Hout1 & Hcan & _).
  assert (Hc1 : c_taskId (loop_ctx rc b th) ∉ canceledTasks st1) by (by rewrite Hcan).
  pose proof (for_await_unmarked env (loop_ctx rc b th) events empty_book st1 Hc1) as [_ Hloop].
  destruct (for_await env (loop_ctx rc b th) events empty_book st1) as [[outcome st2] its].
  cbn [fst snd] in Hloop. destruct (first_failure events) as [m|].
  - destruct Hloop as (-> & pre & uuid & now & -> & Hpre).
    exists (out1 ++ pre), uuid, now. rewrite <- app_assoc.
    split; [by destruct ending|]. split; [|by destruct ending].
    apply Forall_app; split; [done|]. eapply Forall_impl; [exact Hpre|].
    apply in_loop_before.
  - destruct Hloop as ([book1 ->] & Hall).
    assert (Hpre : Forall (before_terminal b (rc_taskId rc) (rc_contextId rc))
                     (out1 ++ flatten its)).
    { apply Forall_app; split; [done|]. eapply Forall_impl; [exact Hall|].
      apply in_loop_before. }
    destruct ending.
    + rewrite execute_end_run.
      exists (out1 ++ flatten its), "", (toISOString env (dates st2)).
      rewrite <- app_assoc. by split.
    + exists (out1 ++ flatten its), "", "". cbn [ending_of]. rewrite app_nil_r. by split.
Qed.

(** X1: whatever the state, the request, the events of the stream and the
    way the stream ends: when the promise of [execute] resolves,
    [execute] has published exactly one final status update, for its
    task and context and on its bus, and it is its last publication:
    before it come only the new task, non-final Working updates and
    artifact updates, all for its task and context and on its bus; after
    it comes only the call of [finished], once, when the update is
    Completed or Failed, and nothing when it is Canceled.  The promise is
    rejected only when the stream throws, before any [turn.failed]; then
    [execute] has published no final update and has not called
    [finished]. *)
Theorem execute_terminal_update_is_last env rc b events ending st :
  let r := execute_stream env rc b events ending st in
  match value_of r with
  | Resolves =>
      ∃ pre u tail,
        effects_of r = pre ++ Publish b (EvStatus u) :: tail ∧
        Forall (before_terminal b (rc_taskId rc) (rc_contextId rc)) pre ∧
        terminal_of (rc_taskId rc) (rc_contextId rc) u ∧
        ((state (su_status u) = Canceled ∧ tail = []) ∨
         ((state (su_status u) = Completed ∨ state (su_status u) = Failed) ∧
          tail = [Finished b]))
  | Rejects =>
      ending = StreamThrows ∧ first_failure events = None ∧
      Forall (before_terminal b (rc_taskId rc) (rc_contextId rc)) (effects_of r)
  end.
Proof.
  intros r. subst r.
  destruct (decide (rc_taskId rc ∈ canceledTasks st)) as [Hin|Hc].
  { unfold execute_stream. rewrite (execute_begin_canceled env rc b st Hin). cbn [value_of fst].
    eexists _, _, []. split; [reflexivity|]. split; [apply opening_before|].
    split; [by repeat split|]. by left. }
  destruct (decide (text_of (rc_userMessage rc) = "")) as [Ht|Ht].
  { unfold execute_stream. rewrite (execute_begin_empty env rc b st Hc Ht). cbn [value_of fst].
    eexists _, _, [Finished b]. split; [reflexivity|]. split; [apply opening_before|].
    split; [by repeat split|]. right. split; [by right|done]. }
  destruct (execute_stream_entered env rc b events ending st Hc Ht)
    as (pre & uuid & now & -> & Hpre & ->).
  destruct (first_failure events) as [m|]; [|destruct ending]; cbn [promise_of ending_of].
  - eexists pre, _, [Finished b]. split; [by destruct ending|]. split; [done|].
    split; [by repeat split|]. right. split; [by right|done].
  - eexists pre, _, [Finished b]. split; [reflexivity|]. split; [done|].
    split; [by repeat split|]. right. split; [by left|done].
  - rewrite app_nil_r. by repeat split.
Qed.

(** X2: an execution that gets past the cancellation and input checks ends
    with Failed, its text "Error: " and the message of the first
    [turn.failed] among the events of the stream, when there is one, and
    then with [finished]; without one, on a stream that ends, with
    Completed and [finished]; without one, on a stream that throws, with
    nothing: no final update, no call of [finished], and a rejected
    promise.  No event of the stream other than [turn.failed] ends it:
    not an item of type error, not an event that it does not know. *)
Theorem execute_ends_as_stream_does env rc b events ending st :
  rc_taskId rc ∉ canceledTasks st →
  text_of (rc_userMessage rc) ≠ "" →
  ∃ pre uuid now,
    effects_of (execute_stream env rc b events ending st) =
      pre ++
      match first_failure events, ending with
      | Some m, _ =>
          [Publish b (failed_update (rc_taskId rc) (rc_contextId rc) uuid
                        ("Error: " +:+ m) now);
           Finished b]
      | None, StreamEnds =>
          [Publish b (completed_update (rc_taskId rc) (rc_contextId rc) now); Finished b]
      | None, StreamThrows => []
      end ∧
    Forall (before_terminal b (rc_taskId rc) (rc_contextId rc)) pre ∧
    value_of (execute_stream env rc b events ending st) =
      match first_failure events, ending with
      | None, StreamThrows => Rejects
      | _, _ => Resolves
      end.
Proof. apply execute_stream_entered. Qed.

Lemma execute_ends_as_stream_does_witness :
  ∃ (pre : list Effect) (uuid now : string),
    effects_of (execute_stream env0 rc_hi 7 [TurnStarted] StreamThrows initial_state) =
      pre ++ [] ∧
    Forall (before_terminal 7 "task-1" "ctx-1") pre ∧
    value_of (execute_stream env0 rc_hi 7 [TurnStarted] StreamThrows initial_state) = Rejects.
Proof.
  apply (execute_ends_as_stream_does env0 rc_hi 7 [TurnStarted] StreamThrows initial_state).
  - cbn. apply not_elem_of_empty.
  - intros H. discriminate H.
Defined.

Lemma for_await_cut env c m post : ∀ pre book st,
  for_await env c (pre ++ TurnFailed m :: post) book st =
  for_await env c (pre ++ [TurnFailed m]) book st.
Proof.
  induction pre as [|e pre IH]; intros book st; cbn [app for_await].
  - case_bool_decide; [done|]. by rewrite dispatch_TurnFailed.
  - case_bool_decide; [done|].
    destruct (dispatch env c e book st) as [[[book1|] st1] out]; [|done].
    by rewrite IH.
Qed.

(** X3: what follows the first [turn.failed] of the stream is not looked at:
    the execution is the same, in what it publishes and in the state it
    leaves, as on the stream cut after that event. *)
Theorem execute_stops_at_turn_failed env rc b pre m post st :
  execute env rc b (pre ++ TurnFailed m :: post) st =
  execute env rc b (pre ++ [TurnFailed m]) st.
Proof.
  unfold execute. destruct (execute_begin env rc b st) as [[[c|] st1] out1]; [|done].
  by rewrite for_await_cut.
Qed.

(** After an execution that was not canceled, the context id of the task
    is still recorded. *)
Lemma execute_records_context env rc b events st :
  rc_taskId rc ∉ canceledTasks st →
  taskContexts (state_of (execute env rc b events st)) !! rc_taskId rc =
    Some (rc_contextId rc).
Proof.
  intros Hc. unfold execute.
  destruct (decide (text_of (rc_userMessage rc) = "")) as [Ht|Ht].
  { rewrite (execute_begin_empty env rc b st Hc Ht). cbn. apply lookup_insert_eq. }
  destruct (execute_begin_enters_before env rc b st Hc Ht)
    as (th & st1 & out1 & -> & Hout1 & Hcan & Htc & _).
  assert (Hc1 : c_taskId (loop_ctx rc b th) ∉ canceledTasks st1) by (by rewrite Hcan).
  pose proof (for_await_unmarked env (loop_ctx rc b th) events empty_book st1 Hc1)
    as [(_ & _ & _ & Hk & _) _].
  destruct (for_await env (loop_ctx rc b th) events empty_book st1) as [[outcome st2] its].
  cbn [fst snd] in Hk.
  destruct outcome; [rewrite execute_end_run|]; unfold state_of; cbn [fst snd tick taskContexts];
    rewrite Hk, Htc; apply lookup_insert_eq.
Qed.

(** X4: an execution that was not canceled leaves the context id of its
    task on record, also after its terminal update: a call of
    [cancelTask] for the task after the execution publishes a Canceled
    update that carries this context id, and calls [finished]. *)
Theorem cancel_after_execute env env' rc b b' events st :
  rc_taskId rc ∉ canceledTasks st →
  let st' := state_of (execute env rc b events st) in
  bus_calls b' (effects_of (cancelTask env' (rc_taskId rc) b' st')) =
    [Pub (canceled_update (rc_taskId rc) (rc_contextId rc)
            (randomUUID env' (uuids st')) (toISOString env' (dates st')));
     Fin].
Proof.
  intros Hc st'. rewrite cancelTask_run.
  unfold st'. rewrite (execute_records_context env rc b events st Hc).
  cbn. by rewrite Nat.eqb_refl.
Qed.

Lemma cancel_after_execute_witness :
  bus_calls 9 (effects_of (cancelTask env0 (rc_taskId rc_hi) 9
                 (state_of (execute env0 rc_hi 7 stream_hello initial_state)))) =
    [Pub (canceled_update (rc_taskId rc_hi) (rc_contextId rc_hi)
            (randomUUID env0 (uuids (state_of (execute env0 rc_hi 7 stream_hello initial_state))))
            (toISOString env0 (dates (state_of (execute env0 rc_hi 7 stream_hello initial_state)))));
     Fin].
Proof.
  refine (cancel_after_execute env0 env0 rc_hi 7 9 stream_hello initial_state _).
  cbn. apply not_elem_of_empty.
Defined.

(** ** What one execution leaves alone *)

Lemma touches_only_counters c t st st1 st2 :
  touches_only c t st st1 → counters_only st1 st2 → touches_only c t st st2.
Proof.
  intros [H1 H2] (Ha & Hb & Hc & Hd & _). split.
  - intros c' Hc'. rewrite Ha, Hb. by apply H1.
  - intros t' Ht'. rewrite Hc, Hd. by apply H2.
Qed.

Lemma touches_only_entered rc st :
  touches_only (rc_contextId rc) (rc_taskId rc) st (entered rc st).
Proof.
  split; [done|]. intros t' Ht'. cbn. by rewrite lookup_insert_ne.
Qed.

Lemma execute_frame env rc b events st :
  touches_only (rc_contextId rc) (rc_taskId rc) st (state_of (execute env rc b events st)).
Proof.
  unfold execute.
  destruct (decide (rc_taskId rc ∈ canceledTasks st)) as [Hin|Hc].
  { rewrite (execute_begin_canceled env rc b st Hin). split; [done|].
    intros t' Ht'. cbn. rewrite lookup_delete_ne, lookup_insert_ne by done.
    split; [done|]. rewrite elem_of_difference, elem_of_singleton. tauto. }
  destruct (decide (text_of (rc_userMessage rc) = "")) as [Ht|Ht].
  { rewrite (execute_begin_empty env rc b st Hc Ht).
    apply (touches_only_counters _ _ _ (entered rc st)); [apply touches_only_entered|].
    apply (counters_only_trans _ (draw (entered rc st)));
      [apply counters_only_draw|apply counters_only_tick]. }
  assert (Hbegin : ∃ th st1 out1,
            execute_begin env rc b st = (Some (loop_ctx rc b th), st1, out1) ∧
            touches_only (rc_contextId rc) (rc_taskId rc) st st1 ∧
            rc_taskId rc ∉ canceledTasks st1).
  { destruct (cache_hit_dec env (rc_contextId rc) st) as [[th Hh]|Hm].
    - eexists _, _, _. split; [by apply execute_begin_hit|].
      split; [apply touches_only_entered|done].
    - eexists _, _, _. split; [by apply execute_begin_miss|]. split; [|done].
      split.
      + intros c' Hc'. cbn. by rewrite !lookup_insert_ne.
      + intros t' Ht'. cbn. by rewrite lookup_insert_ne. }
  destruct Hbegin as (th & st1 & out1 & -> & Htouch & Hc1).
  pose proof (for_await_unmarked env (loop_ctx rc b th) events empty_book st1 Hc1) as [Hk _].
  destruct (for_await env (loop_ctx rc b th) events empty_book st1) as [[outcome st2] its].
  cbn [fst snd] in Hk. destruct outcome; [rewrite execute_end_run|]; unfold state_of; cbn [fst snd].
  - apply (touches_only_counters _ _ _ st1); [done|].
    apply (counters_only_trans _ st2); [done|apply counters_only_tick].
  - by apply (touches_only_counters _ _ _ st1).
Qed.

(** X5: whatever the state, the request and the stream: of the thread
    registry, [execute] changes at most the entry of its context; of the
    recorded context ids and of the marks of canceled tasks, at most
    those of its task. *)
Theorem execute_touches_only_its_own env rc b events st :
  touches_only (rc_contextId rc) (rc_taskId rc) st (state_of (execute env rc b events st)).
Proof. apply execute_frame. Qed.

(** ** The marks of canceled tasks *)

Lemma execute_begin_marks env rc b st :
  canceledTasks (state_of (execute_begin env rc b st)) ⊆ canceledTasks st.
Proof.
  destruct (decide (rc_taskId rc ∈ canceledTasks st)) as [Hin|Hc].
  { rewrite (execute_begin_canceled env rc b st Hin). cbn. apply subseteq_difference_l.
    reflexivity. }
  destruct (decide (text_of (rc_userMessage rc) = "")) as [Ht|Ht].
  { by rewrite (execute_begin_empty env rc b st Hc Ht). }
  destruct (execute_begin_enters_before env rc b st Hc Ht)
    as (th & st1 & out1 & -> & _ & Heq & _).
  unfold state_of. cbn [fst snd]. by rewrite Heq.
Qed.

Lemma step_marks st st' : step st st' → canceledTasks st' ⊆ canceledTasks st.
Proof.
  intros [env rc b st0|env c e book st0|env c st0|env t b st0].
  - apply execute_begin_marks.
  - by destruct (for_await_tame env c [e] book st0) as [(_ & _ & _ & H) _].
  - by destruct (tame_execute_end env c st0) as [(_ & _ & _ & H) _].
  - rewrite cancelTask_run. cbn. intros x.
    rewrite elem_of_difference, elem_of_union, elem_of_singleton. tauto.
Qed.

Lemma reachable_no_mark st : reachable st → canceledTasks st = ∅.
Proof.
  unfold reachable. intros H.
  assert (Hsub : canceledTasks st ⊆ canceledTasks initial_state).
  { induction H as [|x y z Hxy Hyz IH]; [done|].
    etrans; [exact IH|]. by apply step_marks. }
  cbn in Hsub. apply set_eq. intros x. split; [apply Hsub|]. by intros ?%not_elem_of_empty.
Qed.

Lemma before_terminal_not_canceled b t c e :
  before_terminal b t c e → is_terminal Canceled e = false.
Proof.
  destruct e as [b' [k|u|a]| | | |]; cbn; try done.
  intros (_ & _ & _ & -> & _). done.
Qed.

(** X6: in a state that the executor can be in, no task is marked canceled:
    every block of code that marks a task also clears the mark before it
    is over.  So an execution that starts in such a state and is not
    interrupted never publishes a Canceled update. *)
Theorem reachable_execute_never_canceled env rc b events st :
  reachable st →
  Forall (λ e, is_terminal Canceled e = false) (effects_of (execute env rc b events st)).
Proof.
  intros Hr. assert (Hc : rc_taskId rc ∉ canceledTasks st).
  { rewrite (reachable_no_mark st Hr). apply not_elem_of_empty. }
  destruct (decide (text_of (rc_userMessage rc) = "")) as [Ht|Ht].
  { unfold execute. rewrite (execute_begin_empty env rc b st Hc Ht).
    apply Forall_app. split.
    - eapply Forall_impl; [apply opening_before|]. apply before_terminal_not_canceled.
    - by repeat constructor. }
  destruct (execute_outcome env rc b events st Hc Ht) as (pre & uuid & now & -> & Hpre).
  apply Forall_app. split.
  - eapply Forall_impl; [exact Hpre|]. apply before_terminal_not_canceled.
  - destruct (first_failure events); by repeat constructor.
Qed.

Lemma reachable_execute_never_canceled_witness :
  Forall (λ e, is_terminal Canceled e = false)
    (effects_of (execute env0 rc_hi 7 stream_hello
                   (state_of (cancelTask env0 "task-1" 9 initial_state)))).
Proof.
  apply reachable_execute_never_canceled.
  apply rtc_once. apply step_cancel.
Defined.

(** ** Output of command executions *)

Lemma output_chunks_app i out1 out2 :
  output_chunks i (out1 ++ out2) = output_chunks i out1 ++ output_chunks i out2.
Proof. apply omap_app. Qed.

Lemma output_chunks_none i out :
  Forall (λ e, chunk_of i e = None) out → output_chunks i out = [].
Proof.
  induction 1 as [|e out He _ IH]; [done|].
  unfold output_chunks in *. cbn. by rewrite He.
Qed.

Lemma artifact_id_inj (id i : string) :
  "tool-" +:+ id +:+ "-output" = "tool-" +:+ i +:+ "-output" → id = i.
Proof. intros H. apply String.app_inj in H. by apply app_inj_r in H. Qed.

Lemma output_key_inj (id i : string) : id +:+ ":output" = i +:+ ":output" → id = i.
Proof. apply app_inj_r. Qed.

Lemma dispatch_item_command env c completed i command prev suffix code status book st :
  default 0 (sentTextLengths book !! (i +:+ ":output")) = String.length prev →
  let r := dispatch_item env c completed
             (CommandExecutionItem i command (prev +:+ suffix) code status) book st in
  output_chunks i (effects_of r) = (if nonempty suffix then [suffix] else []) ∧
  default 0 (sentTextLengths (value_of r) !! (i +:+ ":output")) =
    String.length (prev +:+ suffix).
Proof.
  intros Hlen r. subst r. destruct st as [ths twd ct tc u d n].
  unfold dispatch_item. cbv zeta.
  assert (Hk : ∀ b, sentTextLengths b = sentTextLengths book →
             default 0 (sentTextLengths b !! (i +:+ ":output")) = String.length prev).
  { intros b' ->. exact Hlen. }
  destruct (negb (str_truthy (sentItemStates book !! (i +:+ ":state"))));
    run; rewrite Hk by done; rewrite slice_app, nonempty_length, app_nonempty;
    (destruct (nonempty suffix) eqn:Hs;
     [ rewrite orb_true_r
     | rewrite orb_false_r; destruct (nonempty prev) eqn:Hp ]);
    run;
    destruct (completed && negb (bool_decide (sentItemStates book !! (i +:+ ":state") = Some "completed")));
    run; unfold output_chunks; cbn; rewrite ?String.eqb_refl, ?lookup_insert_eq; cbn;
    try done;
    try (destruct suffix; [|done]; by rewrite ?app_empty_r, ?Hlen);
    try (destruct suffix; [|done]; destruct prev; [|done]; by rewrite ?Hlen).
Qed.

Lemma any_step_intro st st' : any_step st st'.
Proof. exact I. Qed.

Ltac obeys_any :=
  repeat first
    [ apply obeys_ret; [intros ?; exact I]
    | apply obeys_newUUID; [intros ?; exact I]
    | apply obeys_newDate; [intros ?; exact I]
    | apply obeys_bind; [intros ? ? ? _ _; exact I | | intros ?]
    | match goal with |- obeys _ _ (if ?x then _ else _) => destruct x end
    | match goal with |- obeys _ _ (match ?x with _ => _ end) => destruct x end ].

Lemma publishStatus_no_chunk env i b t c s f m k :
  obeys any_step (λ e, chunk_of i e = None) (publishStatus env b t c s f m k).
Proof.
  unfold publishStatus.
  apply obeys_bind; [done|apply obeys_newDate; done|].
  intros now. apply obeys_emit; done.
Qed.

Lemma publishToolUpdate_no_chunk env i b t c d :
  obeys any_step (λ e, chunk_of i e = None) (publishToolUpdate env b t c d).
Proof.
  unfold publishToolUpdate.
  apply obeys_bind; [done|apply obeys_newUUID; done|].
  intros uuid. apply publishStatus_no_chunk.
Qed.

(** Dispatching an item that is not the command execution [i] appends no
    chunk to the artifact [tool-i-output]. *)
Lemma dispatch_item_no_chunk env c completed item book i :
  (∀ command output code status, item ≠ CommandExecutionItem i command output code status) →
  obeys any_step (λ e, chunk_of i e = None) (dispatch_item env c completed item book).
Proof.
  intros Hitem.
  assert (Hout : ∀ id output last, id ≠ i →
            obeys any_step (λ e, chunk_of i e = None)
              (publishToolOutput (c_eventBus c) (c_taskId c) (c_contextId c) id output true last)).
  { intros id output last Hid. apply obeys_emit; [done|]. cbn.
    destruct (String.eqb_spec ("tool-" +:+ id +:+ "-output") ("tool-" +:+ i +:+ "-output"))
      as [Heq|Hne]; [|done].
    by apply artifact_id_inj in Heq. }
  assert (Hfinal : ∀ id output last,
            obeys any_step (λ e, chunk_of i e = None)
              (publishToolOutput (c_eventBus c) (c_taskId c) (c_contextId c) id output false last)).
  { intros id output last. by apply obeys_emit. }
  assert (Hid : ∀ id command output code status,
            item = CommandExecutionItem id command output code status → id ≠ i).
  { intros id command output code status -> ->. by eapply Hitem. }
  unfold dispatch_item, publishTextContent, publishThought.
  destruct item;
    repeat first
      [ apply publishStatus_no_chunk
      | apply publishToolUpdate_no_chunk
      | apply Hfinal
      | apply Hout; by eapply Hid
      | apply obeys_ret; [done]
      | apply obeys_newUUID; [done]
      | apply obeys_bind; [done | | intros ?]
      | match goal with |- obeys _ _ (if ?x then _ else _) => destruct x end
      | match goal with |- obeys _ _ (match ?x with _ => _ end) => destruct x end ].
Qed.

Lemma command_output_event i e output :
  command_output i e = Some output →
  ∃ completed command code status,
    event_item e = Some (completed, CommandExecutionItem i command output code status).
Proof.
  unfold command_output. destruct (event_item e) as [[completed item]|]; [|done].
  destruct item; try done. destruct (String.eqb_spec id i) as [->|]; [|done].
  intros [= <-]. by eexists _, _, _, _.
Qed.

Lemma dispatch_chunk_step env c i e book st prev :
  default 0 (sentTextLengths book !! (i +:+ ":output")) = String.length prev →
  (∀ id reasoning text, text_item e = Some (id, reasoning, text) → id ≠ i +:+ ":output") →
  let r := dispatch env c e book st in
  match command_output i e with
  | Some output =>
      ∀ suffix, output = prev +:+ suffix →
        output_chunks i (effects_of r) = (if nonempty suffix then [suffix] else []) ∧
        ∃ book1, value_of r = Some book1 ∧
                 default 0 (sentTextLengths book1 !! (i +:+ ":output")) = String.length output
  | None =>
      output_chunks i (effects_of r) = [] ∧
      ∀ book1, value_of r = Some book1 →
               sentTextLengths book1 !! (i +:+ ":output") =
                 sentTextLengths book !! (i +:+ ":output")
  end.
Proof.
  intros Hlen Hfree r. subst r.
  destruct (command_output i e) as [output|] eqn:Hout.
  - destruct (command_output_event _ _ _ Hout) as (completed & command & code & status & He).
    rewrite (dispatch_item_event _ _ _ _ _ _ _ He). intros suffix ->.
    pose proof (dispatch_item_command env c completed i command prev suffix code status
                  book st Hlen) as [Hd Hl].
    unfold effects_of, value_of in *.
    destruct (dispatch_item _ _ _ _ _ _) as [[book1 st1] out]. cbn [fst snd] in *.
    split; [exact Hd|]. by exists book1.
  - destruct (event_item e) as [[completed item]|] eqn:He.
    + rewrite (dispatch_item_event _ _ _ _ _ _ _ He).
      assert (Hitem : ∀ command output code status,
                item ≠ CommandExecutionItem i command output code status).
      { intros command output code status ->. unfold command_output in Hout.
        rewrite He, String.eqb_refl in Hout. discriminate Hout. }
      pose proof (dispatch_item_no_chunk env c completed item book i Hitem st) as [_ Hnone].
      pose proof (dispatch_item_invariant
                    (λ b, sentTextLengths b !! (i +:+ ":output") =
                          sentTextLengths book !! (i +:+ ":output")) env c completed
                    item book eq_refl) as Hinv.
      unfold yields, value_of, effects_of in *. specialize (λ H1 H2, Hinv H1 H2 st).
      destruct (dispatch_item _ _ _ _ _ _) as [[book2 st1] out]. cbn [fst snd] in *.
      split; [by apply output_chunks_none in Hnone|].
      intros book1 [= <-]. apply Hinv.
      * intros b n key Hb Hk. cbn. rewrite lookup_insert_ne; [done|].
        destruct item; try discriminate Hk; injection Hk as <-.
        -- eapply (Hfree _ false). unfold text_item. by rewrite He.
        -- eapply (Hfree _ true). unfold text_item. by rewrite He.
        -- intros Heq%output_key_inj. subst. by eapply Hitem.
      * by intros b v key Hb Hk.
    + split.
      * destruct e; try discriminate He; reflexivity.
      * intros book1 Hv. by rewrite (dispatch_no_item env c e book st book1 He Hv).
Qed.

Lemma observed_outputs_cons i it its :
  observed_outputs i (it :: its) =
    match observed_output i it with
    | Some t => t :: observed_outputs i its
    | None => observed_outputs i its
    end.
Proof. reflexivity. Qed.

Lemma for_await_chunks env c i : ∀ events book st prev,
  c_taskId c ∉ canceledTasks st →
  default 0 (sentTextLengths book !! (i +:+ ":output")) = String.length prev →
  grows prev (observed_outputs i (for_await env c events book st).2) →
  text_key_free i events →
  prev +:+ join "" (output_chunks i (flatten (for_await env c events book st).2)) =
    List.last (observed_outputs i (for_await env c events book st).2) prev.
Proof.
  induction events as [|e rest IH]; intros book st prev Hc Hlen Hgrow Hfree.
  { cbn. by rewrite app_empty_r. }
  assert (Hfree' : text_key_free i rest).
  { intros e' ? ? ? Hin. apply Hfree. by right. }
  assert (Hfree0 : ∀ id reasoning text,
            text_item e = Some (id, reasoning, text) → id ≠ i +:+ ":output").
  { intros. eapply Hfree; [by left|done]. }
  rewrite for_await_cons in * by done.
  pose proof (dispatch_chunk_step env c i e book st prev Hlen Hfree0) as Hstep.
  cbv zeta in Hstep. unfold effects_of, value_of in Hstep.
  assert (Hc1 : c_taskId c ∉ canceledTasks (state_of (dispatch env c e book st))).
  { destruct (is_turn_failed e) eqn:Hf.
    - destruct e; try discriminate Hf. by rewrite dispatch_TurnFailed.
    - destruct (dispatch_in_loop env c e book Hf st) as [(_ & _ & -> & _) _]. done. }
  unfold state_of in Hc1.
  destruct (dispatch env c e book st) as [[next st1] out]. cbn [fst snd] in Hstep, Hc1.
  destruct next as [book1|].
  - specialize (IH book1 st1).
    destruct (for_await env c rest book1 st1) as [[outcome st2] its].
    cbn [snd] in *. rewrite observed_outputs_cons, flatten_cons, output_chunks_app in *.
    cbn [observed_output iteration_effects] in *.
    destruct (command_output i e) as [output|].
    + cbn [grows] in Hgrow. destruct Hgrow as [[suffix ->] Hgrow].
      destruct (Hstep suffix eq_refl) as (Hd & book2 & [= <-] & Hl).
      rewrite Hd, join_app, last_cons, <- (IH _ Hc1 Hl Hgrow Hfree').
      destruct (nonempty suffix) eqn:Hs.
      * cbn [join]. by rewrite app_assoc'.
      * destruct suffix; [|done]. cbn [join]. by rewrite !app_empty_r.
    + destruct Hstep as (Hd & Hb).
      assert (Hl : default 0 (sentTextLengths book1 !! (i +:+ ":output")) = String.length prev).
      { by rewrite (Hb book1 eq_refl). }
      rewrite Hd. cbn [app]. by apply IH.
  - cbn [snd] in *. rewrite observed_outputs_cons, flatten_cons, output_chunks_app in *.
    cbn [observed_output iteration_effects] in *.
    destruct (command_output i e) as [output|].
    + cbn [grows] in Hgrow. destruct Hgrow as [[suffix ->] _].
      by destruct (Hstep suffix eq_refl) as (Hd & book2 & [=] & _).
    + destruct Hstep as (Hd & _). rewrite Hd. cbn. by rewrite app_empty_r.
Qed.

Lemma opening_no_chunk i rc b env st : output_chunks i (opening rc b env st) = [].
Proof. unfold opening. by destruct (rc_task rc). Qed.

Lemma execute_begin_no_chunk env rc b st i :
  output_chunks i (effects_of (execute_begin env rc b st)) = [].
Proof.
  destruct (decide (rc_taskId rc ∈ canceledTasks st)) as [Hin|Hc].
  { rewrite (execute_begin_canceled env rc b st Hin). unfold effects_of. cbn [snd].
    by rewrite output_chunks_app, opening_no_chunk. }
  destruct (decide (text_of (rc_userMessage rc) = "")) as [Ht|Ht].
  { rewrite (execute_begin_empty env rc b st Hc Ht). unfold effects_of. cbn [snd].
    by rewrite output_chunks_app, opening_no_chunk. }
  destruct (cache_hit_dec env (rc_contextId rc) st) as [[th Hh]|Hm].
  - rewrite (execute_begin_hit env rc b st th Hc Ht Hh). unfold effects_of. cbn [snd].
    by rewrite output_chunks_app, opening_no_chunk.
  - rewrite (execute_begin_miss env rc b st Hc Ht Hm). unfold effects_of. cbn [snd].
    by rewrite output_chunks_app, opening_no_chunk.
Qed.

Lemma execute_begin_unmarked env rc b st c st1 out1 :
  execute_begin env rc b st = (Some c, st1, out1) →
  c_taskId c ∉ canceledTasks st1.
Proof.
  destruct (decide (rc_taskId rc ∈ canceledTasks st)) as [Hin|Hc].
  { by rewrite (execute_begin_canceled env rc b st Hin). }
  destruct (decide (text_of (rc_userMessage rc) = "")) as [Ht|Ht].
  { by rewrite (execute_begin_empty env rc b st Hc Ht). }
  destruct (execute_begin_enters_before env rc b st Hc Ht)
    as (th & st1' & out1' & -> & _ & Heq & _).
  intros [= <- <- <-]. by rewrite Heq.
Qed.

(** X7: for a command execution [i] whose aggregated outputs grow, each an
    extension of the one before, in a stream with no agent message or
    reasoning item of id [i:output]: the chunks that [execute] appends to
    the artifact [tool-i-output], joined in order of publication, are the
    last aggregated output observed for [i]. *)
Theorem command_output_chunks_join env rc b events st i :
  grows "" (observed_outputs i (execute_iterations env rc b events st)) →
  text_key_free i events →
  join "" (output_chunks i (effects_of (execute env rc b events st))) =
    List.last (observed_outputs i (execute_iterations env rc b events st)) "".
Proof.
  pose proof (execute_begin_no_chunk env rc b st i) as Hbegin.
  pose proof (execute_begin_unmarked env rc b st) as Hun.
  unfold execute, execute_iterations, effects_of in *.
  destruct (execute_begin env rc b st) as [[[c|] st1] out1]; cbn [snd] in *.
  - intros Hgrow Hfree. specialize (Hun c st1 out1 eq_refl).
    pose proof (for_await_chunks env c i events empty_book st1 "" Hun eq_refl Hgrow Hfree) as H.
    destruct (for_await env c events empty_book st1) as [[[book|] st2] its]; cbn [snd] in *.
    + rewrite execute_end_run. cbn [snd].
      rewrite !output_chunks_app, Hbegin. cbn [app].
      change (output_chunks i [_; _]) with (@nil string). by rewrite app_nil_r.
    + by rewrite output_chunks_app, Hbegin.
  - intros _ _. by rewrite Hbegin.
Qed.

Lemma command_output_chunks_witness :
  join "" (output_chunks "cmd-1"
             (effects_of (execute env0 rc_hi 7 stream_output initial_state))) =
    "a.txt" +:+ LF +:+ "b.txt".
Proof.
  refine (command_output_chunks_join env0 rc_hi 7 stream_output initial_state "cmd-1" _ _).
  - split; [by exists ""|]. split; [by exists "a.txt"|].
    split; [by exists ""|]. split; [by exists (LF +:+ "b.txt")|exact I].
  - intros e id reasoning text Hin He.
    unfold stream_output in Hin.
    repeat (apply elem_of_cons in Hin as [->|Hin]; [try discriminate He|]).
    + injection He as <- _ _. intros H. discriminate H.
    + by apply elem_of_nil in Hin.
Defined.

(** ** The thread registry *)

Lemma execute_runs_registered_thread_aux env rc b events st :
  rc_taskId rc ∉ canceledTasks st →
  text_of (rc_userMessage rc) ≠ "" →
  let c := rc_contextId rc in
  let out := effects_of (execute env rc b events st) in
  ∃ th, ran out = [(th, text_of (rc_userMessage rc))] ∧
        cache_hit env c (state_of (execute env rc b events st)) th ∧
        ((cache_hit env c st th ∧ factory_log out = []) ∨
         ((∀ th0, ¬ cache_hit env c st th0) ∧ th = started st ∧
          factory_log out = [StartThread (threadOptions env c) th])).
Proof.
  intros Hc Ht c out. subst c out.
  destruct (cache_hit_dec env (rc_contextId rc) st) as [[th Hh]|Hm].
  - pose proof (execute_begin_hit env rc b st th Hc Ht Hh) as Hbegin.
    destruct (execute_after_begin _ _ _ events _ _ _ _ Hbegin)
      as (tail & -> & Hf & Hr & (Hs1 & Hs2 & _)).
    exists th. rewrite !factory_log_app, !ran_app, (factory_log_nil _ Hf), Hr.
    destruct (opening_quiet rc b env st) as [-> ->].
    split; [done|]. split; [|by left].
    destruct Hh as [H1 H2]. split; [by rewrite Hs1|by rewrite Hs2].
  - pose proof (execute_begin_miss env rc b st Hc Ht Hm) as Hbegin.
    destruct (execute_after_begin _ _ _ events _ _ _ _ Hbegin)
      as (tail & -> & Hf & Hr & (Hs1 & Hs2 & _)).
    exists (started st). rewrite !factory_log_app, !ran_app, (factory_log_nil _ Hf), Hr.
    destruct (opening_quiet rc b env st) as [-> ->].
    split; [done|]. split; [|by right].
    split; [rewrite Hs1|rewrite Hs2]; cbn; apply lookup_insert_eq.
Qed.

(** X8: one execution that gets past the cancellation and input checks runs
    one thread, once, on the input text: the thread that the registry
    holds for its context afterwards, under the key that the context has
    now.  It is the thread that the registry held under that key before,
    and then [startThread] is not called; or there was none, and then
    [startThread] is called once, with the options of the context, and
    makes it. *)
Theorem execute_runs_registered_thread env rc b events st :
  rc_taskId rc ∉ canceledTasks st →
  text_of (rc_userMessage rc) ≠ "" →
  let c := rc_contextId rc in
  let out := effects_of (execute env rc b events st) in
  ∃ th, ran out = [(th, text_of (rc_userMessage rc))] ∧
        cache_hit env c (state_of (execute env rc b events st)) th ∧
        ((cache_hit env c st th ∧ factory_log out = []) ∨
         ((∀ th0, ¬ cache_hit env c st th0) ∧ th = started st ∧
          factory_log out = [StartThread (threadOptions env c) th])).
Proof. apply execute_runs_registered_thread_aux. Qed.

Lemma execute_runs_registered_thread_witness :
  ran (effects_of (execute env0 rc_hi 7 stream_hello initial_state)) = [(0, "Hi")] ∧
  factory_log (effects_of (execute env0 rc_hi 7 stream_hello initial_state)) =
    [StartThread (threadOptions env0 "ctx-1") 0].
Proof.
  destruct (execute_runs_registered_thread env0 rc_hi 7 stream_hello initial_state)
    as (th & Hran & _ & [[[Hth _] _]|(_ & -> & Hlog)]).
  - cbn. apply not_elem_of_empty.
  - intros H. discriminate H.
  - discriminate Hth.
  - by split.
Defined.

Lemma factory_log_elem o th out :
  StartThread o th ∈ out → StartThread o th ∈ factory_log out.
Proof.
  intros Hin. unfold factory_log. apply list_elem_of_In, List.filter_In.
  split; [by apply list_elem_of_In|done].
Qed.

Lemma threadOptions_directory env c :
  o_workingDirectory (threadOptions env c) ≠ Some "" ∧
  currentWorkingDir env c =
    default (process_cwd env) (o_workingDirectory (threadOptions env c)).
Proof.
  unfold threadOptions, currentWorkingDir, or_else, or_opt. cbn.
  destruct (workingDir env c) as [[|a w]|]; cbn; by split.
Qed.

(** X9: whenever [execute] starts a thread, it starts it in the directory
    that the key of the registry names for the context afterwards: the
    working directory of the thread options, which is never the empty
    string, or the current directory of the process when the options have
    none.  The thread made is the one registered, and the approval policy
    of the options is that of the resolved configuration. *)
Theorem started_thread_directory env rc b events st o th :
  StartThread o th ∈ effects_of (execute env rc b events st) →
  let c := rc_contextId rc in
  let st' := state_of (execute env rc b events st) in
  o_workingDirectory o ≠ Some "" ∧
  threadWorkingDirs st' !! c =
    Some (c +:+ ":" +:+ default (process_cwd env) (o_workingDirectory o)) ∧
  threads st' !! c = Some th ∧
  o_approvalPolicy o = approvalPolicy (resolveConfig env c).
Proof.
  intros Hin c st'. subst c st'. apply factory_log_elem in Hin.
  destruct (decide (rc_taskId rc ∈ canceledTasks st)) as [Hc|Hc].
  { unfold execute in Hin. rewrite (execute_begin_canceled env rc b st Hc) in Hin.
    unfold effects_of in Hin. cbn [snd] in Hin. rewrite factory_log_app in Hin.
    destruct (opening_quiet rc b env st) as [Hq _]. rewrite Hq in Hin.
    by apply elem_of_nil in Hin. }
  destruct (decide (text_of (rc_userMessage rc) = "")) as [Ht|Ht].
  { unfold execute in Hin. rewrite (execute_begin_empty env rc b st Hc Ht) in Hin.
    unfold effects_of in Hin. cbn [snd] in Hin. rewrite factory_log_app in Hin.
    destruct (opening_quiet rc b env st) as [Hq _]. rewrite Hq in Hin.
    by apply elem_of_nil in Hin. }
  destruct (execute_runs_registered_thread_aux env rc b events st Hc Ht)
    as (th1 & _ & [Hth Hkey] & [[_ Hlog]|(_ & -> & Hlog)]); rewrite Hlog in Hin.
  { by apply elem_of_nil in Hin. }
  apply list_elem_of_singleton in Hin. injection Hin as -> ->.
  destruct (threadOptions_directory env (rc_contextId rc)) as [Hne Hdir].
  split; [done|]. split; [by rewrite Hkey, <- Hdir|]. split; [done|].
  unfold threadOptions. cbn [o_approvalPolicy].
  by destruct (approvalPolicy (resolveConfig env (rc_contextId rc))).
Qed.

Lemma started_thread_directory_witness :
  o_workingDirectory (threadOptions env_config "ctx-1") ≠ Some "" ∧
  threadWorkingDirs (state_of (execute env_config rc_hi 7 [] initial_state)) !! "ctx-1" =
    Some ("ctx-1" +:+ ":" +:+
          default (process_cwd env_config)
            (o_workingDirectory (threadOptions env_config "ctx-1"))) ∧
  threads (state_of (execute env_config rc_hi 7 [] initial_state)) !! "ctx-1" = Some 0 ∧
  o_approvalPolicy (threadOptions env_config "ctx-1") =
    approvalPolicy (resolveConfig env_config "ctx-1").
Proof.
  apply (started_thread_directory env_config rc_hi 7 [] initial_state
           (threadOptions env_config "ctx-1") 0).
  do 2 apply list_elem_of_further. apply list_elem_of_here.
Defined.

(** ** [normalizeWorkingDirectory] *)

Lemma trimStart_fixed s :
  (∀ a, first_char s = Some a → is_js_space a = false) → trimStart s = s.
Proof. destruct s as [|a s]; [done|]. intros H. cbn. by rewrite (H a eq_refl). Qed.

Lemma trimEnd_fixed s :
  (∀ a, last_char s = Some a → is_js_space a = false) → trimEnd s = s.
Proof.
  induction s as [|a s IH]; [done|]. intros H. cbn [trimEnd].
  destruct s as [|a' s'].
  - cbn. by rewrite (H a eq_refl).
  - rewrite IH; [done|]. intros x Hx. by apply H.
Qed.

Lemma trim_idempotent s : trim (trim s) = trim s.
Proof.
  destruct (trim_spec s) as (_ & Hfirst & Hlast).
  unfold trim at 1. by rewrite (trimStart_fixed _ Hfirst), (trimEnd_fixed _ Hlast).
Qed.

Lemma all_space_app s t : all_space (s +:+ t) = all_space s && all_space t.
Proof.
  induction s as [|a s IH]; [done|]. rewrite app_cons. cbn.
  by rewrite IH, andb_assoc.
Qed.

Lemma trimStart_blank s : all_space s = true → trimStart s = "".
Proof.
  induction s as [|a s IH]; [done|]. cbn. intros [Ha Hs]%andb_prop.
  rewrite Ha. by apply IH.
Qed.

Lemma trim_blank_iff s : trim s = "" ↔ all_space s = true.
Proof.
  split.
  - intros H. destruct (trim_spec s) as ((pre & post & Hs & Hpre & Hpost) & _).
    rewrite H in Hs. rewrite Hs, !all_space_app, Hpre, Hpost. done.
  - intros H. unfold trim. by rewrite (trimStart_blank _ H).
Qed.

(** X10: [normalizeWorkingDirectory] gives nothing exactly on nothing and on
    a string of white space only.  What it gives otherwise is what is
    left of the string after taking white space, and nothing else, from
    its two ends: it is not empty and neither starts nor ends with white
    space.  Normalizing the result again changes nothing. *)
Theorem normalizeWorkingDirectory_normal_form w :
  (normalizeWorkingDirectory w = None ↔
     match w with
     | Some s => all_space s = true
     | None => True
     end) ∧
  (∀ d, normalizeWorkingDirectory w = Some d →
     d ≠ "" ∧
     (∃ pre post, w = Some (pre +:+ d +:+ post) ∧
                  all_space pre = true ∧ all_space post = true) ∧
     (∀ a, first_char d = Some a → is_js_space a = false) ∧
     (∀ a, last_char d = Some a → is_js_space a = false)) ∧
  normalizeWorkingDirectory (normalizeWorkingDirectory w) = normalizeWorkingDirectory w.
Proof.
  destruct w as [s|]; [|by repeat split].
  rewrite normalizeWorkingDirectory_trim.
  destruct (trim_spec s) as ((pre & post & Hs & Hpre & Hpost) & Hfirst & Hlast).
  destruct (nonempty (trim s)) eqn:Hn.
  - split; [|split].
    + split; [done|]. intros Hb%trim_blank_iff. by rewrite Hb in Hn.
    + intros d [= <-]. split; [by destruct (trim s)|].
      split; [|by split]. exists pre, post. by rewrite <- Hs.
    + by rewrite normalizeWorkingDirectory_trim, trim_idempotent, Hn.
  - assert (Hb : trim s = "") by (by destruct (trim s)).
    split; [|by split]. split; [|done]. intros _. by apply trim_blank_iff.
Qed.

Lemma normalizeWorkingDirectory_normal_form_witness :
  "/work/repo" ≠ "" ∧
  (∃ pre post, Some "  /work/repo " = Some (pre +:+ "/work/repo" +:+ post) ∧
               all_space pre = true ∧ all_space post = true) ∧
  (∀ a, first_char "/work/repo" = Some a → is_js_space a = false) ∧
  (∀ a, last_char "/work/repo" = Some a → is_js_space a = false).
Proof.
  exact (proj1 (proj2 (normalizeWorkingDirectory_normal_form (Some "  /work/repo ")))
           "/work/repo" eq_refl).
Defined.

(** ** Web searches, todo lists and file changes *)

Lemma dispatch_plain_step env c i name e book st :
  plain_kind name →
  count (is_update_about i name) (effects_of (dispatch env c e book st)) =
    if reported i name (Dispatched e (effects_of (dispatch env c e book st))) then 1 else 0.
Proof.
  intros Hname. unfold reported, plain_event.
  destruct (event_item e) as [[completed item]|] eqn:He.
  - rewrite (dispatch_item_event _ _ _ _ _ _ _ He).
    destruct st as [ths twd ct tc u d n].
    assert (Hgo : count (is_update_about i name)
                    (effects_of (dispatch_item env c completed item book
                       {| threads := ths; threadWorkingDirs := twd; canceledTasks := ct;
                          taskContexts := tc; uuids := u; dates := d; started := n |})) =
                  if match item with
                     | WebSearchItem id _ => String.eqb id i && String.eqb "web_search" name
                     | TodoListItem id _ => String.eqb id i && String.eqb "todo_list" name
                     | FileChangeItem id _ _ =>
                         String.eqb id i && String.eqb "file_change" name && completed
                     | _ => false
                     end then 1 else 0).
    { destruct item;
        destruct Hname as [-> | [-> | ->]];
        destruct (String.eqb id i) eqn:Hid; cbn [andb String.eqb Ascii.eqb Bool.eqb];
        unfold dispatch_item; cbv zeta;
        step_ifs; unfold count; cbn;
        rewrite ?Hid, ?andb_false_r; cbn;
        reflexivity. }
    unfold effects_of in *.
    destruct (dispatch_item _ _ _ _ _ _) as [[book1 st1] out]. cbn [fst snd] in *.
    rewrite count_log by done. rewrite Hgo.
    destruct item, completed; by rewrite ?andb_true_r, ?andb_false_r.
  - destruct e; try discriminate He; reflexivity.
Qed.

Lemma for_await_plain env c i name : plain_kind name → ∀ events book st,
  c_taskId c ∉ canceledTasks st →
  count (is_update_about i name) (flatten (for_await env c events book st).2) =
    length (List.filter (reported i name) (for_await env c events book st).2).
Proof.
  intros Hname. induction events as [|e rest IH]; intros book st Hc; [done|].
  rewrite for_await_cons by done.
  pose proof (dispatch_plain_step env c i name e book st Hname) as Hstep.
  assert (Hc1 : c_taskId c ∉ canceledTasks (state_of (dispatch env c e book st))).
  { destruct (is_turn_failed e) eqn:Hf.
    - destruct e; try discriminate Hf. by rewrite dispatch_TurnFailed.
    - destruct (dispatch_in_loop env c e book Hf st) as [(_ & _ & -> & _) _]. done. }
  unfold effects_of, state_of in *.
  destruct (dispatch env c e book st) as [[next st1] out]. cbn [fst snd] in *.
  destruct next as [book1|].
  - specialize (IH book1 st1 Hc1).
    destruct (for_await env c rest book1 st1) as [[outcome st2] its]. cbn [snd] in *.
    rewrite flatten_cons, count_app. cbn [iteration_effects List.filter].
    rewrite Hstep, IH. by destruct (reported i name (Dispatched e out)).
  - cbn [snd]. rewrite flatten_cons, count_app. cbn [iteration_effects List.filter flatten].
    rewrite Hstep. by destruct (reported i name (Dispatched e out)).
Qed.

(** X11: a web search and a todo list get one tool update on every event on
    them that is dispatched, a file change one on every [item.completed]
    that is dispatched: nothing is held back as a repetition. *)
Theorem plain_tool_updates_on_every_event env rc b events st i name :
  plain_kind name →
  count (is_update_about i name) (flatten (execute_iterations env rc b events st)) =
    length (List.filter (reported i name) (execute_iterations env rc b events st)).
Proof.
  intros Hname. pose proof (execute_begin_unmarked env rc b st) as Hun.
  unfold execute_iterations.
  destruct (execute_begin env rc b st) as [[[c|] st1] out1]; [|done].
  apply for_await_plain; [done|]. by eapply Hun.
Qed.

Lemma plain_tool_updates_witness :
  count (is_update_about "ws-1" "web_search")
    (flatten (execute_iterations env0 rc_hi 7 stream_search initial_state)) = 3.
Proof.
  rewrite (plain_tool_updates_on_every_event env0 rc_hi 7 stream_search initial_state
             "ws-1" "web_search").
  - reflexivity.
  - by left.
Defined.

(** ** The thread of a context *)

Lemma execute_marks env rc b events st :
  canceledTasks (state_of (execute env rc b events st)) ⊆ canceledTasks st.
Proof.
  pose proof (execute_begin_marks env rc b st) as Hb.
  unfold execute, state_of in *.
  destruct (execute_begin env rc b st) as [[[c|] st1] out1]; cbn [fst snd] in *; [|done].
  pose proof (for_await_tame env c events empty_book st1) as [(_ & _ & _ & Hl) _].
  destruct (for_await env c events empty_book st1) as [[[book|] st2] its]; cbn [fst snd] in *.
  - rewrite execute_end_run. cbn. by etrans.
  - by etrans.
Qed.

Lemma elsewhere_keeps c st st' :
  elsewhere c st st' →
  threads st' !! c = threads st !! c ∧
  threadWorkingDirs st' !! c = threadWorkingDirs st !! c ∧
  canceledTasks st' ⊆ canceledTasks st.
Proof.
  intros [env rc b events st0 Hne|env t b st0].
  - destruct (execute_frame env rc b events st0) as [Hctx _].
    destruct (Hctx c) as [H1 H2]; [done|]. split; [done|]. split; [done|].
    apply execute_marks.
  - rewrite cancelTask_run. cbn. split; [done|]. split; [done|]. intros x.
    rewrite elem_of_difference, elem_of_union, elem_of_singleton. tauto.
Qed.

Lemma elsewhere_keeps_rtc c st st' :
  rtc (elsewhere c) st st' →
  threads st' !! c = threads st !! c ∧
  threadWorkingDirs st' !! c = threadWorkingDirs st !! c ∧
  canceledTasks st' ⊆ canceledTasks st.
Proof.
  induction 1 as [|x y z Hxy _ (IH1 & IH2 & IH3)]; [done|].
  destruct (elsewhere_keeps c x y Hxy) as (H1 & H2 & H3).
  split; [congruence|]. split; [congruence|]. by etrans.
Qed.

(** X12: the thread of a context outlives what the executor does for other
    contexts and every cancellation: after an execution on context [c]
    that got past its checks, then executions on other contexts and
    cancellations of any tasks, in any number and order, an execution on
    [c] with the same effective working directory calls [startThread]
    not at all and runs the thread of the first. *)
Theorem thread_outlives_other_work env1 env2 rc1 rc2 b1 b2 events1 events2 st st2 :
  canceledTasks st = ∅ →
  text_of (rc_userMessage rc1) ≠ "" →
  text_of (rc_userMessage rc2) ≠ "" →
  rc_contextId rc2 = rc_contextId rc1 →
  rtc (elsewhere (rc_contextId rc1)) (state_of (execute env1 rc1 b1 events1 st)) st2 →
  currentWorkingDir env2 (rc_contextId rc1) = currentWorkingDir env1 (rc_contextId rc1) →
  ∃ th, ran (effects_of (execute env1 rc1 b1 events1 st)) = [(th, text_of (rc_userMessage rc1))] ∧
        ran (effects_of (execute env2 rc2 b2 events2 st2)) = [(th, text_of (rc_userMessage rc2))] ∧
        factory_log (effects_of (execute env2 rc2 b2 events2 st2)) = [].
Proof.
  intros Hmarks Ht1 Ht2 Hctx Hsteps Hdir.
  assert (Hc1 : rc_taskId rc1 ∉ canceledTasks st).
  { rewrite Hmarks. apply not_elem_of_empty. }
  destruct (execute_runs_registered_thread_aux env1 rc1 b1 events1 st Hc1 Ht1)
    as (th & Hran1 & [Hth Hkey] & _).
  destruct (elsewhere_keeps_rtc _ _ _ Hsteps) as (Hk1 & Hk2 & Hk3).
  assert (Hc2 : rc_taskId rc2 ∉ canceledTasks st2).
  { intros Hin. apply Hk3, execute_marks in Hin. rewrite Hmarks in Hin.
    by apply not_elem_of_empty in Hin. }
  assert (Hhit : cache_hit env2 (rc_contextId rc2) st2 th).
  { rewrite Hctx. split; [by rewrite Hk1|]. rewrite Hk2, Hkey. f_equal.
    symmetry. by apply key_inj. }
  destruct (execute_runs_registered_thread_aux env2 rc2 b2 events2 st2 Hc2 Ht2)
    as (th2 & Hran2 & _ & [[Hhit2 Hlog]|(Hmiss & _)]).
  - exists th. split; [done|]. split; [|done].
    destruct Hhit as [Ha _], Hhit2 as [Hb _]. rewrite Ha in Hb. by injection Hb as <-.
  - by destruct (Hmiss th).
Qed.

Lemma thread_outlives_other_work_witness :
  ∃ th,
    ran (effects_of (execute env0 rc_hi 7 stream_hello initial_state)) = [(th, "Hi")] ∧
    ran (effects_of (execute env0 rc_hi 8 []
           (state_of (cancelTask env0 "task-1" 9
              (state_of (execute env0 rc_other 6 []
                 (state_of (execute env0 rc_hi 7 stream_hello initial_state)))))))) =
      [(th, "Hi")] ∧
    factory_log (effects_of (execute env0 rc_hi 8 []
           (state_of (cancelTask env0 "task-1" 9
              (state_of (execute env0 rc_other 6 []
                 (state_of (execute env0 rc_hi 7 stream_hello initial_state)))))))) = [].
Proof.
  apply (thread_outlives_other_work env0 env0 rc_hi rc_hi 7 8 stream_hello []
           initial_state).
  - reflexivity.
  - intros H. discriminate H.
  - intros H. discriminate H.
  - reflexivity.
  - eapply rtc_l.
    + apply (elsewhere_execute "ctx-1" env0 rc_other 6 []). intros H. discriminate H.
    + apply rtc_once. apply elsewhere_cancel.
  - reflexivity.
Defined.

(** ** A cancellation that comes in during the loop *)

Lemma first_failure_app_none pre post :
  first_failure pre = None → first_failure (pre ++ post) = first_failure post.
Proof.
  induction pre as [|e pre IH]; [done|]. destruct e; cbn; try done.
Qed.

(** The events that are logged are those that are dispatched. *)

Lemma logged_app out1 out2 : logged (out1 ++ out2) = logged out1 ++ logged out2.
Proof. apply omap_app. Qed.

Lemma dispatch_item_logs_nothing env c completed item book st :
  logged (effects_of (dispatch_item env c completed item book st)) = [].
Proof.
  assert (H : obeys any_step (λ e, logged [e] = []) (dispatch_item env c completed item book)).
  { unfold dispatch_item, publishTextContent, publishThought, publishToolUpdate,
      publishToolOutput, publishStatus.
    destruct item;
      repeat first
        [ apply obeys_ret; [done]
        | apply obeys_newUUID; [done]
        | apply obeys_newDate; [done]
        | apply obeys_emit; [done|reflexivity]
        | apply obeys_bind; [done | | intros ?]
        | match goal with |- obeys _ _ (if ?x then _ else _) => destruct x end
        | match goal with |- obeys _ _ (match ?x with _ => _ end) => destruct x end ]. }
  destruct (H st) as [_ Hall]. induction Hall as [|e out He _ IH]; [done|].
  change (e :: out) with ([e] ++ out). by rewrite logged_app, He, IH.
Qed.

Lemma dispatch_logged env c e book st :
  logged (effects_of (dispatch env c e book st)) = [e].
Proof.
  destruct (event_item e) as [[completed item]|] eqn:He.
  - rewrite (dispatch_item_event _ _ _ _ _ _ _ He).
    pose proof (dispatch_item_logs_nothing env c completed item book st) as H.
    unfold effects_of in *.
    destruct (dispatch_item _ _ _ _ _ _) as [[book1 st1] out]. cbn [snd] in *.
    change (logged (Log (LogEvent e) :: out)) with (e :: logged out). by rewrite H.
  - destruct e; try discriminate He; reflexivity.
Qed.

Lemma for_await_logged env c events : ∀ book st,
  c_taskId c ∉ canceledTasks st →
  logged (flatten (for_await env c events book st).2) = until_failure events.
Proof.
  induction events as [|e rest IH]; intros book st Hc; [done|].
  rewrite for_await_cons by done.
  pose proof (dispatch_logged env c e book st) as Hlog.
  destruct (is_turn_failed e) eqn:He.
  - destruct e; try discriminate He. by rewrite dispatch_TurnFailed.
  - destruct (dispatch_continues env c e book st He) as [book1 Hv].
    pose proof (dispatch_in_loop env c e book He st) as [Hs _].
    unfold value_of, state_of, effects_of in *.
    destruct (dispatch env c e book st) as [[next st1] out]. cbn [fst snd] in *. subst next.
    assert (Hc1 : c_taskId c ∉ canceledTasks st1).
    { destruct Hs as (_ & _ & -> & _). done. }
    specialize (IH book1 st1 Hc1).
    destruct (for_await env c rest book1 st1) as [[outcome st2] its]. cbn [snd] in *.
    rewrite flatten_cons, logged_app. cbn [iteration_effects]. rewrite Hlog, IH.
    by destruct e.
Qed.

Lemma until_failure_app pre post :
  first_failure pre = None → until_failure (pre ++ post) = pre ++ until_failure post.
Proof.
  induction pre as [|e pre IH]; [done|]. destruct e; cbn; try done;
    intros H; by rewrite IH.
Qed.

Lemma until_failure_none events :
  first_failure events = None → until_failure events = events.
Proof.
  intros H. rewrite <- (app_nil_r events) at 1. rewrite (until_failure_app _ _ H).
  by rewrite app_nil_r.
Qed.

Lemma execute_begin_logged env rc b st :
  logged (effects_of (execute_begin env rc b st)) = [].
Proof.
  assert (Ho : logged (opening rc b env st) = []).
  { unfold opening. by destruct (rc_task rc). }
  destruct (decide (rc_taskId rc ∈ canceledTasks st)) as [Hin|Hc].
  { rewrite (execute_begin_canceled env rc b st Hin). unfold effects_of. cbn [snd].
    by rewrite logged_app, Ho. }
  destruct (decide (text_of (rc_userMessage rc) = "")) as [Ht|Ht].
  { rewrite (execute_begin_empty env rc b st Hc Ht). unfold effects_of. cbn [snd].
    by rewrite logged_app, Ho. }
  destruct (cache_hit_dec env (rc_contextId rc) st) as [[th Hh]|Hm].
  - rewrite (execute_begin_hit env rc b st th Hc Ht Hh). unfold effects_of. cbn [snd].
    by rewrite logged_app, Ho.
  - rewrite (execute_begin_miss env rc b st Hc Ht Hm). unfold effects_of. cbn [snd].
    by rewrite logged_app, Ho.
Qed.

(** X13: a call of [cancelTask] for the task of an execution, coming in while
    the execution is suspended in its loop, does not stop it.  The
    events that the execution dispatches are those of the stream up to
    its first [turn.failed], as without the call.  The Canceled update
    and the call of [finished] are those of [cancelTask], on its bus; the
    execution then goes on with the rest of the stream and ends as it
    would have: with its own Failed update at a [turn.failed] or its own
    Completed update at the end of the stream, and one more call of
    [finished]; or, on a stream that throws, with neither. *)
Theorem cancel_does_not_stop_execution env n rc b b' events ending st :
  rc_taskId rc ∉ canceledTasks st →
  text_of (rc_userMessage rc) ≠ "" →
  first_failure (take n events) = None →
  let r := execute_interrupted_stream env n rc b b' events ending st in
  logged (effects_of r) = until_failure events ∧
  ∃ pre mid uuid now uuid' now',
    effects_of r =
      pre ++
      [Publish b' (canceled_update (rc_taskId rc) (rc_contextId rc) uuid now);
       Finished b'] ++
      mid ++
      match first_failure (drop n events), ending with
      | Some m, _ =>
          [Publish b (failed_update (rc_taskId rc) (rc_contextId rc) uuid'
                        ("Error: " +:+ m) now');
           Finished b]
      | None, StreamEnds =>
          [Publish b (completed_update (rc_taskId rc) (rc_contextId rc) now'); Finished b]
      | None, StreamThrows => []
      end ∧
    Forall (before_terminal b (rc_taskId rc) (rc_contextId rc)) pre ∧
    Forall (in_loop b (rc_taskId rc) (rc_contextId rc)) mid.
Proof.
  intros Hc Ht Hnone r. subst r. unfold execute_interrupted_stream.
  pose proof (execute_begin_logged env rc b st) as Hlog1.
  destruct (execute_begin_enters_before env rc b st Hc Ht)
    as (th & st1 & out1 & Hbegin & Hout1 & Hcan & Htc & _).
  rewrite Hbegin in Hlog1 |- *. unfold effects_of in Hlog1. cbn [snd] in Hlog1.
  assert (Hc1 : c_taskId (loop_ctx rc b th) ∉ canceledTasks st1) by (by rewrite Hcan).
  pose proof (for_await_unmarked env (loop_ctx rc b th) (take n events) empty_book st1 Hc1)
    as [Hk Hloop].
  pose proof (for_await_logged env (loop_ctx rc b th) (take n events) empty_book st1 Hc1)
    as Hlog2.
  rewrite Hnone in Hloop.
  destruct (for_await env (loop_ctx rc b th) (take n events) empty_book st1)
    as [[outcome st2] its].
  cbn [fst snd] in Hk, Hloop, Hlog2. destruct Hloop as ([book1 ->] & Hall).
  assert (Hrec : taskContexts st2 !! rc_taskId rc = Some (rc_contextId rc)).
  { destruct Hk as (_ & _ & _ & -> & _). rewrite Htc. apply lookup_insert_eq. }
  pose proof (cancelTask_leaves_no_mark env (rc_taskId rc) b' st2) as Hc3.
  rewrite cancelTask_run in Hc3 |- *. rewrite Hrec in Hc3 |- *.
  cbv zeta in Hc3 |- *. cbn [default from_option id] in Hc3 |- *.
  unfold state_of in Hc3. cbn [fst snd] in Hc3.
  match type of Hc3 with _ ∉ canceledTasks ?s => set (st3 := s) in * end.
  pose proof (for_await_unmarked env (loop_ctx rc b th) (drop n events) book1 st3 Hc3)
    as [_ Hloop'].
  pose proof (for_await_logged env (loop_ctx rc b th) (drop n events) book1 st3 Hc3)
    as Hlog3.
  destruct (for_await env (loop_ctx rc b th) (drop n events) book1 st3)
    as [[outcome' st4] its'].
  cbn [fst snd] in Hloop', Hlog3.
  assert (Hall1 : Forall (before_terminal b (rc_taskId rc) (rc_contextId rc))
                    (out1 ++ flatten its)).
  { apply Forall_app. split; [done|]. eapply Forall_impl; [exact Hall|].
    apply in_loop_before. }
  assert (Hlogs : ∀ out5, logged out5 = [] →
            logged (out1 ++ flatten its ++
                    [Publish b' (canceled_update (rc_taskId rc) (rc_contextId rc)
                                   (randomUUID env (uuids st2)) (toISOString env (dates st2)));
                     Finished b'] ++ flatten its' ++ out5) = until_failure events).
  { intros out5 H5. rewrite !logged_app, Hlog1, Hlog2, Hlog3, H5, app_nil_r.
    rewrite (until_failure_none _ Hnone).
    change (logged [_; _]) with (@nil ThreadEvent). cbn [app].
    rewrite <- (until_failure_app _ _ Hnone). by rewrite take_drop. }
  destruct (first_failure (drop n events)) as [m|].
  - destruct Hloop' as (-> & pre' & uuid' & now' & Hfl & Hpre').
    split.
    { unfold effects_of. cbn [snd]. specialize (Hlogs [] eq_refl).
      by rewrite app_nil_r in Hlogs. }
    rewrite Hfl. unfold effects_of. cbn [snd].
    exists (out1 ++ flatten its), pre', (randomUUID env (uuids st2)),
      (toISOString env (dates st2)), uuid', now'.
    split; [by rewrite <- !app_assoc|]. by split.
  - destruct Hloop' as ([book2 ->] & Hall'). destruct ending.
    + rewrite execute_end_run. unfold effects_of. cbn [snd].
      split; [by apply Hlogs|].
      exists (out1 ++ flatten its), (flatten its'), (randomUUID env (uuids st2)),
        (toISOString env (dates st2)), "", (toISOString env (dates st4)).
      split; [by rewrite <- !app_assoc|]. by split.
    + unfold effects_of. cbn [snd].
      split. { specialize (Hlogs [] eq_refl). by rewrite app_nil_r in Hlogs. }
      exists (out1 ++ flatten its), (flatten its'), (randomUUID env (uuids st2)),
        (toISOString env (dates st2)), "", "".
      split; [by rewrite <- !app_assoc, app_nil_r|]. by split.
Qed.

Lemma cancel_does_not_stop_execution_witness :
  logged (effects_of (execute_interrupted_stream env0 1 rc_hi 7 9 stream_hello StreamEnds
                        initial_state)) = stream_hello ∧
  ∃ (pre mid : list Effect) (uuid now uuid' now' : string),
    effects_of (execute_interrupted_stream env0 1 rc_hi 7 9 stream_hello StreamEnds
                  initial_state) =
      pre ++
      [Publish 9 (canceled_update "task-1" "ctx-1" uuid now); Finished 9] ++
      mid ++
      [Publish 7 (completed_update "task-1" "ctx-1" now'); Finished 7] ∧
    Forall (before_terminal 7 "task-1" "ctx-1") pre ∧
    Forall (in_loop 7 "task-1" "ctx-1") mid.
Proof.
  apply (cancel_does_not_stop_execution env0 1 rc_hi 7 9 stream_hello StreamEnds
           initial_state).
  - cbn. apply not_elem_of_empty.
  - intros H. discriminate H.
  - reflexivity.
Defined.

(** ** The forms of what is published *)

Lemma obeys_quiet {A} P (m : M A) :
  (∀ st, effects_of (m st) = []) → obeys any_step P m.
Proof. intros H st. split; [done|]. rewrite H. constructor. Qed.

Lemma publishStatus_in_form env b t c s f m k :
  (∀ now, published_form t c (EvStatus {|
     su_taskId := t; su_contextId := c;
     su_status := {| state := s; message := m; timestamp := now |};
     su_final := f;
     su_metadata := if str_truthy k then k else None |})) →
  obeys any_step (in_form b t c) (publishStatus env b t c s f m k).
Proof.
  intros H. unfold publishStatus.
  apply obeys_bind; [done|apply obeys_newDate; done|].
  intros now. apply obeys_emit; [done|]. split; [done|]. apply H.
Qed.

Ltac in_form_step :=
  first
    [ apply obeys_ret; [done]
    | apply obeys_newUUID; [done]
    | apply obeys_quiet; [done]
    | apply publishStatus_in_form; intros ?; cbn [str_truthy nonempty];
      first [ apply form_working; tauto
            | apply form_text
            | apply form_thought
            | apply form_tool; unfold tool_kind; tauto
            | apply form_completed
            | apply form_failed
            | apply form_canceled ]
    | apply obeys_emit; [done|]; cbn;
      first [ done
            | split; [done|]; first [ apply form_task | apply form_artifact; tauto ] ]
    | apply obeys_bind; [done | | intros ?]
    | match goal with |- obeys _ _ (if ?x then _ else _) => destruct x end
    | match goal with |- obeys _ _ (match ?x with _ => _ end) => destruct x end ].

Lemma publishCanceled_in_form env b t c :
  obeys any_step (in_form b t c) (publishCanceled env b t (Some c)).
Proof. unfold publishCanceled. repeat in_form_step. Qed.

Lemma publishFailure_in_form env b t c text :
  obeys any_step (in_form b t c) (publishFailure env b t c text).
Proof. unfold publishFailure. repeat in_form_step. Qed.

Lemma dispatch_item_in_form env c completed item book :
  obeys any_step (in_form (c_eventBus c) (c_taskId c) (c_contextId c))
    (dispatch_item env c completed item book).
Proof.
  unfold dispatch_item, publishTextContent, publishThought, publishToolUpdate,
    publishToolOutput.
  destruct item; repeat in_form_step.
Qed.

Lemma dispatch_in_form env c e book :
  obeys any_step (in_form (c_eventBus c) (c_taskId c) (c_contextId c))
    (dispatch env c e book).
Proof.
  unfold dispatch, publishToolOutput.
  destruct e;
    repeat first [ apply dispatch_item_in_form | apply publishFailure_in_form | in_form_step ].
Qed.

Lemma obeys_effects {A} P (m : M A) :
  (∀ st, Forall P (effects_of (m st))) → obeys any_step P m.
Proof. intros H st. by split. Qed.

Lemma execute_begin_in_form env rc b :
  obeys any_step (in_form b (rc_taskId rc) (rc_contextId rc)) (execute_begin env rc b).
Proof.
  unfold execute_begin. cbv zeta.
  repeat first
    [ apply publishCanceled_in_form
    | apply publishFailure_in_form
    | apply obeys_effects; intros ?; by repeat constructor
    | in_form_step ].
Qed.

Lemma for_await_in_form env c events : ∀ book st,
  Forall (in_form (c_eventBus c) (c_taskId c) (c_contextId c))
    (flatten (for_await env c events book st).2).
Proof.
  induction events as [|e rest IH]; intros book st; cbn [for_await]; [constructor|].
  case_bool_decide as Hc.
  - pose proof (publishCanceled_in_form env (c_eventBus c) (c_taskId c) (c_contextId c) st)
      as [_ H].
    unfold effects_of in H.
    destruct (publishCanceled _ _ _ _ _) as [[u st1] out]. cbn in *.
    by rewrite app_nil_r.
  - pose proof (dispatch_in_form env c e book st) as [_ H]. unfold effects_of in H.
    destruct (dispatch env c e book st) as [[[book1|] st1] out]; cbn [snd] in H.
    + specialize (IH book1 st1).
      destruct (for_await env c rest book1 st1) as [[outcome st2] its]. cbn [snd] in *.
      rewrite flatten_cons. by apply Forall_app.
    + cbn. by rewrite app_nil_r.
Qed.

Lemma execute_begin_ctx env rc b st c st1 out1 :
  execute_begin env rc b st = (Some c, st1, out1) → ∃ th, c = loop_ctx rc b th.
Proof.
  destruct (decide (rc_taskId rc ∈ canceledTasks st)) as [Hin|Hc].
  { by rewrite (execute_begin_canceled env rc b st Hin). }
  destruct (decide (text_of (rc_userMessage rc) = "")) as [Ht|Ht].
  { by rewrite (execute_begin_empty env rc b st Hc Ht). }
  destruct (execute_begin_enters_before env rc b st Hc Ht)
    as (th & st1' & out1' & -> & _).
  intros [= <- <- <-]. by exists th.
Qed.

(** X14: whatever the state, the request, the events of the stream and the
    way it ends: all that [execute] publishes is on its bus, for its
    task and its context, and in one of the forms of [published_form];
    and it calls [finished] on its bus only.  [cancelTask] publishes one
    update, the final Canceled update with the text "Task canceled.", for
    the context id on record for the task or the UUID drawn in its
    place, and then calls [finished]. *)
Theorem publications_are_in_form env rc b events ending t st :
  Forall (in_form b (rc_taskId rc) (rc_contextId rc))
    (effects_of (execute_stream env rc b events ending st)) ∧
  effects_of (cancelTask env t b st) =
    [Publish b (canceled_update t
                  (default (randomUUID env (S (uuids st))) (taskContexts st !! t))
                  (randomUUID env (uuids st)) (toISOString env (dates st)));
     Finished b].
Proof.
  split.
  - pose proof (execute_begin_in_form env rc b st) as [_ Hb].
    pose proof (execute_begin_ctx env rc b st) as Hctx.
    unfold execute_stream, effects_of in *.
    destruct (execute_begin env rc b st) as [[[c|] st1] out1]; cbn [snd] in *; [|done].
    destruct (Hctx c st1 out1 eq_refl) as [th ->].
    pose proof (for_await_in_form env (loop_ctx rc b th) events empty_book st1) as Hl.
    destruct (for_await env (loop_ctx rc b th) events empty_book st1)
      as [[[book|] st2] its]; cbn [snd] in *.
    + destruct ending.
      * rewrite execute_end_run. cbn [snd].
        apply Forall_app. split; [done|]. apply Forall_app. split; [done|].
        repeat constructor.
      * by apply Forall_app.
    + by apply Forall_app.
  - by rewrite cancelTask_run.
Qed.

(** ** The server *)

(** X15: [findAvailablePort] resolves with a port exactly when this port is
    the first one, from the start port on, on which the server made to
    try it listens, all ports before it having given 'error'; the tries
    are as many as there are ports from the start port to this one. *)
Theorem findAvailablePort_first_listening probe : ∀ fuel startPort port,
  CodexA2AServer.findAvailablePort probe fuel startPort = Some (CodexA2AServer.Resolved port) ↔
  (startPort ≤ port)%N ∧ (N.to_nat (port - startPort) < fuel)%nat ∧
  probe port = CodexA2AServer.Listening ∧
  ∀ p, (startPort ≤ p)%N → (p < port)%N → probe p = CodexA2AServer.PortError.
Proof.
  induction fuel as [|fuel IH]; intros startPort port; cbn [CodexA2AServer.findAvailablePort].
  { split; [done|]. intros (_ & H & _). lia. }
  destruct (probe startPort) eqn:Hp.
  - split.
    + intros [= <-]. split; [lia|]. split; [lia|]. split; [done|]. intros p ? ?. lia.
    + intros (Hle & _ & _ & Hbelow).
      destruct (decide (startPort = port)) as [->|Hne]; [done|].
      rewrite Hbelow in Hp by lia. discriminate Hp.
  - rewrite IH. split.
    + intros (Hle & Hf & Hl & Hbelow). split; [lia|]. split; [lia|]. split; [done|].
      intros p H1 H2. destruct (decide (p = startPort)) as [->|Hne]; [done|].
      apply Hbelow; lia.
    + intros (Hle & Hf & Hl & Hbelow).
      assert (startPort ≠ port) by (intros ->; congruence).
      split; [lia|]. split; [lia|]. split; [done|]. intros p H1 H2. apply Hbelow; lia.
  - split; [done|]. intros (Hle & _ & Hl & Hbelow).
    destruct (decide (startPort = port)) as [->|Hne]; [congruence|].
    rewrite Hbelow in Hp by lia. discriminate Hp.
Qed.

Lemma findAvailablePort_first_listening_witness :
  CodexA2AServer.findAvailablePort probe_taken 5 50002 =
    Some (CodexA2AServer.Resolved 50003%N).
Proof.
  apply (proj2 (findAvailablePort_first_listening probe_taken 5 50002 50003)).
  split; [lia|]. split; [vm_compute; lia|]. split; [reflexivity|].
  intros p H1 H2. assert (p = 50002%N) as -> by lia. reflexivity.
Defined.

Section ServerFacts.

Context {AgentCard CardOverrides Codex : Type}.
Variable buildAgentCard : N → option CardOverrides → AgentCard.
Variable options : CodexA2AServer.CodexA2AServerOptions CardOverrides Codex.

Let consistent := CodexA2AServer.consistent buildAgentCard options.
Let start := CodexA2AServer.start buildAgentCard options (Codex := Codex).
Let calls := CodexA2AServer.calls buildAgentCard options (Codex := Codex).
Let call := CodexA2AServer.call buildAgentCard options (Codex := Codex).

Lemma consistent_new : consistent CodexA2AServer.new_server.
Proof. split; [intros H; discriminate H|done]. Qed.

Lemma consistent_start w st : consistent st → consistent (start w st).1.2.
Proof.
  intros Hst. unfold start, CodexA2AServer.start.
  destruct st as [s u h r]. cbn [CodexA2AServer.running CodexA2AServer.server
    CodexA2AServer.serverUrl CodexA2AServer.requestHandler].
  destruct r; [done|].
  destruct (CodexA2AServer.resolveCodex options w); [|done].
  destruct (CodexA2AServer.findAvailablePort _ _ _) as [[p|]|]; [|done|done].
  assert (Hquiet : ∀ h', consistent
            {| CodexA2AServer.server := s; CodexA2AServer.serverUrl := u;
               CodexA2AServer.requestHandler := h'; CodexA2AServer.running := false |}).
  { intros h'. split; cbn; [done|]. apply Hst. }
  destruct (negb _); cbn [fst snd]; [apply Hquiet|].
  destruct (CodexA2AServer.w_listen w); cbn [fst snd].
  - split; cbn; [|done]. intros _. by eexists _, _.
  - split; cbn; done.
  - split; cbn; done.
Qed.

Lemma consistent_call c st : consistent st → consistent (call c st).1.
Proof.
  intros Hst. unfold call. destruct c as [w| |taskId|]; cbn.
  - pose proof (consistent_start w st Hst) as H. unfold start in H.
    by destruct (CodexA2AServer.start _ _ w st) as [[r st1] out].
  - unfold CodexA2AServer.stop. destruct (CodexA2AServer.server st); [apply consistent_new|done].
  - unfold CodexA2AServer.cancelTask. by destruct (CodexA2AServer.requestHandler st).
  - split; cbn; [done|]. intros H. by destruct (proj2 Hst H) as [-> _].
Qed.

Lemma consistent_calls cs : ∀ st, consistent st → consistent (calls cs st).1.
Proof.
  induction cs as [|c cs IH]; intros st Hst; [done|].
  unfold calls in *. cbn [CodexA2AServer.calls].
  pose proof (consistent_call c st Hst) as H1. unfold call in H1.
  destruct (CodexA2AServer.call _ _ c st) as [st1 out1]. cbn [fst] in H1.
  specialize (IH st1 H1). by destruct (CodexA2AServer.calls _ _ cs st1) as [st2 out2].
Qed.

(** X16: whatever was called on a new server, each call over before the
    next: while the server says that it runs, its URL is that of a port,
    the agent card of its request handler was built for this port, the
    http server serves this handler, and the executor was made from the
    options of the server; and a server that holds no http server has no
    URL and does not run. *)
Theorem server_running_is_consistent (cs : list (CodexA2AServer.Call Codex)) :
  let st := (CodexA2AServer.calls buildAgentCard options cs CodexA2AServer.new_server).1 in
  (CodexA2AServer.isRunning st = true →
     ∃ port h,
       CodexA2AServer.getUrl st = Some (CodexA2AServer.url_of port) ∧
       CodexA2AServer.requestHandler st = Some h ∧
       CodexA2AServer.server st = Some {| CodexA2AServer.sv_app := h |} ∧
       CodexA2AServer.h_agentCard h = buildAgentCard port (CodexA2AServer.agentCard options) ∧
       CodexA2AServer.h_executor h = CodexA2AServer.executor_options options) ∧
  (CodexA2AServer.server st = None →
     CodexA2AServer.getUrl st = None ∧ CodexA2AServer.isRunning st = false).
Proof. apply (consistent_calls cs), consistent_new. Qed.

(** X17: after [stop], whatever was called before on a new server: the server
    holds no http server, has no URL and does not run, and a second
    [stop] does nothing.  The request handler is gone when there was an
    http server to close; without one, [stop] leaves the handler as it
    is, also the one that a failed [start] has left. *)
Theorem stop_clears (cs : list (CodexA2AServer.Call Codex)) :
  let st := (CodexA2AServer.calls buildAgentCard options cs CodexA2AServer.new_server).1 in
  let st' := (CodexA2AServer.stop st).1 in
  CodexA2AServer.server st' = None ∧
  CodexA2AServer.getUrl st' = None ∧
  CodexA2AServer.isRunning st' = false ∧
  CodexA2AServer.stop st' = (st', []) ∧
  CodexA2AServer.requestHandler st' =
    match CodexA2AServer.server st with
    | Some _ => None
    | None => CodexA2AServer.requestHandler st
    end.
Proof.
  intros st st'. subst st'.
  pose proof (consistent_calls cs _ consistent_new) as [_ Hnone].
  change (calls cs CodexA2AServer.new_server).1 with st in Hnone.
  unfold CodexA2AServer.stop, CodexA2AServer.getUrl, CodexA2AServer.isRunning.
  destruct (CodexA2AServer.server st) eqn:Hs; cbn.
  - done.
  - destruct (Hnone eq_refl) as [Hu Hr]. rewrite Hs. by repeat split.
Qed.

End ServerFacts.

(** X18: the executor that the server makes resolves the default
    configuration for every context, whatever the options of the server:
    the constructor of the executor reads [getConfig], and [start] gives
    it [getThreadOptions] and [getTurnOptions], which it does not read.
    So every thread is started with sandbox mode workspace-write,
    approval policy on-failure, network access and web search; only the
    working directory can be chosen, by [getWorkingDirectory]. *)
Theorem server_executor_uses_default_config {CardOverrides Codex : Type}
    (options : CodexA2AServer.CodexA2AServerOptions CardOverrides Codex) host c :
  let env := CodexExecutor_new host (CodexA2AServer.executor_options options) in
  resolveConfig env c = DEFAULT_CODEX_CONFIG ∧
  threadOptions env c =
    {| skipGitRepoCheck := true;
       o_webSearchEnabled := true;
       networkAccessEnabled := true;
       webSearchMode := "live";
       o_workingDirectory :=
         match CodexA2AServer.o_getWorkingDirectory options with
         | Some f => or_opt (f c) None
         | None => None
         end;
       o_sandboxMode := WorkspaceWrite;
       o_approvalPolicy := OnFailure |}.
Proof.
  destruct options as [p card cx factory gto gtu [f|] app]; destruct gto, gtu; cbn; split;
    try reflexivity; unfold threadOptions, workingDir; cbn;
    try (destruct (f c) as [[|a s]|]; reflexivity).
Qed.

Lemma server_running_is_consistent_witness :
  ∃ port h,
    CodexA2AServer.getUrl
      (CodexA2AServer.calls (λ port _, port) server_options
         [CodexA2AServer.CallStart world_taken] CodexA2AServer.new_server).1 =
      Some (CodexA2AServer.url_of port) ∧
    CodexA2AServer.requestHandler
      (CodexA2AServer.calls (λ port _, port) server_options
         [CodexA2AServer.CallStart world_taken] CodexA2AServer.new_server).1 = Some h ∧
    CodexA2AServer.server
      (CodexA2AServer.calls (λ port _, port) server_options
         [CodexA2AServer.CallStart world_taken] CodexA2AServer.new_server).1 =
      Some {| CodexA2AServer.sv_app := h |} ∧
    CodexA2AServer.h_agentCard h = port ∧
    CodexA2AServer.h_executor h = CodexA2AServer.executor_options server_options.
Proof.
  apply (proj1 (server_running_is_consistent (λ port _, port) server_options
                  [CodexA2AServer.CallStart world_taken])).
  reflexivity.
Defined.
